(** * In-memory record store: the WHERE query language

    A shallow embedding of [inmemorydb/query_parser.py],
    [inmemorydb/database.py] and of the older free functions of
    [old_main.py], followed by the properties of the parser and of the
    evaluator.

    Layout:
    - [Py]          the fragment of the host language the sources rely on:
                    [str] methods, [float()], rich comparison, exceptions;
    - [Re]          the fragment of [re] the two patterns need:
                    [re.match] and [re.split] with backtracking;
    - [QueryParser] the class of [inmemorydb/query_parser.py];
    - [Database]    the store of [inmemorydb/database.py];
    - [OldMain]     [parse_condition], [evaluate_condition],
                    [query_vessels] and [clean_js_content] of
                    [old_main.py];
    - the theorems, and further properties of the same functions. *)

From Stdlib Require Import ZArith NArith List Bool Lia Ascii String Permutation.
From Stdlib Require Import Floats.SpecFloat.
From stdpp Require Import gmap.
Import ListNotations.

Set Default Proof Using "Type".

(* ===================================================================== *)
(** * The host language *)
(* ===================================================================== *)

Module Py.

(** A Python [str] is a sequence of Unicode code points. *)
Definition char := N.
Abbreviation str := (list N).

(** [lit "abc"] is the [str] whose code points are the bytes of an ASCII
    literal; the two curly quotes of the sources are outside ASCII and are
    given by their code points. *)
Definition lit (s : string) : str := List.map N_of_ascii (list_ascii_of_string s).

Definition LEFT_SINGLE_QUOTE : char := 8216%N.   (* U+2018 *)
Definition RIGHT_SINGLE_QUOTE : char := 8217%N.  (* U+2019 *)

(** ** Exceptions and results *)

Inductive exn :=
| ValueError (msg : str)
| TypeError
| KeyError (key : str).

Inductive result (A : Type) :=
| Ok (a : A)
| Raise (e : exn).
Arguments Ok {A} a.
Arguments Raise {A} e.

Definition bind {A B} (m : result A) (f : A -> result B) : result B :=
  match m with
  | Ok a => f a
  | Raise e => Raise e
  end.

Notation "x <- m ;; k" := (bind m (fun x => k))
  (at level 100, m at next level, right associativity).

(** [[f(x) for x in xs]]: the first exception aborts the comprehension. *)
Fixpoint comprehension {A B} (f : A -> result B) (xs : list A) : result (list B) :=
  match xs with
  | [] => Ok []
  | x :: xs' => y <- f x ;; ys <- comprehension f xs' ;; Ok (y :: ys)
  end.

(** [all(f(x) for x in xs)]: the generator is consumed up to the first
    false element; an exception raised on the way propagates. *)
Fixpoint all {A} (f : A -> result bool) (xs : list A) : result bool :=
  match xs with
  | [] => Ok true
  | x :: xs' => b <- f x ;; if b then all f xs' else Ok false
  end.

(** [[x for x in xs if f(x)]] *)
Fixpoint comprehension_if {A} (f : A -> result bool) (xs : list A) : result (list A) :=
  match xs with
  | [] => Ok []
  | x :: xs' =>
      b <- f x ;; ys <- comprehension_if f xs' ;; Ok (if b then x :: ys else ys)
  end.

(** ** [str] methods *)

Section CodePoints.
Local Open Scope N_scope.

Definition between (lo hi c : char) : bool := (lo <=? c) && (c <=? hi).

(** [str.isspace] on one code point, which is also what [\s] matches in a
    [str] pattern and what [str.strip()] removes. *)
Definition isspace (c : char) : bool :=
  between 9 13 c || between 28 32 c || (c =? 133) || (c =? 160)
  || (c =? 5760) || between 8192 8202 c || (c =? 8232) || (c =? 8233)
  || (c =? 8239) || (c =? 8287) || (c =? 12288).

Definition isdigit (c : char) : bool := between 48 57 c.

(** Membership in a table of ranges of code points, bounds included. *)
Definition in_ranges (t : list (N * N)) (c : char) : bool :=
  existsb (fun r => between (fst r) (snd r) c) t.

(** [\w] in a [str] pattern is [str.isalnum] or the underscore.
    [WORD_RANGES] is the table of these code points in the Unicode
    database of CPython 3.11 (Unicode 14.0). *)
Definition WORD_RANGES : list (N * N) :=
  [
    (48, 57); (65, 90); (95, 95); (97, 122); (170, 170); (178, 179);
    (181, 181); (185, 186); (188, 190); (192, 214); (216, 246); (248, 705);
    (710, 721); (736, 740); (748, 748); (750, 750); (880, 884); (886, 887);
    (890, 893); (895, 895); (902, 902); (904, 906); (908, 908); (910, 929);
    (931, 1013); (1015, 1153); (1162, 1327); (1329, 1366); (1369, 1369);
    (1376, 1416); (1488, 1514); (1519, 1522); (1568, 1610); (1632, 1641);
    (1646, 1647); (1649, 1747); (1749, 1749); (1765, 1766); (1774, 1788);
    (1791, 1791); (1808, 1808); (1810, 1839); (1869, 1957); (1969, 1969);
    (1984, 2026); (2036, 2037); (2042, 2042); (2048, 2069); (2074, 2074);
    (2084, 2084); (2088, 2088); (2112, 2136); (2144, 2154); (2160, 2183);
    (2185, 2190); (2208, 2249); (2308, 2361); (2365, 2365); (2384, 2384);
    (2392, 2401); (2406, 2415); (2417, 2432); (2437, 2444); (2447, 2448);
    (2451, 2472); (2474, 2480); (2482, 2482); (2486, 2489); (2493, 2493);
    (2510, 2510); (2524, 2525); (2527, 2529); (2534, 2545); (2548, 2553);
    (2556, 2556); (2565, 2570); (2575, 2576); (2579, 2600); (2602, 2608);
    (2610, 2611); (2613, 2614); (2616, 2617); (2649, 2652); (2654, 2654);
    (2662, 2671); (2674, 2676); (2693, 2701); (2703, 2705); (2707, 2728);
    (2730, 2736); (2738, 2739); (2741, 2745); (2749, 2749); (2768, 2768);
    (2784, 2785); (2790, 2799); (2809, 2809); (2821, 2828); (2831, 2832);
    (2835, 2856); (2858, 2864); (2866, 2867); (2869, 2873); (2877, 2877);
    (2908, 2909); (2911, 2913); (2918, 2927); (2929, 2935); (2947, 2947);
    (2949, 2954); (2958, 2960); (2962, 2965); (2969, 2970); (2972, 2972);
    (2974, 2975); (2979, 2980); (2984, 2986); (2990, 3001); (3024, 3024);
    (3046, 3058); (3077, 3084); (3086, 3088); (3090, 3112); (3114, 3129);
    (3133, 3133); (3160, 3162); (3165, 3165); (3168, 3169); (3174, 3183);
    (3192, 3198); (3200, 3200); (3205, 3212); (3214, 3216); (3218, 3240);
    (3242, 3251); (3253, 3257); (3261, 3261); (3293, 3294); (3296, 3297);
    (3302, 3311); (3313, 3314); (3332, 3340); (3342, 3344); (3346, 3386);
    (3389, 3389); (3406, 3406); (3412, 3414); (3416, 3425); (3430, 3448);
    (3450, 3455); (3461, 3478); (3482, 3505); (3507, 3515); (3517, 3517);
    (3520, 3526); (3558, 3567); (3585, 3632); (3634, 3635); (3648, 3654);
    (3664, 3673); (3713, 3714); (3716, 3716); (3718, 3722); (3724, 3747);
    (3749, 3749); (3751, 3760); (3762, 3763); (3773, 3773); (3776, 3780);
    (3782, 3782); (3792, 3801); (3804, 3807); (3840, 3840); (3872, 3891);
    (3904, 3911); (3913, 3948); (3976, 3980); (4096, 4138); (4159, 4169);
    (4176, 4181); (4186, 4189); (4193, 4193); (4197, 4198); (4206, 4208);
    (4213, 4225); (4238, 4238); (4240, 4249); (4256, 4293); (4295, 4295);
    (4301, 4301); (4304, 4346); (4348, 4680); (4682, 4685); (4688, 4694);
    (4696, 4696); (4698, 4701); (4704, 4744); (4746, 4749); (4752, 4784);
    (4786, 4789); (4792, 4798); (4800, 4800); (4802, 4805); (4808, 4822);
    (4824, 4880); (4882, 4885); (4888, 4954); (4969, 4988); (4992, 5007);
    (5024, 5109); (5112, 5117); (5121, 5740); (5743, 5759); (5761, 5786);
    (5792, 5866); (5870, 5880); (5888, 5905); (5919, 5937); (5952, 5969);
    (5984, 5996); (5998, 6000); (6016, 6067); (6103, 6103); (6108, 6108);
    (6112, 6121); (6128, 6137); (6160, 6169); (6176, 6264); (6272, 6276);
    (6279, 6312); (6314, 6314); (6320, 6389); (6400, 6430); (6470, 6509);
    (6512, 6516); (6528, 6571); (6576, 6601); (6608, 6618); (6656, 6678);
    (6688, 6740); (6784, 6793); (6800, 6809); (6823, 6823); (6917, 6963);
    (6981, 6988); (6992, 7001); (7043, 7072); (7086, 7141); (7168, 7203);
    (7232, 7241); (7245, 7293); (7296, 7304); (7312, 7354); (7357, 7359);
    (7401, 7404); (7406, 7411); (7413, 7414); (7418, 7418); (7424, 7615);
    (7680, 7957); (7960, 7965); (7968, 8005); (8008, 8013); (8016, 8023);
    (8025, 8025); (8027, 8027); (8029, 8029); (8031, 8061); (8064, 8116);
    (8118, 8124); (8126, 8126); (8130, 8132); (8134, 8140); (8144, 8147);
    (8150, 8155); (8160, 8172); (8178, 8180); (8182, 8188); (8304, 8305);
    (8308, 8313); (8319, 8329); (8336, 8348); (8450, 8450); (8455, 8455);
    (8458, 8467); (8469, 8469); (8473, 8477); (8484, 8484); (8486, 8486);
    (8488, 8488); (8490, 8493); (8495, 8505); (8508, 8511); (8517, 8521);
    (8526, 8526); (8528, 8585); (9312, 9371); (9450, 9471); (10102, 10131);
    (11264, 11492); (11499, 11502); (11506, 11507); (11517, 11517);
    (11520, 11557); (11559, 11559); (11565, 11565); (11568, 11623);
    (11631, 11631); (11648, 11670); (11680, 11686); (11688, 11694);
    (11696, 11702); (11704, 11710); (11712, 11718); (11720, 11726);
    (11728, 11734); (11736, 11742); (11823, 11823); (12293, 12295);
    (12321, 12329); (12337, 12341); (12344, 12348); (12353, 12438);
    (12445, 12447); (12449, 12538); (12540, 12543); (12549, 12591);
    (12593, 12686); (12690, 12693); (12704, 12735); (12784, 12799);
    (12832, 12841); (12872, 12879); (12881, 12895); (12928, 12937);
    (12977, 12991); (13312, 19903); (19968, 42124); (42192, 42237);
    (42240, 42508); (42512, 42539); (42560, 42606); (42623, 42653);
    (42656, 42735); (42775, 42783); (42786, 42888); (42891, 42954);
    (42960, 42961); (42963, 42963); (42965, 42969); (42994, 43009);
    (43011, 43013); (43015, 43018); (43020, 43042); (43056, 43061);
    (43072, 43123); (43138, 43187); (43216, 43225); (43250, 43255);
    (43259, 43259); (43261, 43262); (43264, 43301); (43312, 43334);
    (43360, 43388); (43396, 43442); (43471, 43481); (43488, 43492);
    (43494, 43518); (43520, 43560); (43584, 43586); (43588, 43595);
    (43600, 43609); (43616, 43638); (43642, 43642); (43646, 43695);
    (43697, 43697); (43701, 43702); (43705, 43709); (43712, 43712);
    (43714, 43714); (43739, 43741); (43744, 43754); (43762, 43764);
    (43777, 43782); (43785, 43790); (43793, 43798); (43808, 43814);
    (43816, 43822); (43824, 43866); (43868, 43881); (43888, 44002);
    (44016, 44025); (44032, 55203); (55216, 55238); (55243, 55291);
    (63744, 64109); (64112, 64217); (64256, 64262); (64275, 64279);
    (64285, 64285); (64287, 64296); (64298, 64310); (64312, 64316);
    (64318, 64318); (64320, 64321); (64323, 64324); (64326, 64433);
    (64467, 64829); (64848, 64911); (64914, 64967); (65008, 65019);
    (65136, 65140); (65142, 65276); (65296, 65305); (65313, 65338);
    (65345, 65370); (65382, 65470); (65474, 65479); (65482, 65487);
    (65490, 65495); (65498, 65500); (65536, 65547); (65549, 65574);
    (65576, 65594); (65596, 65597); (65599, 65613); (65616, 65629);
    (65664, 65786); (65799, 65843); (65856, 65912); (65930, 65931);
    (66176, 66204); (66208, 66256); (66273, 66299); (66304, 66339);
    (66349, 66378); (66384, 66421); (66432, 66461); (66464, 66499);
    (66504, 66511); (66513, 66517); (66560, 66717); (66720, 66729);
    (66736, 66771); (66776, 66811); (66816, 66855); (66864, 66915);
    (66928, 66938); (66940, 66954); (66956, 66962); (66964, 66965);
    (66967, 66977); (66979, 66993); (66995, 67001); (67003, 67004);
    (67072, 67382); (67392, 67413); (67424, 67431); (67456, 67461);
    (67463, 67504); (67506, 67514); (67584, 67589); (67592, 67592);
    (67594, 67637); (67639, 67640); (67644, 67644); (67647, 67669);
    (67672, 67702); (67705, 67742); (67751, 67759); (67808, 67826);
    (67828, 67829); (67835, 67867); (67872, 67897); (67968, 68023);
    (68028, 68047); (68050, 68096); (68112, 68115); (68117, 68119);
    (68121, 68149); (68160, 68168); (68192, 68222); (68224, 68255);
    (68288, 68295); (68297, 68324); (68331, 68335); (68352, 68405);
    (68416, 68437); (68440, 68466); (68472, 68497); (68521, 68527);
    (68608, 68680); (68736, 68786); (68800, 68850); (68858, 68899);
    (68912, 68921); (69216, 69246); (69248, 69289); (69296, 69297);
    (69376, 69415); (69424, 69445); (69457, 69460); (69488, 69505);
    (69552, 69579); (69600, 69622); (69635, 69687); (69714, 69743);
    (69745, 69746); (69749, 69749); (69763, 69807); (69840, 69864);
    (69872, 69881); (69891, 69926); (69942, 69951); (69956, 69956);
    (69959, 69959); (69968, 70002); (70006, 70006); (70019, 70066);
    (70081, 70084); (70096, 70106); (70108, 70108); (70113, 70132);
    (70144, 70161); (70163, 70187); (70272, 70278); (70280, 70280);
    (70282, 70285); (70287, 70301); (70303, 70312); (70320, 70366);
    (70384, 70393); (70405, 70412); (70415, 70416); (70419, 70440);
    (70442, 70448); (70450, 70451); (70453, 70457); (70461, 70461);
    (70480, 70480); (70493, 70497); (70656, 70708); (70727, 70730);
    (70736, 70745); (70751, 70753); (70784, 70831); (70852, 70853);
    (70855, 70855); (70864, 70873); (71040, 71086); (71128, 71131);
    (71168, 71215); (71236, 71236); (71248, 71257); (71296, 71338);
    (71352, 71352); (71360, 71369); (71424, 71450); (71472, 71483);
    (71488, 71494); (71680, 71723); (71840, 71922); (71935, 71942);
    (71945, 71945); (71948, 71955); (71957, 71958); (71960, 71983);
    (71999, 71999); (72001, 72001); (72016, 72025); (72096, 72103);
    (72106, 72144); (72161, 72161); (72163, 72163); (72192, 72192);
    (72203, 72242); (72250, 72250); (72272, 72272); (72284, 72329);
    (72349, 72349); (72368, 72440); (72704, 72712); (72714, 72750);
    (72768, 72768); (72784, 72812); (72818, 72847); (72960, 72966);
    (72968, 72969); (72971, 73008); (73030, 73030); (73040, 73049);
    (73056, 73061); (73063, 73064); (73066, 73097); (73112, 73112);
    (73120, 73129); (73440, 73458); (73648, 73648); (73664, 73684);
    (73728, 74649); (74752, 74862); (74880, 75075); (77712, 77808);
    (77824, 78894); (82944, 83526); (92160, 92728); (92736, 92766);
    (92768, 92777); (92784, 92862); (92864, 92873); (92880, 92909);
    (92928, 92975); (92992, 92995); (93008, 93017); (93019, 93025);
    (93027, 93047); (93053, 93071); (93760, 93846); (93952, 94026);
    (94032, 94032); (94099, 94111); (94176, 94177); (94179, 94179);
    (94208, 100343); (100352, 101589); (101632, 101640); (110576, 110579);
    (110581, 110587); (110589, 110590); (110592, 110882); (110928, 110930);
    (110948, 110951); (110960, 111355); (113664, 113770); (113776, 113788);
    (113792, 113800); (113808, 113817); (119520, 119539); (119648, 119672);
    (119808, 119892); (119894, 119964); (119966, 119967); (119970, 119970);
    (119973, 119974); (119977, 119980); (119982, 119993); (119995, 119995);
    (119997, 120003); (120005, 120069); (120071, 120074); (120077, 120084);
    (120086, 120092); (120094, 120121); (120123, 120126); (120128, 120132);
    (120134, 120134); (120138, 120144); (120146, 120485); (120488, 120512);
    (120514, 120538); (120540, 120570); (120572, 120596); (120598, 120628);
    (120630, 120654); (120656, 120686); (120688, 120712); (120714, 120744);
    (120746, 120770); (120772, 120779); (120782, 120831); (122624, 122654);
    (123136, 123180); (123191, 123197); (123200, 123209); (123214, 123214);
    (123536, 123565); (123584, 123627); (123632, 123641); (124896, 124902);
    (124904, 124907); (124909, 124910); (124912, 124926); (124928, 125124);
    (125127, 125135); (125184, 125251); (125259, 125259); (125264, 125273);
    (126065, 126123); (126125, 126127); (126129, 126132); (126209, 126253);
    (126255, 126269); (126464, 126467); (126469, 126495); (126497, 126498);
    (126500, 126500); (126503, 126503); (126505, 126514); (126516, 126519);
    (126521, 126521); (126523, 126523); (126530, 126530); (126535, 126535);
    (126537, 126537); (126539, 126539); (126541, 126543); (126545, 126546);
    (126548, 126548); (126551, 126551); (126553, 126553); (126555, 126555);
    (126557, 126557); (126559, 126559); (126561, 126562); (126564, 126564);
    (126567, 126570); (126572, 126578); (126580, 126583); (126585, 126588);
    (126590, 126590); (126592, 126601); (126603, 126619); (126625, 126627);
    (126629, 126633); (126635, 126651); (127232, 127244); (130032, 130041);
    (131072, 173791); (173824, 177976); (177984, 178205); (178208, 183969);
    (183984, 191456); (194560, 195101); (196608, 201546)
  ].

Definition isword (c : char) : bool := in_ranges WORD_RANGES c.

(** [str.upper] on the ASCII letters.  A code point outside [a-z] is left
    as it is; none of them has an upper-case form that begins with one of
    the letters of WHERE followed by another letter, which is all
    [parse_query] asks of [upper]. *)
Definition upper_char (c : char) : char := if between 97 122 c then c - 32 else c.
Definition lower_char (c : char) : char := if between 65 90 c then c + 32 else c.

End CodePoints.

Definition upper (s : str) : str := List.map upper_char s.
Definition lower (s : str) : str := List.map lower_char s.

Fixpoint lstrip_by (p : char -> bool) (s : str) : str :=
  match s with
  | c :: s' => if p c then lstrip_by p s' else s
  | [] => []
  end.

Definition rstrip_by (p : char -> bool) (s : str) : str := rev (lstrip_by p (rev s)).
Definition strip_by (p : char -> bool) (s : str) : str := rstrip_by p (lstrip_by p s).

Definition lstrip : str -> str := lstrip_by isspace.
Definition rstrip : str -> str := rstrip_by isspace.
Definition strip : str -> str := strip_by isspace.

Definition str_eqb (a b : str) : bool := bool_decide (a = b).

Fixpoint startswith (s prefix : str) {struct prefix} : bool :=
  match prefix, s with
  | [], _ => true
  | p :: prefix', c :: s' => (p =? c)%N && startswith s' prefix'
  | _ :: _, [] => false
  end.

Definition endswith (s suffix : str) : bool := startswith (rev s) (rev suffix).

(** [s.startswith((a, b, c))] and [s.endswith((a, b, c))] with a tuple. *)
Definition startswith_any (s : str) (ps : list str) : bool := existsb (startswith s) ps.
Definition endswith_any (s : str) (ps : list str) : bool := existsb (endswith s) ps.

(** [s[n:]] and [s[1:-1]] *)
Definition slice_from (n : nat) (s : str) : str := skipn n s.
Definition slice_1_m1 (s : str) : str := removelast (skipn 1 s).

(** [s.split(sep)] for a non-empty separator: cut at every occurrence of
    [sep], scanning from the left.  [skip] counts the characters of a
    separator still to be dropped and [piece] is the segment being built. *)
Fixpoint split_from (sep s : str) (skip : nat) (piece : str) : list str :=
  match s with
  | [] => [piece]
  | c :: s' =>
      match skip with
      | S n => split_from sep s' n piece
      | O =>
          if startswith s sep
          then piece :: split_from sep s' (length sep - 1) []
          else split_from sep s' 0 (piece ++ [c])
      end
  end.

Definition split (s sep : str) : list str := split_from sep s 0 [].

(** ** Values

    The scalars a record field or a query literal can hold (section 3 of
    the specification): [int], [float] (IEEE 754 binary64, as a
    [spec_float]) and [str]. *)

Inductive value :=
| Int (z : Z)
| Float (f : spec_float)
| Str (s : str).

(** [isinstance(v, (int, float))] and [isinstance(v, str)] *)
Definition is_number (v : value) : bool :=
  match v with Int _ | Float _ => true | Str _ => false end.
Definition is_str (v : value) : bool :=
  match v with Str _ => true | _ => false end.

(** ** [float(s)]

    The argument is first brought to ASCII: a string that is not pure
    ASCII has its Unicode white space replaced by a blank and the decimal
    digits of every script by the ASCII digit of the same value; the first
    code point that is neither is replaced by a question mark, and the
    string ends there.  Then the C white space around it is dropped, and
    what is left has to be, as a whole,

      [sign] (digitpart ["."] | [digitpart] "." digitpart) [exponent]

    or [sign] followed by [inf], [infinity] or [nan] in any letter case,
    where a digitpart is a run of digits with single underscores allowed
    between two digits.  The decimal value is rounded to the nearest
    binary64, ties to even. *)

Definition prec : Z := 53.
Definition emax : Z := 1024.

Section FloatLiteral.
Local Open Scope N_scope.

Definition c_isspace (c : char) : bool := between 9 13 c || (c =? 32).

(** The decimal digits of the Unicode database (Unicode 14.0) come in
    runs of ten, from the digit zero to the digit nine of a script;
    [DECIMAL_ZEROS] lists the zeros.  [decimal c] is the value of the
    digit [c]. *)
Definition DECIMAL_ZEROS : list N :=
  [
    48; 1632; 1776; 1984; 2406; 2534; 2662; 2790; 2918; 3046; 3174; 3302;
    3430; 3558; 3664; 3792; 3872; 4160; 4240; 6112; 6160; 6470; 6608; 6784;
    6800; 6992; 7088; 7232; 7248; 42528; 43216; 43264; 43472; 43504; 43600;
    44016; 65296; 66720; 68912; 69734; 69872; 69942; 70096; 70384; 70736;
    70864; 71248; 71360; 71472; 71904; 72016; 72784; 73040; 73120; 92768;
    92864; 93008; 120782; 120792; 120802; 120812; 120822; 123200; 123632;
    125264; 130032
  ].

Definition decimal (c : char) : option N :=
  match List.find (fun z => between z (z + 9) c) DECIMAL_ZEROS with
  | Some z => Some (c - z)
  | None => None
  end.

Definition is_ascii (c : char) : bool := c <? 128.

Fixpoint transform (s : str) : str :=
  match s with
  | [] => []
  | c :: s' =>
      if c <? 127 then c :: transform s'
      else if isspace c then 32 :: transform s'
      else match decimal c with
           | Some d => (48 + d) :: transform s'
           | None => [63]
           end
  end.

Definition to_ascii (s : str) : str :=
  if forallb is_ascii s then s else transform s.

(** The longest digitpart at the head of [s], without its underscores,
    and what follows it; no digit at the head gives [([], s)]. *)
Fixpoint digitpart (s : str) : list char * str :=
  match s with
  | c :: s' =>
      if isdigit c then
        match digitpart s' with
        | (d :: ds, r) => (c :: d :: ds, r)
        | ([], _) =>
            match s' with
            | u :: s'' =>
                if u =? 95 then
                  match digitpart s'' with
                  | (d :: ds, r) => (c :: d :: ds, r)
                  | ([], _) => ([c], s')
                  end
                else ([c], s')
            | [] => ([c], s')
            end
        end
      else ([], s)
  | [] => ([], s)
  end.

Definition take_sign (s : str) : bool * str :=
  match s with
  | c :: s' => if c =? 45 then (true, s') else if c =? 43 then (false, s') else (false, s)
  | [] => (false, s)
  end.

Definition digits_value (ds : list char) : Z :=
  fold_left (fun acc d => (10 * acc + Z.of_N (d - 48))%Z) ds 0%Z.

(** integer digits, fraction digits, rest *)
Definition mantissa (s : str) : option (list char * list char * str) :=
  let (ip, r1) := digitpart s in
  match r1 with
  | c :: r2 =>
      if c =? 46 then
        let (fp, r3) := digitpart r2 in
        match ip, fp with
        | [], [] => None
        | _, _ => Some (ip, fp, r3)
        end
      else match ip with [] => None | _ => Some (ip, [], r1) end
  | [] => match ip with [] => None | _ => Some (ip, [], r1) end
  end.

(** The exponent suffix, which must reach the end of the literal. *)
Definition exponent (s : str) : option Z :=
  match s with
  | [] => Some 0%Z
  | c :: s' =>
      if (c =? 101) || (c =? 69) then
        let (neg, s'') := take_sign s' in
        match digitpart s'' with
        | (d :: ds, []) =>
            let e := digits_value (d :: ds) in Some (if neg then (- e)%Z else e)
        | _ => None
        end
      else None
  end.

End FloatLiteral.

(** [m * 10^e], correctly rounded. *)
Definition decimal_to_float (neg : bool) (m e : Z) : spec_float :=
  match m with
  | Zpos p =>
      match e with
      | Zneg k => SFdiv prec emax (S754_finite neg p 0) (S754_finite false (Pos.pow 10 k) 0)
      | Z0 => binary_round prec emax neg p 0
      | Zpos k => binary_round prec emax neg (p * Pos.pow 10 k) 0
      end
  | _ => S754_zero neg
  end.

Definition float_of_str (s : str) : option spec_float :=
  let (neg, body) := take_sign (strip_by c_isspace (to_ascii s)) in
  let name := lower body in
  if str_eqb name (lit "inf") || str_eqb name (lit "infinity") then Some (S754_infinity neg)
  else if str_eqb name (lit "nan") then Some S754_nan
  else
    match mantissa body with
    | Some (ip, fp, r) =>
        match exponent r with
        | Some e =>
            Some (decimal_to_float neg (digits_value (ip ++ fp)) (e - Z.of_nat (length fp)))
        | None => None
        end
    | None => None
    end.

(** ** Rich comparison

    How two scalars stand to each other: numbers are compared by value
    ([int] against [float] exactly, a NaN being unordered with
    everything), strings by code points, and a string and a number are of
    mismatched kinds. *)

Inductive order := Less | Equal | Greater | Unordered | Mismatch.

Definition order_of (c : comparison) : order :=
  match c with Lt => Less | Eq => Equal | Gt => Greater end.

Definition compare_int_float (z : Z) (f : spec_float) : order :=
  match f with
  | S754_nan => Unordered
  | S754_infinity neg => if neg then Greater else Less
  | S754_zero _ => order_of (z ?= 0)%Z
  | S754_finite neg m e =>
      let sm := if neg then Zneg m else Zpos m in
      match e with
      | Zneg k => order_of (z * Z.pow 2 (Zpos k) ?= sm)%Z
      | _ => order_of (z ?= sm * Z.pow 2 e)%Z
      end
  end.

Definition flip (o : order) : order :=
  match o with Less => Greater | Greater => Less | _ => o end.

Fixpoint compare_str (a b : str) : comparison :=
  match a, b with
  | [], [] => Eq
  | [], _ :: _ => Lt
  | _ :: _, [] => Gt
  | x :: a', y :: b' =>
      match (x ?= y)%N with
      | Eq => compare_str a' b'
      | c => c
      end
  end.

Definition compare (x y : value) : order :=
  match x, y with
  | Int a, Int b => order_of (a ?= b)%Z
  | Int a, Float g => compare_int_float a g
  | Float f, Int b => flip (compare_int_float b f)
  | Float f, Float g =>
      match SFcompare f g with Some c => order_of c | None => Unordered end
  | Str a, Str b => order_of (compare_str a b)
  | Str _, _ | _, Str _ => Mismatch
  end.

(** [x == y] and [x != y] never raise; an ordering between a string and
    a number raises [TypeError]. *)
Definition eq (x y : value) : result bool :=
  Ok match compare x y with Equal => true | _ => false end.

Definition ne (x y : value) : result bool :=
  Ok match compare x y with Equal => false | _ => true end.

Definition lt (x y : value) : result bool :=
  match compare x y with
  | Mismatch => Raise TypeError
  | Less => Ok true
  | _ => Ok false
  end.

Definition gt (x y : value) : result bool :=
  match compare x y with
  | Mismatch => Raise TypeError
  | Greater => Ok true
  | _ => Ok false
  end.

Definition le (x y : value) : result bool :=
  match compare x y with
  | Mismatch => Raise TypeError
  | Less | Equal => Ok true
  | _ => Ok false
  end.

Definition ge (x y : value) : result bool :=
  match compare x y with
  | Mismatch => Raise TypeError
  | Greater | Equal => Ok true
  | _ => Ok false
  end.

(** [s.index(sub)] and [s.rindex(sub)]: the offset of the first and of the
    last occurrence of [sub] in [s]; [ValueError] when there is none. *)
Fixpoint find_from (sub s : str) (i : nat) : option nat :=
  match s with
  | [] => if startswith s sub then Some i else None
  | _ :: s' => if startswith s sub then Some i else find_from sub s' (S i)
  end.

Fixpoint rfind_from (sub s : str) (i : nat) : option nat :=
  match s with
  | [] => if startswith s sub then Some i else None
  | _ :: s' =>
      match rfind_from sub s' (S i) with
      | Some j => Some j
      | None => if startswith s sub then Some i else None
      end
  end.

Definition index (s sub : str) : result nat :=
  match find_from sub s 0 with
  | Some i => Ok i
  | None => Raise (ValueError (lit "substring not found"))
  end.

Definition rindex (s sub : str) : result nat :=
  match rfind_from sub s 0 with
  | Some i => Ok i
  | None => Raise (ValueError (lit "substring not found"))
  end.

(** [s[i:j]] for offsets within [s] *)
Definition slice (i j : nat) (s : str) : str := firstn (j - i) (skipn i s).
End Py.

(* ===================================================================== *)
(** * Regular expressions *)
(* ===================================================================== *)

Module Re.
Import Py.

(** The patterns of the sources repeat single characters only, so the
    quantifiers [?], [*] and [+] are given for a character class.  They
    are greedy, alternatives are tried from the left, and a failure
    further on makes the matcher come back and try the next shorter
    repetition or the next alternative, as the backtracking engine of
    [re] does. *)
Inductive regex :=
| Chr (p : char -> bool)     (* one character of a class *)
| Opt (p : char -> bool)     (* [..]? *)
| Star (p : char -> bool)    (* [..]* *)
| Plus (p : char -> bool)    (* [..]+ *)
| Seq (r1 r2 : regex)
| Alt (r1 r2 : regex)
| Group (r : regex).         (* ( .. ), numbered in the order they close *)

Section Matcher.
Context {R : Type}.

(** A continuation receives what is left of the subject and the groups
    captured so far. *)
Definition cont := str -> list str -> option R.

Definition or_else (a b : option R) : option R :=
  match a with Some x => Some x | None => b end.

Fixpoint star (p : char -> bool) (s : str) (g : list str) (k : cont) : option R :=
  match s with
  | c :: s' => if p c then or_else (star p s' g k) (k s g) else k s g
  | [] => k s g
  end.

(** The characters of [s] that were consumed when [rest] is left. *)
Definition consumed (s rest : str) : str := firstn (length s - length rest) s.

Fixpoint run (r : regex) (s : str) (g : list str) (k : cont) : option R :=
  match r with
  | Chr p =>
      match s with
      | c :: s' => if p c then k s' g else None
      | [] => None
      end
  | Opt p =>
      match s with
      | c :: s' => if p c then or_else (k s' g) (k s g) else k s g
      | [] => k s g
      end
  | Star p => star p s g k
  | Plus p =>
      match s with
      | c :: s' => if p c then star p s' g k else None
      | [] => None
      end
  | Seq r1 r2 => run r1 s g (fun s' g' => run r2 s' g' k)
  | Alt r1 r2 => or_else (run r1 s g k) (run r2 s g k)
  | Group r1 => run r1 s g (fun s' g' => k s' (g' ++ [consumed s s']))
  end.

End Matcher.

(** [re.match(r, s)]: anchored at the start, free at the end.
    [groups] is [match.groups()], [match_length] the length of the whole
    match. *)
Definition groups (r : regex) (s : str) : option (list str) :=
  run r s [] (fun _ g => Some g).

Definition match_length (r : regex) (s : str) : option nat :=
  run r s [] (fun rest _ => Some (length s - length rest)).

(** [re.split(r, s)] for a pattern without groups that matches no empty
    string: the subject is cut at the leftmost match, then at the
    leftmost match after it, and so on. *)
Fixpoint split_from (r : regex) (s : str) (skip : nat) (piece : str) : list str :=
  match s with
  | [] => [piece]
  | c :: s' =>
      match skip with
      | S n => split_from r s' n piece
      | O =>
          match match_length r s with
          | Some (S n) => piece :: split_from r s' n []
          | _ => split_from r s' 0 (piece ++ [c])
          end
      end
  end.

Definition split (r : regex) (s : str) : list str := split_from r s 0 [].

(** Pattern syntax *)
Definition one_of (cs : list char) (c : char) : bool := existsb (N.eqb c) cs.
Definition none_of (cs : list char) (c : char) : bool := negb (one_of cs c).

(** a literal character, and its [re.IGNORECASE] form for an ASCII letter *)
Definition chr (c : char) : regex := Chr (N.eqb c).
Definition chr_i (c : char) : regex :=
  Chr (fun x => N.eqb (lower_char x) (lower_char c)).

Fixpoint seq (rs : list regex) : regex :=
  match rs with
  | [] => Star (fun _ => false)
  | [r] => r
  | r :: rs' => Seq r (seq rs')
  end.

Definition literal (s : str) : regex := seq (List.map chr s).
Definition literal_i (s : str) : regex := seq (List.map chr_i s).

Fixpoint alt (rs : list regex) : regex :=
  match rs with
  | [] => Chr (fun _ => false)
  | [r] => r
  | r :: rs' => Alt r (alt rs')
  end.

End Re.

(* ===================================================================== *)
(** * inmemorydb/query_parser.py *)
(* ===================================================================== *)

Module QueryParser.
Import Py.

Definition APOSTROPHE : char := 39%N.
Definition QUOTATION_MARK : char := 34%N.

(** [CONDITION_PATTERN] has three groups: [(\w+)], then after [\s*] the
    operator [(=|!=|<=|>=|<|>)], then after [\s*] the value: an optional
    opening quote (apostrophe, quotation mark or U+2018), at least one
    character that is neither apostrophe nor quotation mark, and an
    optional closing quote (apostrophe, quotation mark or U+2019). *)
Definition FIELD_GROUP : Re.regex := Re.Group (Re.Plus isword).

Definition OPERATOR_GROUP : Re.regex :=
  Re.Group (Re.alt (List.map Re.literal
    [lit "="; lit "!="; lit "<="; lit ">="; lit "<"; lit ">"])).

Definition VALUE_GROUP : Re.regex :=
  Re.Group (Re.seq
    [ Re.Opt (Re.one_of [APOSTROPHE; QUOTATION_MARK; LEFT_SINGLE_QUOTE]);
      Re.Plus (Re.none_of [QUOTATION_MARK; APOSTROPHE]);
      Re.Opt (Re.one_of [APOSTROPHE; QUOTATION_MARK; RIGHT_SINGLE_QUOTE]) ]).

Definition CONDITION_PATTERN : Re.regex :=
  Re.seq [ FIELD_GROUP; Re.Star isspace; OPERATOR_GROUP; Re.Star isspace; VALUE_GROUP ].

(** The dictionary of the six comparison lambdas, in source order. *)
Definition SUPPORTED_OPERATORS : list (str * (value -> value -> result bool)) :=
  [ (lit "=", Py.eq);
    (lit "!=", Py.ne);
    (lit "<", Py.lt);
    (lit ">", Py.gt);
    (lit "<=", Py.le);
    (lit ">=", Py.ge) ].

(** [d.get(key)] on such a dictionary *)
Fixpoint lookup {A} (d : list (str * A)) (key : str) : option A :=
  match d with
  | [] => None
  | (k, v) :: d' => if str_eqb k key then Some v else lookup d' key
  end.

Definition condition : Type := str * str * value.

Definition parse_value (v : str) : value :=
  if startswith_any v [[APOSTROPHE]; [QUOTATION_MARK]; [LEFT_SINGLE_QUOTE]]
     && endswith_any v [[APOSTROPHE]; [QUOTATION_MARK]; [RIGHT_SINGLE_QUOTE]]
  then Str (slice_1_m1 v)
  else
    match float_of_str v with
    | Some f => Float f
    | None => Str v
    end.

Definition parse_condition (cond : str) : result condition :=
  match Re.groups CONDITION_PATTERN (strip cond) with
  | Some [field; operator; v] =>
      match lookup SUPPORTED_OPERATORS operator with
      | None => Raise (ValueError (lit "Unsupported operator: " ++ operator))
      | Some _ => Ok (field, operator, parse_value v)
      end
  | _ => Raise (ValueError (lit "Invalid condition format: " ++ cond))
  end.

(** [\s+AND\s+] under [re.IGNORECASE] *)
Definition AND_PATTERN : Re.regex :=
  Re.seq [ Re.Plus isspace; Re.literal_i (lit "AND"); Re.Plus isspace ].

Definition split_conditions (conditions_str : str) : list str :=
  List.map strip (Re.split AND_PATTERN conditions_str).

Definition parse_query (query : str) : result (list condition) :=
  if negb (startswith (upper (strip query)) (lit "WHERE"))
  then Raise (ValueError (lit "Query must start with 'WHERE'"))
  else
    let conditions_str := strip (slice_from 5 query) in
    match conditions_str with
    | [] => Raise (ValueError (lit "No conditions after WHERE"))
    | _ => comprehension parse_condition (split_conditions conditions_str)
    end.

(** The coercion step of [evaluate_condition]: a textual record value
    met by a numeric literal goes through [float()]; [None] stands for the
    [return False] of the [except ValueError] branch. *)
Definition coerce (record_value v : value) : option value :=
  match record_value with
  | Str s =>
      if is_number v then
        match float_of_str s with
        | Some f => Some (Float f)
        | None => None
        end
      else Some record_value
  | _ => Some record_value
  end.

Definition evaluate_condition
    (record : gmap str value) (field operator : str) (v : value) : result bool :=
  match record !! field with
  | None => Ok false
  | Some record_value =>
      match coerce record_value v with
      | None => Ok false
      | Some record_value =>
          match lookup SUPPORTED_OPERATORS operator with
          | Some op => op record_value v
          | None => Raise (KeyError operator)
          end
      end
  end.

Definition evaluate_record
    (record : gmap str value) (conditions : list condition) : result bool :=
  all (fun '(field, operator, v) => evaluate_condition record field operator v)
      conditions.

End QueryParser.

(* ===================================================================== *)
(** * inmemorydb/database.py *)
(* ===================================================================== *)

Module Database.
Import Py.

(** What [self.logger] has been handed. *)
Inductive log_record :=
| INFO (msg : str)
| ERROR (msg : str).

(** The state behind a [Database] object: the record list of [self.data]
    and the records emitted on its logger. *)
Record t := mk {
  data : list (gmap str value);
  logger : list log_record
}.

(** The body of the [try] block of [query]. *)
Definition select (data : list (gmap str value)) (query_str : str)
  : result (list (gmap str value)) :=
  conditions <- QueryParser.parse_query query_str ;;
  comprehension_if (fun record => QueryParser.evaluate_record record conditions) data.

(** [query] returns or raises, and leaves the object in a new state.
    Only [ValueError] is caught, logged and raised again with the prefix;
    any other exception leaves the method as it is. *)
Definition query (self : t) (query_str : str) : result (list (gmap str value)) * t :=
  match select (data self) query_str with
  | Ok records => (Ok records, self)
  | Raise (ValueError e) =>
      (Raise (ValueError (lit "Invalid query: " ++ e)),
       mk (data self) (logger self ++ [ERROR (lit "Query failed: " ++ e)]))
  | Raise e => (Raise e, self)
  end.

Definition count (self : t) : nat := length (data self).

(** [_clean_js_content]: a content that starts with [var ] is cut down
    to what lies between its first opening bracket and its last
    semicolon, [index] and [rindex] raising when there is none; the
    result is stripped. *)
Definition _clean_js_content (content : str) : result str :=
  content <-
    (if startswith content (lit "var ")
     then i <- index content (lit "[") ;;
          j <- rindex content (lit ";") ;;
          Ok (slice i j content)
     else Ok content) ;;
  Ok (strip content).

End Database.

(* ===================================================================== *)
(** * old_main.py *)
(* ===================================================================== *)

Module OldMain.
Import Py.

(** The same pattern as [QueryParser.CONDITION_PATTERN], written out again
    in [parse_condition]. *)
Definition pattern : Re.regex := QueryParser.CONDITION_PATTERN.

Definition parse_condition (cond : str) : result (str * str * value) :=
  match Re.groups pattern (strip cond) with
  | Some [field; operator; v] =>
      let v' :=
        if startswith_any v [[QueryParser.APOSTROPHE]; [QueryParser.QUOTATION_MARK];
                             [LEFT_SINGLE_QUOTE]]
           && endswith_any v [[QueryParser.APOSTROPHE]; [QueryParser.QUOTATION_MARK];
                              [RIGHT_SINGLE_QUOTE]]
        then Str (slice_1_m1 v)
        else
          match float_of_str v with
          | Some f => Float f
          | None => Str v
          end in
      Ok (field, operator, v')
  | _ => Raise (ValueError (lit "Invalid condition format: " ++ cond))
  end.

Definition operators : list (str * (value -> value -> result bool)) :=
  [ (lit "=", Py.eq);
    (lit "<", Py.lt);
    (lit ">", Py.gt);
    (lit "<=", Py.le);
    (lit ">=", Py.ge);
    (lit "!=", Py.ne) ].

Definition evaluate_condition
    (record : gmap str value) (field operator : str) (v : value) : result bool :=
  match record !! field with
  | None => Ok false
  | Some record_value =>
      match QueryParser.coerce record_value v with
      | None => Ok false
      | Some record_value =>
          match QueryParser.lookup operators operator with
          | Some op => op record_value v
          | None => Raise (KeyError operator)
          end
      end
  end.

(** The inner loop of [query_vessels]: every condition string is parsed
    again for every vessel, and the loop breaks at the first condition
    that does not hold. *)
Fixpoint matches_all (vessel : gmap str value) (conditions : list str) : result bool :=
  match conditions with
  | [] => Ok true
  | cond :: conditions' =>
      c <- parse_condition cond ;;
      let '(field, operator, v) := c in
      b <- evaluate_condition vessel field operator v ;;
      if b then matches_all vessel conditions' else Ok false
  end.

Definition query_vessels (vessels : list (gmap str value)) (query : str)
  : result (list (gmap str value)) :=
  if negb (startswith query (lit "WHERE"))
  then Raise (ValueError (lit "Query must start with 'WHERE'"))
  else
    let conditions := split (strip (slice_from 5 query)) (lit "AND") in
    comprehension_if (fun vessel => matches_all vessel conditions) vessels.

(** [clean_js_content]: fourteen characters go when the content starts
    with [var vessels =], then one semicolon when the content ends with
    it, then the white space around. *)
Definition clean_js_content (content : str) : str :=
  let content :=
    if startswith content (lit "var vessels =") then slice_from 14 content else content in
  let content :=
    if endswith content (lit ";") then removelast content else content in
  strip content.

End OldMain.

(* ===================================================================== *)
(** * Sample data and the readings of the specification *)
(* ===================================================================== *)

Import Py.

(** The fixture [sample_vessels] of [tests/conftest.py]. *)
Definition vessel_1 : gmap str value :=
  list_to_map
    [ (lit "Z01_CURRENT_NAME", Str (lit "Vessel 1"));
      (lit "Z13_STATUS_CODE", Int 4);
      (lit "BUILDER_GROUP", Str (lit "Guoyu Logistics")) ].

Definition vessel_2 : gmap str value :=
  list_to_map
    [ (lit "Z01_CURRENT_NAME", Str (lit "Vessel 2"));
      (lit "Z13_STATUS_CODE", Int 3);
      (lit "BUILDER_GROUP", Str (lit "Other Builder")) ].

Definition sample_vessels : list (gmap str value) := [vessel_1; vessel_2].

(** The six operators of the query language. *)
Definition operator_set : list str :=
  [lit "="; lit "!="; lit "<"; lit ">"; lit "<="; lit ">="].

Definition ordering_set : list str := [lit "<"; lit ">"; lit "<="; lit ">="].

(** A query starts with the keyword when the first five characters that
    follow its leading white space are the letters of WHERE in either
    case. *)
Definition starts_with_where (query : str) : bool :=
  str_eqb (upper (firstn 5 (lstrip query))) (lit "WHERE").

(** The outcome of one condition of a list on a record, whether it is an
    outcome at all, and whether it is [True]. *)
Definition condition_value (record : gmap str value) (c : QueryParser.condition)
  : result bool :=
  let '(field, operator, v) := c in
  QueryParser.evaluate_condition record field operator v.

Definition returns (record : gmap str value) (c : QueryParser.condition) : Prop :=
  exists b, condition_value record c = Ok b.

Definition holds (record : gmap str value) (c : QueryParser.condition) : bool :=
  match condition_value record c with Ok true => true | _ => false end.

(** The quote characters [parse_value] looks for at the two ends. *)
Definition opening_quotes : list char :=
  [QueryParser.APOSTROPHE; QueryParser.QUOTATION_MARK; LEFT_SINGLE_QUOTE].
Definition closing_quotes : list char :=
  [QueryParser.APOSTROPHE; QueryParser.QUOTATION_MARK; RIGHT_SINGLE_QUOTE].

(** A literal is quoted when its first character is an opening quote and
    its last character a closing quote; otherwise it is bare. *)
Definition quoted (v : str) : bool :=
  match v with
  | q :: _ => Re.one_of opening_quotes q && Re.one_of closing_quotes (List.last v 0%N)
  | [] => false
  end.

(** The apostrophe and the quotation mark, which the value group of the
    pattern does not let into the value except at its two ends. *)
Definition plain_quote (c : char) : bool :=
  Re.one_of [QueryParser.QUOTATION_MARK; QueryParser.APOSTROPHE] c.




(** [s] does not begin with a character of the class [p]. *)
Definition head_fails (p : char -> bool) (s : str) : Prop :=
  match s with c :: _ => p c = false | [] => True end.

(** The literals of [float()], as a grammar.  A digitpart is a run of
    digits in which single underscores may separate two digits. *)
Inductive digitpart_of : str -> Prop :=
| digitpart_one d : isdigit d = true -> digitpart_of [d]
| digitpart_next d s : isdigit d = true -> digitpart_of s -> digitpart_of (d :: s)
| digitpart_underscore d s :
    isdigit d = true -> digitpart_of s -> digitpart_of (d :: 95%N :: s).

(** digitpart, digitpart ".", "." digitpart or digitpart "." digitpart *)
Inductive number_of : str -> Prop :=
| number_int a : digitpart_of a -> number_of a
| number_int_point a : digitpart_of a -> number_of (a ++ [46%N])
| number_point_frac b : digitpart_of b -> number_of (46%N :: b)
| number_int_frac a b : digitpart_of a -> digitpart_of b -> number_of (a ++ 46%N :: b).

Inductive sign_of : str -> Prop :=
| sign_none : sign_of []
| sign_plus : sign_of [43%N]
| sign_minus : sign_of [45%N].

(** nothing, or [e] or [E], a sign and a digitpart *)
Inductive exponent_of : str -> Prop :=
| exponent_none : exponent_of []
| exponent_some e sg d :
    e = 101%N \/ e = 69%N -> sign_of sg -> digitpart_of d -> exponent_of (e :: sg ++ d).

(** [inf], [infinity] and [nan] in any letter case *)
Definition special_name (body : str) : Prop :=
  In (lower body) [lit "inf"; lit "infinity"; lit "nan"].

(** A float literal is, between blanks, a sign and then a special name
    or a number with its exponent. *)
Definition float_literal (v : str) : Prop :=
  exists sg body,
    strip_by c_isspace v = sg ++ body /\ sign_of sg
    /\ (special_name body \/ exists n e, body = n ++ e /\ number_of n /\ exponent_of e).

(** [s] does not begin with a sign; [s] neither continues a run of digits
    nor begins with an underscore. *)
Definition not_sign (s : str) : Prop :=
  head_fails (fun c => N.eqb c 45 || N.eqb c 43) s.
Definition ends_digits (s : str) : Prop :=
  head_fails isdigit s /\ head_fails (fun c => N.eqb c 95) s.

(** The numeric grammar in the words of the specification: a decimal
    number, optionally signed, with an optional fractional part. *)
Definition decimal_literal (v : str) : bool :=
  let body := snd (take_sign v) in
  match body with
  | d :: _ =>
      isdigit d
      && match lstrip_by isdigit body with
         | [] => true
         | c :: fraction => N.eqb c 46 && forallb isdigit fraction
         end
  | [] => false
  end.

(** A float constant of the tests: [1.0]. *)
Definition one : spec_float := S754_finite false 4503599627370496 (-52).

(** What a pattern matches: the text it consumes and the groups it closes. *)
Inductive matches : Re.regex -> str -> list str -> Prop :=
| matches_chr p c : p c = true -> matches (Re.Chr p) [c] []
| matches_opt_one p c : p c = true -> matches (Re.Opt p) [c] []
| matches_opt_none p : matches (Re.Opt p) [] []
| matches_star p cs : forallb p cs = true -> matches (Re.Star p) cs []
| matches_plus p c cs : forallb p (c :: cs) = true -> matches (Re.Plus p) (c :: cs) []
| matches_seq r1 r2 a b g1 g2 :
    matches r1 a g1 -> matches r2 b g2 -> matches (Re.Seq r1 r2) (a ++ b) (g1 ++ g2)
| matches_alt_left r1 r2 a g1 : matches r1 a g1 -> matches (Re.Alt r1 r2) a g1
| matches_alt_right r1 r2 a g1 : matches r2 a g1 -> matches (Re.Alt r1 r2) a g1
| matches_group r a g1 : matches r a g1 -> matches (Re.Group r) a (g1 ++ [a]).

(** The text of the third group: an opening quote or nothing, a non-empty
    run without apostrophe or quotation mark, a closing quote or nothing. *)
Definition value_text (v : str) : Prop :=
  exists o t c,
    v = o ++ t ++ c
    /\ (o = [] \/ exists q, o = [q] /\ Re.one_of opening_quotes q = true)
    /\ t <> [] /\ forallb (Re.none_of [QueryParser.QUOTATION_MARK; QueryParser.APOSTROPHE]) t = true
    /\ (c = [] \/ exists q', c = [q'] /\ Re.one_of closing_quotes q' = true).

(** A result that is [True], and a record that matches a condition list. *)
Definition is_true (r : result bool) : bool :=
  match r with Ok true => true | _ => false end.

Definition record_matches (conditions : list QueryParser.condition) (record : gmap str value) : bool :=
  is_true (QueryParser.evaluate_record record conditions).

(** What [parse_condition] lets through: a non-empty field of word
    characters and one of the six operators. *)
Definition well_formed (c : QueryParser.condition) : Prop :=
  let '(field, operator, _) := c in
  field <> [] /\ forallb isword field = true /\ In operator operator_set.

(** The character [c] does not occur in [s]. *)
Definition absent (c : char) (s : str) : bool := forallb (fun x => negb (N.eqb c x)) s.

Definition LEFT_BRACKET : char := 91%N.
Definition SEMICOLON : char := 59%N.

(** Whether the field is there and its value can be brought to the kind
    of the literal. *)
Definition comparable (record : gmap str value) (field : str) (v : value) : bool :=
  match record !! field with
  | Some x => match QueryParser.coerce x v with Some _ => true | None => false end
  | None => false
  end.

(** [sub in s]. *)
Definition occurs (sub s : str) : bool :=
  match find_from sub s 0 with Some _ => true | None => false end.

(** What the separator of conditions matches: the letters a, n, d in
    either case, with white space on both sides. *)
Definition separator (sep : str) : Prop :=
  exists ws1 w ws2,
    sep = ws1 ++ w ++ ws2 /\ ws1 <> [] /\ forallb isspace ws1 = true
    /\ lower w = lit "and" /\ ws2 <> [] /\ forallb isspace ws2 = true.

Definition is_a (c : char) : bool := N.eqb (lower_char c) 97.

(** No white space at the end of [s], and none before a letter a. *)
Fixpoint inner_ok (s : str) : bool :=
  match s with
  | [] => true
  | c :: s' =>
      match s' with
      | [] => negb (isspace c)
      | d :: _ => negb (isspace c && is_a d) && inner_ok s'
      end
  end.

(** A condition text that the separator cannot touch: not empty, no
    white space at either end, and none before a letter a. *)
Definition plain_condition (p : str) : bool :=
  match p with
  | c :: _ => negb (isspace c) && inner_ok p
  | [] => false
  end.

(** The conditions after the first, each behind its separator. *)
Fixpoint join (more : list (str * str)) : str :=
  match more with
  | [] => []
  | (sep, p) :: more' => sep ++ p ++ join more'
  end.

(** ** The reading of a condition

    What [CONDITION_PATTERN] takes from a condition text, said without
    the pattern.  [take_by p s] is the longest prefix of [s] in the class
    [p]; [lstrip_by p s] is what follows it. *)
Fixpoint take_by (p : char -> bool) (s : str) : str :=
  match s with
  | c :: s' => if p c then c :: take_by p s' else []
  | [] => []
  end.

(** Neither apostrophe nor quotation mark. *)
Definition unquoted (c : char) : bool := negb (plain_quote c).

(** The text that starts with [x] and runs, through [s], up to and
    including the first apostrophe or quotation mark behind [x], or to
    the end of [s] when there is none. *)
Definition run_to_quote (x : char) (s : str) : str :=
  x :: take_by unquoted s ++ firstn 1 (lstrip_by unquoted s).

(** A value can start with [x] in front of [s], unless [x] is an
    apostrophe or a quotation mark that has another one, or nothing,
    right behind it. *)
Definition starts_value (x : char) (s : str) : bool :=
  negb (plain_quote x && match s with [] => true | y :: _ => plain_quote y end).

(** The value that starts with the first character of [s]. *)
Definition value_at (s : str) : option str :=
  match s with
  | x :: s' => if starts_value x s' then Some (run_to_quote x s') else None
  | [] => None
  end.

(** The value behind an operator, [r] being all that follows the
    operator: the value that starts with the first character of [r] that
    is no white space; when no value can start there, the last white
    space character before it together with the character behind it, if
    any; and no value at all when there is no white space either. *)
Definition value_after (r : str) : option str :=
  match value_at (lstrip_by isspace r) with
  | Some raw => Some raw
  | None =>
      match take_by isspace r with
      | [] => None
      | ws => Some (List.last ws 0%N :: firstn 1 (lstrip_by isspace r))
      end
  end.

(** The operators in the order of the alternatives of the pattern. *)
Definition OPERATORS_IN_ORDER : list str :=
  [lit "="; lit "!="; lit "<="; lit ">="; lit "<"; lit ">"].

(** The operator at the head of [s] and the value behind it: the first
    of [ops] that [s] starts with and that has a value behind it. *)
Fixpoint operator_at (ops : list str) (s : str) : option (str * str) :=
  match ops with
  | [] => None
  | op :: ops' =>
      if startswith s op then
        match value_after (skipn (length op) s) with
        | Some raw => Some (op, raw)
        | None => operator_at ops' s
        end
      else operator_at ops' s
  end.

(** Field, operator and value text of a condition: the field is the
    longest run of word characters at the head of [s], which must not be
    empty; white space may follow; then come the operator and the value. *)
Definition read_condition (s : str) : option (str * str * str) :=
  match take_by isword s with
  | [] => None
  | field =>
      match operator_at OPERATORS_IN_ORDER (lstrip_by isspace (lstrip_by isword s)) with
      | Some (op, raw) => Some (field, op, raw)
      | None => None
      end
  end.

(** How [float()] reads a character: a white space character outside
    ASCII as a blank, a decimal digit of any script as the ASCII digit of
    its value, every other character as it is.  [float_text v] is [v]
    read in this way. *)
Definition read_char (c : char) : char :=
  if is_ascii c then c
  else if isspace c then 32%N
  else match decimal c with
       | Some d => (48 + d)%N
       | None => c
       end.

Definition float_text (v : str) : str := List.map read_char v.

(** The characters a float literal can be made of are ASCII characters
    other than the question mark. *)
Definition literal_char (c : char) : bool := (c <? 127)%N && negb (c =? 63)%N.

(** A query is malformed when the parser rejects it. *)
Definition malformed (query : str) : Prop :=
  exists e, QueryParser.parse_query query = Raise e.

(** Proof tools: literals evaluated to their code points, and the
    character classes opened up into arithmetic. *)
Ltac eval_lit :=
  repeat match goal with
  | |- context [lit ?s] =>
      let v := eval vm_compute in (lit s) in change (lit s) with v
  | H : context [lit ?s] |- _ =>
      let v := eval vm_compute in (lit s) in change (lit s) with v in H
  end.

Ltac class_facts :=
  unfold plain_quote, isspace, isdigit, between, Re.one_of, Re.none_of,
         opening_quotes, closing_quotes,
         QueryParser.APOSTROPHE, QueryParser.QUOTATION_MARK,
         LEFT_SINGLE_QUOTE, RIGHT_SINGLE_QUOTE in *;
  cbn [existsb] in *;
  repeat match goal with
  | H : _ || _ = true |- _ => apply orb_prop in H; destruct H
  | H : _ && _ = true |- _ => apply andb_prop in H; destruct H
  | H : negb _ = true |- _ => apply negb_true_iff in H
  | H : _ || _ = false |- _ => apply orb_false_elim in H; destruct H
  | H : (_ <=? _)%N = true |- _ => apply N.leb_le in H
  | H : (_ =? _)%N = true |- _ => apply N.eqb_eq in H
  | H : (_ =? _)%N = false |- _ => apply N.eqb_neq in H
  | H : false = true |- _ => discriminate H
  end.

Ltac not_space :=
  unfold isspace, between;
  rewrite !orb_false_iff, !andb_false_iff, !N.leb_gt, !N.eqb_neq.

Ltac eqb_consts :=
  repeat match goal with
  | |- context [N.eqb (Npos ?a) (Npos ?b)] =>
      let v := eval vm_compute in (N.eqb (Npos a) (Npos b)) in
      change (N.eqb (Npos a) (Npos b)) with v
  end.

(* ===================================================================== *)
(** * Auxiliary facts about the host functions *)
(* ===================================================================== *)

Section StripFacts.
Variable p : char -> bool.

Lemma lstrip_by_suffix (s : str) : exists l, s = l ++ lstrip_by p s.
Proof.
  induction s as [|c s IH]; simpl.
  - exists []. reflexivity.
  - destruct (p c).
    + destruct IH as [l Hl]. exists (c :: l). simpl. congruence.
    + exists []. reflexivity.
Qed.

Lemma rstrip_by_prefix (s : str) : exists r, s = rstrip_by p s ++ r.
Proof.
  unfold rstrip_by.
  destruct (lstrip_by_suffix (rev s)) as [l Hl].
  exists (rev l).
  rewrite <- rev_app_distr, <- Hl, rev_involutive. reflexivity.
Qed.

Lemma strip_by_prefix_of_lstrip (s : str) : exists r, lstrip_by p s = strip_by p s ++ r.
Proof. unfold strip_by. apply rstrip_by_prefix. Qed.

End StripFacts.

Lemma startswith_inv (s prefix : str) :
  startswith s prefix = true -> exists rest, s = prefix ++ rest.
Proof.
  revert s. induction prefix as [|a prefix IH]; intros s H.
  - exists s. reflexivity.
  - destruct s as [|c s]; simpl in H; [discriminate|].
    apply andb_prop in H as [Hc Hs].
    apply N.eqb_eq in Hc. subst c.
    destruct (IH _ Hs) as [rest ->]. exists rest. reflexivity.
Qed.

Lemma upper_app_inv (s a b : str) :
  upper s = a ++ b -> exists s1 s2, s = s1 ++ s2 /\ upper s1 = a /\ upper s2 = b.
Proof.
  unfold upper. intros H. apply map_eq_app in H as (s1 & s2 & -> & <- & <-).
  eauto.
Qed.

Lemma str_eqb_refl (a : str) : str_eqb a a = true.
Proof. unfold str_eqb. apply bool_decide_eq_true. reflexivity. Qed.

Lemma str_eqb_eq (a b : str) : str_eqb a b = true <-> a = b.
Proof. unfold str_eqb. apply bool_decide_eq_true. Qed.

(** The guard of [parse_query] only lets through queries that start with
    the keyword. *)
Lemma where_guard (query : str) :
  startswith (upper (strip query)) (lit "WHERE") = true ->
  starts_with_where query = true.
Proof.
  intros H. apply startswith_inv in H as [rest H].
  apply upper_app_inv in H as (w & s2 & Hs & Hw & _).
  destruct (strip_by_prefix_of_lstrip isspace query) as [r Hr].
  unfold starts_with_where, lstrip. fold (strip query) in Hr.
  rewrite Hr, Hs, <- !app_assoc.
  assert (Hlen : length w = 5%nat).
  { apply (f_equal (@length _)) in Hw. unfold upper in Hw.
    rewrite length_map in Hw. exact Hw. }
  replace 5%nat with (length w + 0)%nat by (rewrite Hlen; reflexivity).
  rewrite firstn_app_2. simpl. rewrite app_nil_r, Hw.
  apply str_eqb_refl.
Qed.

Lemma startswith_app (prefix rest : str) : startswith (prefix ++ rest) prefix = true.
Proof.
  induction prefix as [|c prefix IH]; [reflexivity|].
  simpl. rewrite N.eqb_refl. exact IH.
Qed.

(** ** Stripping *)

Lemma head_fails_app p (a b : str) : a <> [] -> head_fails p a -> head_fails p (a ++ b).
Proof. destruct a; [congruence|]. intros _ H. exact H. Qed.

Lemma head_fails_spaces p (ws tail : str) :
  (forall c, isspace c = true -> p c = false) ->
  forallb isspace ws = true -> head_fails p tail -> head_fails p (ws ++ tail).
Proof.
  intros Hp Hws Htail. destruct ws as [|c ws]; [exact Htail|].
  simpl in *. apply andb_prop in Hws as [Hc _]. apply Hp, Hc.
Qed.

Section StripKeep.
Variable p : char -> bool.

Lemma lstrip_by_stop (s : str) : head_fails p s -> lstrip_by p s = s.
Proof. destruct s as [|c s]; simpl; [reflexivity|]. intros ->. reflexivity. Qed.

Lemma lstrip_by_app_stop (x y : str) :
  y <> [] -> head_fails p y ->
  exists x', lstrip_by p (x ++ y) = x' ++ y /\ (x = [] -> x' = []).
Proof.
  intros Hy Hh. induction x as [|c x IH]; simpl.
  - exists []. split; [apply lstrip_by_stop, Hh|reflexivity].
  - destruct (p c).
    + destruct IH as (x' & -> & _). exists x'. split; [reflexivity|discriminate].
    + exists (c :: x). split; [reflexivity|discriminate].
Qed.

(** Stripping a text that starts and ends with something else than what
    is stripped only touches what follows its last such character. *)
Lemma strip_by_keep (a : str) (z : char) (rest : str) :
  head_fails p (a ++ [z]) -> p z = false ->
  exists rest', strip_by p (a ++ [z] ++ rest) = a ++ [z] ++ rest'
                /\ (rest = [] -> rest' = []).
Proof.
  intros Hhead Hz.
  assert (Hl : lstrip_by p (a ++ [z] ++ rest) = a ++ [z] ++ rest).
  { apply lstrip_by_stop. rewrite app_assoc.
    apply head_fails_app; [destruct a; discriminate|exact Hhead]. }
  destruct (lstrip_by_app_stop (rev rest) (rev (a ++ [z]))) as (x' & Hx & Hx').
  { rewrite rev_app_distr. discriminate. }
  { rewrite rev_app_distr. exact Hz. }
  exists (rev x'). split.
  - unfold strip_by, rstrip_by. rewrite Hl.
    rewrite (app_assoc a), rev_app_distr, Hx, rev_app_distr, rev_involutive.
    rewrite <- app_assoc. reflexivity.
  - intros ->. rewrite Hx'; reflexivity.
Qed.

End StripKeep.

Lemma lstrip_by_head p (s : str) : head_fails p (lstrip_by p s).
Proof.
  induction s as [|c s IH]; simpl; [exact I|].
  destruct (p c) eqn:Hc; [exact IH|exact Hc].
Qed.

Lemma strip_by_lstrip p (s : str) : strip_by p (lstrip_by p s) = strip_by p s.
Proof.
  unfold strip_by. rewrite (lstrip_by_stop p (lstrip_by p s)); [reflexivity|].
  apply lstrip_by_head.
Qed.

Lemma upper_letter_not_space (c x : char) :
  upper_char c = x -> between 65%N 90%N x = true -> isspace c = false.
Proof.
  intros <-. unfold upper_char.
  destruct (between 97%N 122%N c) eqn:Hlow; intros H; not_space; class_facts; lia.
Qed.

(** And it lets through every query that starts with the keyword. *)
Lemma where_guard_complete (query : str) :
  starts_with_where query = true ->
  startswith (upper (strip query)) (lit "WHERE") = true.
Proof.
  unfold starts_with_where. intros H. apply str_eqb_eq in H.
  pose proof (firstn_skipn 5 (lstrip query)) as Hsplit.
  destruct (firstn 5 (lstrip query)) as [|a [|b [|c [|d [|e [|]]]]]];
    try discriminate H.
  injection H as Ha Hb Hc Hd He.
  destruct (strip_by_keep isspace [a; b; c; d] e (skipn 5 (lstrip query)))
    as (rest' & Hstrip & _).
  - exact (upper_letter_not_space a _ Ha eq_refl).
  - exact (upper_letter_not_space e _ He eq_refl).
  - assert (Hs : strip query = [a; b; c; d; e] ++ rest').
    { unfold strip. rewrite <- strip_by_lstrip. fold lstrip.
      rewrite <- Hsplit. exact Hstrip. }
    rewrite Hs. unfold upper. rewrite map_app. cbn [List.map].
    rewrite Ha, Hb, Hc, Hd, He. apply (startswith_app (lit "WHERE")).
Qed.

Lemma where_guard_iff (query : str) :
  startswith (upper (strip query)) (lit "WHERE") = starts_with_where query.
Proof.
  apply eq_true_iff_eq. split; [apply where_guard|apply where_guard_complete].
Qed.

Section StripSpec.
Variable p : char -> bool.

Lemma lstrip_by_split (s : str) :
  exists l, s = l ++ lstrip_by p s /\ forallb p l = true.
Proof.
  induction s as [|c s IH]; simpl.
  - exists []. auto.
  - destruct (p c) eqn:Hc.
    + destruct IH as (l & Hl & Hall). exists (c :: l). simpl. rewrite Hc.
      split; [congruence|exact Hall].
    + exists []. auto.
Qed.

Lemma lstrip_by_all (l s : str) :
  forallb p l = true -> lstrip_by p (l ++ s) = lstrip_by p s.
Proof.
  induction l as [|c l IH]; simpl; [reflexivity|].
  intros H. apply andb_prop in H as [-> H]. apply IH, H.
Qed.

Lemma forallb_rev (l : str) : forallb p (rev l) = forallb p l.
Proof.
  induction l as [|c l IH]; simpl; [reflexivity|].
  rewrite forallb_app. simpl. rewrite andb_true_r, andb_comm. f_equal. exact IH.
Qed.

Lemma head_fails_prefix (a b : str) : head_fails p (a ++ b) -> a <> [] -> head_fails p a.
Proof. destruct a; [congruence|]. intros H _. exact H. Qed.

(** [strip] is determined by the decomposition of the text into what is
    stripped on the left, a core that neither starts nor ends with a
    stripped character, and what is stripped on the right. *)
Lemma strip_by_spec (l t r : str) :
  forallb p l = true -> forallb p r = true ->
  head_fails p t -> head_fails p (rev t) ->
  strip_by p (l ++ t ++ r) = t.
Proof.
  intros Hl Hr Ht Ht'. unfold strip_by, rstrip_by.
  rewrite lstrip_by_all by exact Hl.
  destruct t as [|c t].
  - simpl. rewrite <- (app_nil_r r), lstrip_by_all by exact Hr. reflexivity.
  - rewrite (lstrip_by_stop p ((c :: t) ++ r)) by exact Ht.
    rewrite rev_app_distr, lstrip_by_all by (rewrite forallb_rev; exact Hr).
    rewrite lstrip_by_stop by exact Ht'. apply rev_involutive.
Qed.

Lemma strip_by_decompose (s : str) :
  exists l r,
    s = l ++ strip_by p s ++ r /\ forallb p l = true /\ forallb p r = true
    /\ head_fails p (strip_by p s) /\ head_fails p (rev (strip_by p s)).
Proof.
  destruct (lstrip_by_split s) as (l & Hs & Hl).
  destruct (lstrip_by_split (rev (lstrip_by p s))) as (r & Hu & Hr).
  exists l, (rev r).
  assert (Hcore : lstrip_by p s = strip_by p s ++ rev r).
  { unfold strip_by, rstrip_by. rewrite <- rev_app_distr, <- Hu, rev_involutive.
    reflexivity. }
  split; [rewrite <- Hcore; exact Hs|].
  split; [exact Hl|]. split; [rewrite forallb_rev; exact Hr|].
  split.
  - assert (Hh : head_fails p (strip_by p s ++ rev r))
      by (rewrite <- Hcore; apply lstrip_by_head).
    destruct (strip_by p s); [exact I|exact Hh].
  - unfold strip_by, rstrip_by. rewrite rev_involutive. apply lstrip_by_head.
Qed.

Lemma strip_by_idempotent (s : str) : strip_by p (strip_by p s) = strip_by p s.
Proof.
  destruct (strip_by_decompose s) as (l & r & _ & _ & _ & H1 & H2).
  rewrite <- (app_nil_r (strip_by p s)) at 1.
  apply (strip_by_spec [] (strip_by p s) []); auto.
Qed.

Lemma strip_by_pad (l s r : str) :
  forallb p l = true -> forallb p r = true ->
  strip_by p (l ++ s ++ r) = strip_by p s.
Proof.
  intros Hl Hr.
  destruct (strip_by_decompose s) as (l' & r' & Hs & Hl' & Hr' & H1 & H2).
  rewrite Hs at 1.
  replace (l ++ (l' ++ strip_by p s ++ r') ++ r)
    with ((l ++ l') ++ strip_by p s ++ (r' ++ r))
    by (rewrite <- !app_assoc; reflexivity).
  apply strip_by_spec; [| |exact H1|exact H2];
    rewrite forallb_app; apply andb_true_intro; auto.
Qed.

End StripSpec.

(** ** Character classes *)

Section Classes.
Import QueryParser.
Local Open Scope N_scope.

(** A code point of a table lies outside every range that the table
    does not meet. *)
Lemma in_ranges_outside (t : list (N * N)) (lo hi c : char) :
  forallb (fun r => (snd r <? lo) || (hi <? fst r)) t = true ->
  in_ranges t c = true -> between lo hi c = false.
Proof.
  unfold in_ranges. induction t as [|[a b] t IH]; simpl; [discriminate|].
  intros Ht Hc. apply andb_prop in Ht as [Hab Ht].
  apply orb_prop in Hc as [Hc|Hc]; [|exact (IH Ht Hc)].
  unfold between in *. apply andb_prop in Hc as [H1 H2].
  apply N.leb_le in H1, H2. apply andb_false_iff.
  apply orb_prop in Hab as [Hab|Hab]; apply N.ltb_lt in Hab;
    [left|right]; apply N.leb_gt; lia.
Qed.

Lemma word_outside (lo hi c : char) :
  forallb (fun r => (snd r <? lo) || (hi <? fst r)) WORD_RANGES = true ->
  isword c = true -> between lo hi c = false.
Proof. apply in_ranges_outside. Qed.

Lemma word_is_not (x c : char) :
  forallb (fun r => (snd r <? x) || (x <? fst r)) WORD_RANGES = true ->
  isword c = true -> (c =? x) = false.
Proof.
  intros Ht Hc. pose proof (word_outside x x c Ht Hc) as H.
  unfold between in H. apply N.eqb_neq. intros ->.
  rewrite N.leb_refl in H. discriminate H.
Qed.

Lemma isword_not_space c : isword c = true -> isspace c = false.
Proof.
  intros H. unfold isspace.
  rewrite (word_outside 9 13 c), (word_outside 28 32 c), (word_outside 8192 8202 c)
    by first [exact H | vm_compute; reflexivity].
  rewrite (word_is_not 133 c), (word_is_not 160 c), (word_is_not 5760 c),
    (word_is_not 8232 c), (word_is_not 8233 c), (word_is_not 8239 c),
    (word_is_not 8287 c), (word_is_not 12288 c)
    by first [exact H | vm_compute; reflexivity].
  reflexivity.
Qed.

Lemma space_not_word c : isspace c = true -> isword c = false.
Proof.
  intros H. destruct (isword c) eqn:Hw; [|reflexivity].
  apply isword_not_space in Hw. congruence.
Qed.

Lemma space_not_equals c : isspace c = true -> N.eqb 61 c = false.
Proof. intros H. apply N.eqb_neq. class_facts; lia. Qed.

Lemma plain_quote_not_space q : plain_quote q = true -> isspace q = false.
Proof. intros H. not_space. class_facts; lia. Qed.

Lemma plain_quote_closing q : plain_quote q = true -> Re.one_of closing_quotes q = true.
Proof.
  intros H. unfold closing_quotes, Re.one_of. cbn [existsb].
  rewrite !orb_true_iff, !N.eqb_eq. class_facts; lia.
Qed.

Lemma operator_head op :
  In op operator_set ->
  exists c op', op = c :: op' /\ isword c = false /\ isspace c = false.
Proof.
  unfold operator_set. eval_lit. simpl.
  intros [<-|[<-|[<-|[<-|[<-|[<-|[]]]]]]];
    do 2 eexists; (split; [reflexivity|split; vm_compute; reflexivity]).
Qed.

End Classes.

(** ** The matcher *)

Section RegexFacts.
Context {R : Type}.
Implicit Types (k : @Re.cont R) (g : list str) (p : char -> bool).

Lemma star_stop p s g k : head_fails p s -> Re.star p s g k = k s g.
Proof. destruct s as [|c s]; simpl; [reflexivity|]. intros ->. reflexivity. Qed.

(** A greedy repetition that can take all of [a] and then go on with
    success does so: nothing longer is possible, and shorter is only tried
    after a failure. *)
Lemma star_greedy p a b g k x :
  forallb p a = true -> head_fails p b -> k b g = Some x ->
  Re.star p (a ++ b) g k = Some x.
Proof.
  intros Ha Hb Hk. induction a as [|c a IH]; simpl in *.
  - rewrite star_stop; assumption.
  - apply andb_prop in Ha as [-> Ha]. rewrite (IH Ha). reflexivity.
Qed.

Lemma plus_greedy p a b g k x :
  a <> [] -> forallb p a = true -> head_fails p b -> k b g = Some x ->
  Re.run (Re.Plus p) (a ++ b) g k = Some x.
Proof.
  destruct a as [|c a]; [congruence|]. intros _ Ha Hb Hk. simpl in *.
  apply andb_prop in Ha as [-> Ha]. apply star_greedy; assumption.
Qed.

Lemma opt_take p c s g k x :
  p c = true -> k s g = Some x -> Re.run (Re.Opt p) (c :: s) g k = Some x.
Proof. simpl. intros -> ->. reflexivity. Qed.

Lemma consumed_app (a b : str) : Re.consumed (a ++ b) b = a.
Proof.
  unfold Re.consumed. rewrite length_app.
  replace (length a + length b - length b)%nat with (length a + 0)%nat by lia.
  rewrite firstn_app_2. simpl. apply app_nil_r.
Qed.

End RegexFacts.

(** ** The literals of [float()] *)

Section FloatGrammar.
Local Open Scope N_scope.

Lemma digitpart_stop s : head_fails isdigit s -> digitpart s = ([], s).
Proof. destruct s as [|c s]; simpl; [reflexivity|]. intros ->. reflexivity. Qed.

Lemma digitpart_of_head a : digitpart_of a -> exists d a', a = d :: a' /\ isdigit d = true.
Proof. destruct 1; eauto. Qed.

Lemma digit_not_sign d : isdigit d = true -> (d =? 45) || (d =? 43) = false.
Proof.
  intros H. apply orb_false_intro; apply N.eqb_neq;
    unfold isdigit, between in H; apply andb_prop in H as [H1 H2];
    apply N.leb_le in H1, H2; lia.
Qed.

Lemma digitpart_complete a :
  digitpart_of a -> forall rest, ends_digits rest ->
  exists d ds, digitpart (a ++ rest) = (d :: ds, rest).
Proof.
  induction 1 as [d Hd|d s Hd _ IH|d s Hd _ IH]; intros rest [Hr1 Hr2].
  - cbn [app digitpart]. rewrite Hd, (digitpart_stop rest Hr1).
    destruct rest as [|u rest]; [eauto|]. simpl in Hr2. rewrite Hr2. eauto.
  - destruct (IH rest (conj Hr1 Hr2)) as (d' & ds & Hs).
    cbn [app digitpart]. rewrite Hd, Hs. eauto.
  - destruct (IH rest (conj Hr1 Hr2)) as (d' & ds & Hs).
    cbn [app]. change (digitpart (d :: 95 :: s ++ rest))
      with (if isdigit d then
              match digitpart (95 :: s ++ rest) with
              | (d0 :: ds0, r) => (d :: d0 :: ds0, r)
              | ([], _) =>
                  if 95 =? 95 then
                    match digitpart (s ++ rest) with
                    | (d0 :: ds0, r) => (d :: d0 :: ds0, r)
                    | ([], _) => ([d], 95 :: s ++ rest)
                    end
                  else ([d], 95 :: s ++ rest)
              end
            else ([], d :: 95 :: s ++ rest)).
    rewrite Hd, (digitpart_stop (95 :: s ++ rest)) by reflexivity.
    rewrite Hs. eauto.
Qed.

Lemma digitpart_sound_le n : forall s ds r,
  (length s <= n)%nat -> digitpart s = (ds, r) ->
  (ds = [] /\ r = s) \/ (ds <> [] /\ exists a, s = a ++ r /\ digitpart_of a).
Proof.
  induction n as [|n IH]; intros s ds r Hlen H.
  - destruct s; [|simpl in Hlen; lia]. injection H as <- <-. left. auto.
  - destruct s as [|c s']; [injection H as <- <-; left; auto|].
    simpl in Hlen. cbn [digitpart] in H.
    destruct (isdigit c) eqn:Hc; [|injection H as <- <-; left; auto].
    right.
    destruct (digitpart s') as [[|d0 ds0] r0] eqn:Hs'.
    + destruct s' as [|u s'']; [injection H as <- <-|].
      { split; [discriminate|]. exists [c]. split; [reflexivity|constructor; exact Hc]. }
      destruct (u =? 95) eqn:Hu.
      * apply N.eqb_eq in Hu. subst u.
        destruct (digitpart s'') as [[|d1 ds1] r1] eqn:Hs''.
        -- injection H as <- <-. split; [discriminate|].
           exists [c]. split; [reflexivity|constructor; exact Hc].
        -- injection H as <- <-. split; [discriminate|].
           destruct (IH s'' _ _ ltac:(simpl in Hlen; lia) Hs'') as [[? _]|[_ (a & -> & Ha)]];
             [discriminate|].
           exists (c :: 95 :: a). split; [reflexivity|].
           apply digitpart_underscore; assumption.
      * injection H as <- <-. split; [discriminate|].
        exists [c]. split; [reflexivity|constructor; exact Hc].
    + injection H as <- <-. split; [discriminate|].
      destruct (IH s' _ _ ltac:(lia) Hs') as [[? _]|[_ (a & -> & Ha)]]; [discriminate|].
      exists (c :: a). split; [reflexivity|]. apply digitpart_next; assumption.
Qed.

Lemma digitpart_sound s ds r :
  digitpart s = (ds, r) ->
  (ds = [] /\ r = s) \/ (ds <> [] /\ exists a, s = a ++ r /\ digitpart_of a).
Proof. apply (digitpart_sound_le (length s)). lia. Qed.


Lemma exponent_of_head e : exponent_of e -> ends_digits e /\ head_fails (fun c => N.eqb c 46) e.
Proof.
  destruct 1 as [|e sg d [->| ->] _ _]; repeat split; reflexivity.
Qed.

Lemma take_sign_inv s neg body :
  take_sign s = (neg, body) -> exists sg, s = sg ++ body /\ sign_of sg.
Proof.
  destruct s as [|c s]; simpl.
  - intros [= <- <-]. exists []. split; [reflexivity|constructor].
  - destruct (c =? 45) eqn:H45; [|destruct (c =? 43) eqn:H43].
    + intros [= <- <-]. apply N.eqb_eq in H45 as ->.
      exists [45]. split; [reflexivity|constructor].
    + intros [= <- <-]. apply N.eqb_eq in H43 as ->.
      exists [43]. split; [reflexivity|constructor].
    + intros [= <- <-]. exists []. split; [reflexivity|constructor].
Qed.

Lemma take_sign_complete sg body :
  sign_of sg -> not_sign body -> exists neg, take_sign (sg ++ body) = (neg, body).
Proof.
  intros [| |] Hb; [|eexists; reflexivity..].
  destruct body as [|c body]; [eexists; reflexivity|].
  simpl in *. apply orb_false_elim in Hb as [-> ->]. eexists; reflexivity.
Qed.

Lemma mantissa_complete n e :
  number_of n -> exponent_of e -> exists ip fp, mantissa (n ++ e) = Some (ip, fp, e).
Proof.
  intros Hn He. destruct (exponent_of_head e He) as [Hed He46].
  assert (Hpoint : forall r, ends_digits (46 :: r)) by (intros r; split; reflexivity).
  assert (Htail : forall ip : list char, ip <> [] ->
            match e with
            | c :: r2 =>
                if c =? 46
                then let (fp, r3) := digitpart r2 in
                     match ip, fp with [], [] => None | _, _ => Some (ip, fp, r3) end
                else match ip with [] => None | _ => Some (ip, [], e) end
            | [] => match ip with [] => None | _ => Some (ip, [], e) end
            end = Some (ip, [], e)).
  { intros [|d ds] Hip; [congruence|].
    destruct e as [|c r2]; [reflexivity|]. simpl in He46. rewrite He46. reflexivity. }
  destruct Hn as [a Ha|a Ha|b Hb|a b Ha Hb]; unfold mantissa.
  - destruct (digitpart_complete a Ha e Hed) as (d & ds & ->).
    do 2 eexists. apply (Htail (d :: ds)). discriminate.
  - rewrite <- app_assoc. cbn [app].
    destruct (digitpart_complete a Ha _ (Hpoint e)) as (d & ds & ->).
    rewrite N.eqb_refl, (digitpart_stop e) by apply Hed. eauto.
  - cbn [app digitpart]. replace (isdigit 46) with false by reflexivity.
    rewrite N.eqb_refl.
    destruct (digitpart_complete b Hb e Hed) as (d & ds & ->). eauto.
  - rewrite <- app_assoc. cbn [app].
    destruct (digitpart_complete a Ha _ (Hpoint (b ++ e))) as (d & ds & ->).
    rewrite N.eqb_refl.
    destruct (digitpart_complete b Hb e Hed) as (d' & ds' & ->). eauto.
Qed.

Lemma mantissa_sound body ip fp r :
  mantissa body = Some (ip, fp, r) -> exists n, body = n ++ r /\ number_of n.
Proof.
  unfold mantissa.
  destruct (digitpart body) as [ip0 r1] eqn:Hip.
  apply digitpart_sound in Hip.
  assert (Hint : match ip0 with [] => None | _ => Some (ip0, @nil char, r1) end
                 = Some (ip, fp, r) -> exists n, body = n ++ r /\ number_of n).
  { destruct ip0 as [|d ds]; [discriminate|]. intros [= <- <- <-].
    destruct Hip as [[? _]|[_ (a & -> & Ha)]]; [discriminate|].
    exists a. split; [reflexivity|constructor; exact Ha]. }
  destruct r1 as [|c r2]; [exact Hint|].
  destruct (c =? 46) eqn:Hc; [|exact Hint].
  apply N.eqb_eq in Hc. subst c.
  destruct (digitpart r2) as [fp0 r3] eqn:Hfp.
  apply digitpart_sound in Hfp.
  destruct Hip as [[-> <-]|[Hne (a & -> & Ha)]],
           Hfp as [[-> ->]|[Hne' (b & -> & Hb)]].
  - discriminate.
  - destruct fp0; [congruence|]. intros [= <- <- <-].
    exists (46 :: b). split; [reflexivity|constructor; exact Hb].
  - destruct ip0; [congruence|]. intros [= <- <- <-].
    exists (a ++ [46]). split; [rewrite <- app_assoc; reflexivity|constructor; exact Ha].
  - destruct ip0; [congruence|]. intros [= <- <- <-].
    exists (a ++ 46 :: b). split; [rewrite <- app_assoc; reflexivity|constructor; assumption].
Qed.

Lemma exponent_complete e : exponent_of e -> exists z, exponent e = Some z.
Proof.
  destruct 1 as [|e sg d He Hsg Hd]; [eexists; reflexivity|].
  unfold exponent.
  replace ((e =? 101) || (e =? 69)) with true
    by (destruct He as [-> | ->]; reflexivity).
  destruct (digitpart_of_head d Hd) as (d0 & d' & Hd0 & Hdig).
  destruct (take_sign_complete sg d Hsg) as [neg ->].
  { subst d. apply digit_not_sign, Hdig. }
  destruct (digitpart_complete d Hd [] (conj I I)) as (x & xs & Hx).
  rewrite app_nil_r in Hx. rewrite Hx. eauto.
Qed.

Lemma exponent_sound r z : exponent r = Some z -> exponent_of r.
Proof.
  unfold exponent. destruct r as [|c s']; [constructor|].
  destruct ((c =? 101) || (c =? 69)) eqn:Hc; [|discriminate].
  destruct (take_sign s') as [neg s''] eqn:Hsign.
  apply take_sign_inv in Hsign as (sg & -> & Hsg).
  destruct (digitpart s'') as [[|d ds] [|? ?]] eqn:Hd; try discriminate.
  intros _. apply digitpart_sound in Hd as [[? _]|[_ (a & -> & Ha)]]; [discriminate|].
  rewrite app_nil_r. constructor; [|assumption..].
  apply orb_prop in Hc as [Hc|Hc]; apply N.eqb_eq in Hc; auto.
Qed.

Lemma number_not_sign n e : number_of n -> not_sign (n ++ e).
Proof.
  assert (Hdp : forall a r, digitpart_of a -> not_sign (a ++ r)).
  { intros a r Ha. destruct (digitpart_of_head a Ha) as (d & a' & -> & Hd).
    apply digit_not_sign, Hd. }
  destruct 1 as [a Ha|a Ha|b Hb|a b Ha Hb].
  - apply Hdp, Ha.
  - rewrite <- app_assoc. apply Hdp, Ha.
  - reflexivity.
  - rewrite <- app_assoc. apply Hdp, Ha.
Qed.

Lemma special_not_sign body : special_name body -> not_sign body.
Proof.
  unfold special_name. eval_lit. simpl.
  destruct body as [|c body]; [intros _; exact I|].
  assert (Hc : forall x, lower_char c = x -> (x =? 45) || (x =? 43) = false ->
               (c =? 45) || (c =? 43) = false).
  { intros x <-. unfold lower_char, between.
    destruct ((65 <=? c) && (c <=? 90)) eqn:Hup; [|auto].
    intros _. apply andb_prop in Hup as [H1 H2]. apply N.leb_le in H1, H2.
    apply orb_false_intro; apply N.eqb_neq; lia. }
  intros [H|[H|[H|[]]]]; injection H as H _; simpl; symmetry in H;
    apply (Hc _ H); reflexivity.
Qed.

(** [float()] accepts exactly the strings that it brings to a float
    literal. *)
Lemma float_of_str_literal v :
  float_literal (to_ascii v) <-> exists f, float_of_str v = Some f.
Proof.
  unfold float_of_str, float_literal. generalize (to_ascii v). clear v. intros v. split.
  - intros (sg & body & -> & Hsg & Hbody).
    destruct (take_sign_complete sg body Hsg) as [neg ->].
    { destruct Hbody as [H|(n & e & -> & Hn & _)];
        [apply special_not_sign, H|apply number_not_sign, Hn]. }
    destruct Hbody as [H|(n & e & -> & Hn & He)].
    + unfold special_name in H. simpl in H.
      destruct H as [H|[H|[H|[]]]]; rewrite <- H; vm_compute; eauto.
    + destruct (str_eqb _ _ || str_eqb _ _); [eauto|].
      destruct (str_eqb _ _); [eauto|].
      destruct (mantissa_complete n e Hn He) as (ip & fp & ->).
      destruct (exponent_complete e He) as [z ->]. eauto.
  - intros [f H].
    destruct (take_sign (strip_by c_isspace v)) as [neg body] eqn:Hsign.
    apply take_sign_inv in Hsign as (sg & Hcore & Hsg).
    exists sg, body. split; [exact Hcore|]. split; [exact Hsg|].
    destruct (str_eqb (lower body) (lit "inf") || str_eqb (lower body) (lit "infinity"))
      eqn:Hinf.
    { left. unfold special_name. simpl.
      apply orb_prop in Hinf as [Hinf|Hinf]; apply str_eqb_eq in Hinf; auto. }
    destruct (str_eqb (lower body) (lit "nan")) eqn:Hnan.
    { left. unfold special_name. simpl. apply str_eqb_eq in Hnan. auto. }
    right.
    destruct (mantissa body) as [[[ip fp] r]|] eqn:Hm; [|discriminate].
    destruct (exponent r) as [z|] eqn:He; [|discriminate].
    apply mantissa_sound in Hm as (n & -> & Hn).
    apply exponent_sound in He. eauto.
Qed.

(** The characters of a float literal are ASCII characters other than
    the question mark. *)
Lemma all_cons (p : char -> bool) (c : char) (s : str) :
  p c = true -> forallb p s = true -> forallb p (c :: s) = true.
Proof. intros Hc Hs. simpl. rewrite Hc, Hs. reflexivity. Qed.

Lemma all_app (p : char -> bool) (a b : str) :
  forallb p a = true -> forallb p b = true -> forallb p (a ++ b) = true.
Proof. intros Ha Hb. rewrite forallb_app. apply andb_true_intro. split; assumption. Qed.

Lemma digit_literal d : isdigit d = true -> literal_char d = true.
Proof.
  unfold isdigit, between, literal_char. intros H. apply andb_prop in H as [H1 H2].
  apply N.leb_le in H1, H2. apply andb_true_intro.
  split; [apply N.ltb_lt; lia|apply negb_true_iff, N.eqb_neq; lia].
Qed.

Lemma digitpart_literal a : digitpart_of a -> forallb literal_char a = true.
Proof.
  induction 1 as [d Hd|d s Hd _ IH|d s Hd _ IH].
  - apply all_cons; [apply digit_literal, Hd|reflexivity].
  - apply all_cons; [apply digit_literal, Hd|exact IH].
  - apply all_cons; [apply digit_literal, Hd|].
    apply all_cons; [reflexivity|exact IH].
Qed.

Lemma number_literal n : number_of n -> forallb literal_char n = true.
Proof.
  destruct 1 as [a Ha|a Ha|b Hb|a b Ha Hb].
  - apply digitpart_literal, Ha.
  - apply all_app; [apply digitpart_literal, Ha|reflexivity].
  - apply all_cons; [reflexivity|apply digitpart_literal, Hb].
  - apply all_app; [apply digitpart_literal, Ha|].
    apply all_cons; [reflexivity|apply digitpart_literal, Hb].
Qed.

Lemma sign_literal sg : sign_of sg -> forallb literal_char sg = true.
Proof. destruct 1; reflexivity. Qed.

Lemma exponent_literal e : exponent_of e -> forallb literal_char e = true.
Proof.
  destruct 1 as [|e sg d He Hsg Hd]; [reflexivity|].
  apply all_cons; [destruct He as [-> | ->]; reflexivity|].
  apply all_app; [apply sign_literal, Hsg|apply digitpart_literal, Hd].
Qed.

Lemma lower_literal c : literal_char (lower_char c) = true -> literal_char c = true.
Proof.
  unfold lower_char, literal_char, between.
  destruct ((65 <=? c) && (c <=? 90)) eqn:E; [|trivial].
  apply andb_prop in E as [E1 E2]. apply N.leb_le in E1, E2.
  intros H. apply andb_prop in H as [H1 H2]. apply N.ltb_lt in H1.
  apply andb_true_intro. split; [apply N.ltb_lt; lia|apply negb_true_iff, N.eqb_neq; lia].
Qed.

Lemma lower_all_literal s : forallb literal_char (lower s) = true -> forallb literal_char s = true.
Proof.
  induction s as [|c s IH]; simpl; [trivial|].
  intros H. apply andb_prop in H as [Hc Hs].
  rewrite (lower_literal c Hc), (IH Hs). reflexivity.
Qed.

Lemma special_literal body : special_name body -> forallb literal_char body = true.
Proof.
  unfold special_name. intros H. apply lower_all_literal.
  simpl in H. destruct H as [<-|[<-|[<-|[]]]]; reflexivity.
Qed.

Lemma blank_literal s : forallb c_isspace s = true -> forallb literal_char s = true.
Proof.
  induction s as [|c s IH]; simpl; [trivial|].
  intros H. apply andb_prop in H as [Hc Hs]. rewrite (IH Hs), andb_true_r.
  unfold c_isspace, between in Hc. unfold literal_char.
  apply andb_true_intro.
  split; [apply N.ltb_lt|apply negb_true_iff, N.eqb_neq]; class_facts; lia.
Qed.

Lemma float_literal_chars s : float_literal s -> forallb literal_char s = true.
Proof.
  intros (sg & body & Hs & Hsg & Hbody).
  destruct (strip_by_decompose c_isspace s) as (l & r & Hd & Hl & Hr & _).
  rewrite Hd, Hs.
  apply all_app; [apply blank_literal, Hl|].
  apply all_app; [|apply blank_literal, Hr].
  apply all_app; [apply sign_literal, Hsg|].
  destruct Hbody as [H|(n & e & -> & Hn & He)].
  - apply special_literal, H.
  - apply all_app; [apply number_literal, Hn|apply exponent_literal, He].
Qed.

Lemma read_char_cases (c : char) :
  ((c <? 127) = true /\ read_char c = c)
  \/ ((c <? 127) = false /\ isspace c = true /\ read_char c = 32)
  \/ ((c <? 127) = false /\ isspace c = false
      /\ exists d, decimal c = Some d /\ read_char c = 48 + d)
  \/ ((c <? 127) = false /\ isspace c = false /\ decimal c = None /\ read_char c = c).
Proof.
  unfold read_char, is_ascii.
  destruct (c <? 127) eqn:E127.
  - left. split; [reflexivity|].
    apply N.ltb_lt in E127. replace (c <? 128) with true; [reflexivity|].
    symmetry. apply N.ltb_lt. lia.
  - right. apply N.ltb_ge in E127.
    destruct (N.eq_dec c 127) as [->|Hne].
    { right. right. repeat split; reflexivity. }
    replace (c <? 128) with false by (symmetry; apply N.ltb_ge; lia).
    destruct (isspace c); [left; auto|right].
    destruct (decimal c) as [d|]; [left|right]; eauto.
Qed.

(** Bringing a string to ASCII gives what [float_text] reads, unless the
    string holds a code point that is no character of a literal. *)
Lemma transform_reads v :
  transform v = float_text v
  \/ (forallb literal_char (transform v) = false
      /\ forallb literal_char (float_text v) = false).
Proof.
  assert (Hstep : forall (x : char) (a b : str),
            a = b \/ (forallb literal_char a = false /\ forallb literal_char b = false) ->
            x :: a = x :: b
            \/ (forallb literal_char (x :: a) = false
                /\ forallb literal_char (x :: b) = false)).
  { intros x a b [->|[H1 H2]]; [left; reflexivity|right].
    cbn [forallb]. split; apply andb_false_iff; right; assumption. }
  induction v as [|c v IH]; [left; reflexivity|].
  change (float_text (c :: v)) with (read_char c :: float_text v).
  cbn [transform].
  destruct (read_char_cases c)
    as [(E & ->)|[(E & Esp & ->)|[(E & Esp & d & Ed & ->)|(E & Esp & Ed & ->)]]];
    rewrite E, ?Esp, ?Ed; try (apply Hstep, IH).
  right. split; [reflexivity|].
  cbn [forallb]. apply andb_false_iff. left.
  unfold literal_char. rewrite E. reflexivity.
Qed.

Lemma float_text_ascii v : forallb is_ascii v = true -> float_text v = v.
Proof.
  induction v as [|c v IH]; simpl; [trivial|].
  intros H. apply andb_prop in H as [Hc Hv].
  unfold read_char. rewrite Hc, (IH Hv). reflexivity.
Qed.

Lemma float_literal_text v : float_literal (to_ascii v) <-> float_literal (float_text v).
Proof.
  unfold to_ascii. destruct (forallb is_ascii v) eqn:E.
  - rewrite (float_text_ascii v E). reflexivity.
  - destruct (transform_reads v) as [->|[H1 H2]]; [reflexivity|].
    split; intros H; apply float_literal_chars in H; congruence.
Qed.

(** [float()] accepts exactly the strings that read as float literals. *)
Lemma float_of_str_accepts v :
  float_literal (float_text v) <-> exists f, float_of_str v = Some f.
Proof. rewrite <- float_literal_text. apply float_of_str_literal. Qed.

End FloatGrammar.

(* ===================================================================== *)
(** * The evaluator *)
(* ===================================================================== *)

Section Evaluator.
Import QueryParser.

Lemma lookup_supported (operator : str) :
  In operator operator_set ->
  exists op, lookup SUPPORTED_OPERATORS operator = Some op
             /\ In op [Py.eq; Py.ne; Py.lt; Py.gt; Py.le; Py.ge].
Proof.
  intros H. simpl in H.
  repeat (destruct H as [<-|H]; [eexists; split; [vm_compute; reflexivity|simpl; tauto]|]).
  destruct H.
Qed.

(** The comparison lambdas raise only when the two sides are a string
    and a number. *)
Lemma comparison_total (op : value -> value -> result bool) (x y : value) :
  In op [Py.eq; Py.ne; Py.lt; Py.gt; Py.le; Py.ge] ->
  compare x y <> Mismatch ->
  exists b, op x y = Ok b.
Proof.
  intros Hop Hc. simpl in Hop.
  repeat (destruct Hop as [<-|Hop];
    [unfold Py.eq, Py.ne, Py.lt, Py.gt, Py.le, Py.ge;
     destruct (compare x y); try congruence; eauto|]).
  destruct Hop.
Qed.

Lemma compare_mismatch (x y : value) :
  compare x y = Mismatch <-> is_str x <> is_str y.
Proof.
  destruct x as [a|f|a], y as [b|g|b]; simpl; split; intros H;
    try congruence; exfalso.
  - destruct (a ?= b)%Z; discriminate.
  - revert H. unfold compare_int_float.
    destruct g as [?|[]| |? ? []]; simpl;
      try match goal with |- context [order_of ?c] => destruct c end; discriminate.
  - revert H. unfold compare_int_float.
    destruct f as [?|[]| |? ? []]; simpl;
      try match goal with |- context [order_of ?c] => destruct c end; discriminate.
  - destruct (SFcompare f g) as [[]|]; discriminate.
  - destruct (compare_str a b); discriminate.
Qed.

(** Where [evaluate_condition] returns: whenever the literal is a number,
    or the field is absent, or the record value is a string, or the
    operator is an equality. *)
Lemma evaluate_condition_returns
    (record : gmap str value) (field operator : str) (v : value) :
  In operator operator_set ->
  (is_str v = false \/ record !! field = None
   \/ (exists s, record !! field = Some (Str s))
   \/ In operator [lit "="; lit "!="]) ->
  exists b, evaluate_condition record field operator v = Ok b.
Proof.
  intros Hop H. unfold evaluate_condition.
  destruct (record !! field) as [x|] eqn:Hx; [|eauto].
  destruct (coerce x v) as [x'|] eqn:Hco; [|eauto].
  destruct H as [H|[H|[[s H]|H]]]; try discriminate.
  - destruct (lookup_supported _ Hop) as (op & -> & Hin).
    apply comparison_total; [exact Hin|].
    rewrite compare_mismatch, H.
    destruct x as [a|f|a]; simpl in Hco.
    + injection Hco as <-. simpl. congruence.
    + injection Hco as <-. simpl. congruence.
    + destruct v; try discriminate; simpl in Hco;
        destruct (float_of_str a); try discriminate;
        injection Hco as <-; simpl; congruence.
  - injection H as ->.
    destruct (lookup_supported _ Hop) as (op & -> & Hin).
    apply comparison_total; [exact Hin|].
    rewrite compare_mismatch.
    destruct v; simpl in Hco.
    + destruct (float_of_str s); [|discriminate]. injection Hco as <-. simpl. congruence.
    + destruct (float_of_str s); [|discriminate]. injection Hco as <-. simpl. congruence.
    + injection Hco as <-. simpl. congruence.
  - simpl in H. destruct H as [<-|[<-|[]]]; vm_compute lookup; eauto.
Qed.

(** Where it raises: an ordering operator, a numeric record value and a
    string literal. *)
Lemma evaluate_condition_raises
    (record : gmap str value) (field operator : str) (x : value) (s : str) :
  record !! field = Some x -> is_number x = true -> In operator ordering_set ->
  evaluate_condition record field operator (Str s) = Raise TypeError.
Proof.
  intros Hx Hnum Hop. unfold evaluate_condition. rewrite Hx.
  destruct x as [z|f|a]; try discriminate; simpl in Hop;
    destruct Hop as [<-|[<-|[<-|[<-|[]]]]]; reflexivity.
Qed.

(** C1.  [evaluate_condition] does not always return a boolean: an
    ordering operator between a numeric record value and a string literal
    raises [TypeError], for the condition alone, for the condition list
    that holds it, and for the query [WHERE Z13_STATUS_CODE < 'abc'] on
    the sample records, where [Database.query] lets the exception out. *)
Theorem evaluate_condition_ordering_raises :
  evaluate_condition {[ lit "field" := Int 5 ]} (lit "field") (lit "<") (Str (lit "abc"))
    = Raise TypeError
  /\ evaluate_record {[ lit "field" := Int 5 ]} [(lit "field", lit "<", Str (lit "abc"))]
    = Raise TypeError
  /\ fst (Database.query (Database.mk sample_vessels [])
                         (lit "WHERE Z13_STATUS_CODE < 'abc'"))
    = Raise TypeError.
Proof. repeat split; vm_compute; reflexivity. Qed.

(** C2.  Non-match policy: whatever the operator, a condition on a field
    the record does not have is false, and so is a condition with a
    numeric literal on a field whose value is a string that [float()]
    rejects. *)
Theorem evaluate_condition_non_match
    (record : gmap str value) (field operator : str) (v : value) :
  (record !! field = None
   \/ exists s, record !! field = Some (Str s)
                /\ is_number v = true /\ float_of_str s = None) ->
  evaluate_condition record field operator v = Ok false.
Proof.
  intros [H|(s & H & Hnum & Hfloat)]; unfold evaluate_condition; rewrite H.
  - reflexivity.
  - simpl. rewrite Hnum, Hfloat. reflexivity.
Qed.

Lemma evaluate_condition_non_match_witness :
  evaluate_condition {[ lit "field" := Int 5 ]} (lit "other") (lit "=") (Int 5) = Ok false
  /\ evaluate_condition {[ lit "field" := Str (lit "abc") ]} (lit "field") (lit "!=") (Int 5)
     = Ok false.
Proof.
  split; apply evaluate_condition_non_match.
  - left. vm_compute. reflexivity.
  - right. exists (lit "abc"). repeat split; vm_compute; reflexivity.
Defined.

(** [evaluate_record] is [True] exactly when every condition is.  When
    no condition of the list raises on the record, it is the conjunction
    of the conditions' values, and the order of the conditions does not
    matter. *)
Lemma evaluate_record_cons (record : gmap str value) (c : condition) cs :
  evaluate_record record (c :: cs)
  = (b <- condition_value record c ;; if b then evaluate_record record cs else Ok false).
Proof. destruct c as [[field operator] v]. reflexivity. Qed.

Lemma evaluate_record_true_iff (record : gmap str value) (cs : list condition) :
  evaluate_record record cs = Ok true
  <-> Forall (fun c => condition_value record c = Ok true) cs.
Proof.
  induction cs as [|c cs IH]; [split; [constructor|reflexivity]|].
  rewrite evaluate_record_cons, Forall_cons_iff, <- IH.
  destruct (condition_value record c) as [[|]|e]; simpl;
    split; try tauto; try discriminate; intros [H _]; discriminate H.
Qed.

Lemma evaluate_record_conjunction (record : gmap str value) (cs : list condition) :
  Forall (returns record) cs ->
  evaluate_record record cs
  = Ok (forallb (holds record) cs).
Proof.
  induction 1 as [|c cs [b Hb] _ IH]; [reflexivity|].
  rewrite evaluate_record_cons. simpl. unfold holds at 1. rewrite Hb. simpl.
  destruct b; [exact IH|reflexivity].
Qed.

Lemma evaluate_record_permutation (record : gmap str value) (cs cs' : list condition) :
  Forall (returns record) cs -> Permutation cs cs' ->
  evaluate_record record cs = evaluate_record record cs'.
Proof.
  intros Hall Hperm.
  rewrite (evaluate_record_conjunction record cs Hall).
  rewrite (evaluate_record_conjunction record cs')
    by (eapply Permutation_Forall; eassumption).
  f_equal. apply eq_true_iff_eq. rewrite !forallb_forall.
  split; intros H c Hc; apply H.
  - eapply Permutation_in; [symmetry|]; eassumption.
  - eapply Permutation_in; eassumption.
Qed.

(** C8.  The order of the conditions changes the outcome of
    [evaluate_record] once a condition can raise: on the record
    [{a: 1}], the false condition [a = 2] placed first stops the
    conjunction at [False]; placed after [a < 'x'] it is never reached
    and [TypeError] comes out. *)
Theorem evaluate_record_order_dependent :
  let record : gmap str value := {[ lit "a" := Int 1 ]} in
  let c1 : condition := (lit "a", lit "=", Int 2) in
  let c2 : condition := (lit "a", lit "<", Str (lit "x")) in
  Permutation [c1; c2] [c2; c1]
  /\ evaluate_record record [c1; c2] = Ok false
  /\ evaluate_record record [c2; c1] = Raise TypeError.
Proof.
  repeat split; [apply perm_swap|vm_compute; reflexivity..].
Qed.

End Evaluator.

(* ===================================================================== *)
(** * The parser *)
(* ===================================================================== *)

Section Parser.
Import QueryParser.

(** C4.  White space before the keyword is accepted by the guard of
    [parse_query] but not removed before the keyword is cut off: with
    leading blanks the slice [query[5:]] starts in the middle of WHERE.
    The query that parses to one condition without two leading blanks is
    rejected with them, and with one leading blank the last letter of
    the keyword is taken for a field name. *)
Theorem parse_query_leading_whitespace :
  lstrip (lit "  WHERE a = 1") = lit "WHERE a = 1"
  /\ parse_query (lit "WHERE a = 1") = Ok [(lit "a", lit "=", Float one)]
  /\ parse_query (lit "  WHERE a = 1")
     = Raise (ValueError (lit "Invalid condition format: RE a = 1"))
  /\ parse_query (lit " WHERE = 1") = Ok [(lit "E", lit "=", Float one)].
Proof. repeat split; vm_compute; reflexivity. Qed.

(** C9.  A query that does not start with the keyword WHERE, in either
    letter case and leading white space aside, is rejected with the
    error of an invalid query, and so is a query made of the keyword
    alone or of the keyword and blanks. *)
Theorem parse_query_invalid_query :
  (forall query, starts_with_where query = false ->
     parse_query query = Raise (ValueError (lit "Query must start with 'WHERE'")))
  /\ parse_query (lit "WHERE") = Raise (ValueError (lit "No conditions after WHERE"))
  /\ parse_query (lit "WHERE   ") = Raise (ValueError (lit "No conditions after WHERE")).
Proof.
  split; [|split; vm_compute; reflexivity].
  intros query H. unfold parse_query.
  destruct (startswith (upper (strip query)) (lit "WHERE")) eqn:Hguard; [|reflexivity].
  apply where_guard in Hguard. congruence.
Qed.

Lemma parse_query_invalid_query_witness :
  starts_with_where (lit "INVALID QUERY") = false
  /\ parse_query (lit "INVALID QUERY")
     = Raise (ValueError (lit "Query must start with 'WHERE'")).
Proof.
  split; [vm_compute; reflexivity|].
  apply (proj1 parse_query_invalid_query). vm_compute. reflexivity.
Defined.

Lemma rev_last (v : str) (c : char) :
  v <> [] -> rev v = List.last v c :: rev (removelast v).
Proof.
  intros H. rewrite (app_removelast_last c H) at 1.
  rewrite rev_app_distr. reflexivity.
Qed.

(** The test of [parse_value] on the two ends of the literal. *)
Lemma quoted_test (v : str) :
  startswith_any v [[APOSTROPHE]; [QUOTATION_MARK]; [LEFT_SINGLE_QUOTE]]
  && endswith_any v [[APOSTROPHE]; [QUOTATION_MARK]; [RIGHT_SINGLE_QUOTE]]
  = quoted v.
Proof.
  destruct v as [|q v]; [reflexivity|].
  unfold quoted, startswith_any, endswith_any, endswith.
  rewrite (rev_last (q :: v) 0%N) by discriminate.
  unfold Re.one_of, opening_quotes, closing_quotes.
  cbn [existsb startswith rev app].
  rewrite !andb_true_r, !(N.eqb_sym q), !(N.eqb_sym (List.last (q :: v) 0%N)).
  reflexivity.
Qed.

Lemma slice_1_m1_wrapped (q q' : char) (t : str) : slice_1_m1 (q :: t ++ [q']) = t.
Proof. unfold slice_1_m1. simpl. apply removelast_last. Qed.

Lemma quoted_wrapped (q q' : char) (t : str) :
  In q opening_quotes -> In q' closing_quotes -> quoted (q :: t ++ [q']) = true.
Proof.
  intros Hq Hq'. unfold quoted.
  change (q :: t ++ [q']) with ((q :: t) ++ [q']). rewrite last_last.
  apply andb_true_intro. split; apply existsb_exists.
  - exists q. split; [exact Hq|apply N.eqb_refl].
  - exists q'. split; [exact Hq'|apply N.eqb_refl].
Qed.

(** C7.  Value typing rule: a quoted literal is a string, the text
    between its quotes whatever that text is; a bare literal is the
    number [float()] makes of it and is kept as a string only when
    [float()] rejects it; and the quoted ['123'] is the string [123]. *)
Theorem parse_value_typing :
  (forall (q q' : char) (t : str),
     In q opening_quotes -> In q' closing_quotes ->
     parse_value (q :: t ++ [q']) = Str t)
  /\ (forall v, quoted v = true -> parse_value v = Str (slice_1_m1 v))
  /\ (forall v, quoted v = false ->
        parse_value v = match float_of_str v with
                        | Some f => Float f
                        | None => Str v
                        end)
  /\ parse_value (lit "'123'") = Str (lit "123").
Proof.
  split; [|split; [|split]].
  - intros q q' t Hq Hq'. unfold parse_value.
    rewrite quoted_test, quoted_wrapped by assumption.
    rewrite slice_1_m1_wrapped. reflexivity.
  - intros v H. unfold parse_value. rewrite quoted_test, H. reflexivity.
  - intros v H. unfold parse_value. rewrite quoted_test, H. reflexivity.
  - vm_compute. reflexivity.
Qed.

Lemma parse_value_typing_witness :
  parse_value (lit "'12.34'") = Str (lit "12.34")
  /\ parse_value (lit "'true'") = Str (lit "true")
  /\ parse_value (lit "5") = Float (S754_finite false 5629499534213120 (-50))
  /\ parse_value (lit "text") = Str (lit "text").
Proof.
  destruct parse_value_typing as (Hwrapped & Hquoted & Hbare & _).
  split; [|split; [|split]].
  - apply (Hwrapped APOSTROPHE APOSTROPHE (lit "12.34")); simpl; tauto.
  - rewrite (Hquoted (lit "'true'")) by (vm_compute; reflexivity).
    vm_compute. reflexivity.
  - rewrite (Hbare (lit "5")) by (vm_compute; reflexivity).
    vm_compute. reflexivity.
  - rewrite (Hbare (lit "text")) by (vm_compute; reflexivity).
    vm_compute. reflexivity.
Defined.

(** ** The condition pattern *)

Section Spans.
Variable p : char -> bool.

Lemma take_by_lstrip (s : str) : take_by p s ++ lstrip_by p s = s.
Proof.
  induction s as [|c s IH]; simpl; [reflexivity|].
  destruct (p c); simpl; [f_equal; exact IH|reflexivity].
Qed.

Lemma take_by_all (s : str) : forallb p (take_by p s) = true.
Proof.
  induction s as [|c s IH]; simpl; [reflexivity|].
  destruct (p c) eqn:E; simpl; [rewrite E; exact IH|reflexivity].
Qed.

Lemma take_by_stop (s : str) : head_fails p s -> take_by p s = [].
Proof. destruct s as [|c s]; simpl; [reflexivity|]. intros ->. reflexivity. Qed.

Lemma take_by_empty (s : str) : take_by p s = [] -> head_fails p s.
Proof. destruct s as [|c s]; simpl; [trivial|]. destruct (p c); [discriminate|reflexivity]. Qed.

Lemma take_by_span (a b : str) :
  forallb p a = true -> head_fails p b -> take_by p (a ++ b) = a.
Proof.
  intros Ha Hb. induction a as [|c a IH]; simpl in *.
  - apply take_by_stop, Hb.
  - apply andb_prop in Ha as [-> Ha]. f_equal. exact (IH Ha).
Qed.

Lemma lstrip_by_span (a b : str) :
  forallb p a = true -> head_fails p b -> lstrip_by p (a ++ b) = b.
Proof.
  intros Ha Hb. induction a as [|c a IH]; simpl in *.
  - apply lstrip_by_stop, Hb.
  - apply andb_prop in Ha as [-> Ha]. exact (IH Ha).
Qed.

End Spans.

Section Backtracking.
Context {R : Type}.
Implicit Types (k : @Re.cont R) (g : list str) (p : char -> bool).

Lemma or_else_none (a : option R) : Re.or_else a None = a.
Proof. destruct a; reflexivity. Qed.

Lemma star_ext p s g k1 k2 :
  (forall s' g', k1 s' g' = k2 s' g') -> Re.star p s g k1 = Re.star p s g k2.
Proof.
  intros H. induction s as [|c s IH]; simpl; [apply H|].
  rewrite IH, H. reflexivity.
Qed.

Lemma run_ext r : forall s g k1 k2,
  (forall s' g', k1 s' g' = k2 s' g') -> Re.run r s g k1 = Re.run r s g k2.
Proof.
  induction r as [p|p|p|p|r1 IH1 r2 IH2|r1 IH1 r2 IH2|r1 IH1]; intros s g k1 k2 H; simpl.
  - destruct s as [|c s]; [reflexivity|]. rewrite H. reflexivity.
  - destruct s as [|c s]; [apply H|]. rewrite !H. reflexivity.
  - apply star_ext, H.
  - destruct s as [|c s]; [reflexivity|]. rewrite (star_ext p s g k1 k2 H). reflexivity.
  - apply IH1. intros s' g'. apply IH2, H.
  - rewrite (IH1 s g k1 k2 H), (IH2 s g k1 k2 H). reflexivity.
  - apply IH1. intros s' g'. apply H.
Qed.

(** A repetition whose shorter attempts all fail stands or falls with
    the longest one. *)
Lemma star_only_end p (a b : str) g k :
  forallb p a = true -> head_fails p b ->
  (forall a1 c a2, a = a1 ++ c :: a2 -> k (c :: a2 ++ b) g = None) ->
  Re.star p (a ++ b) g k = k b g.
Proof.
  induction a as [|c a IH]; intros Ha Hb Hk.
  - apply star_stop, Hb.
  - simpl in Ha. apply andb_prop in Ha as [Hc Ha]. simpl. rewrite Hc.
    rewrite IH; [|exact Ha|exact Hb|].
    + rewrite (Hk [] c a eq_refl). apply or_else_none.
    + intros a1 c' a2 ->. apply (Hk (c :: a1) c' a2). reflexivity.
Qed.

Lemma star_prefix_some p (a b : str) g k x :
  forallb p a = true -> Re.star p b g k = Some x -> Re.star p (a ++ b) g k = Some x.
Proof.
  intros Ha Hb. induction a as [|c a IH]; simpl in *; [exact Hb|].
  apply andb_prop in Ha as [-> Ha]. rewrite (IH Ha). reflexivity.
Qed.

Lemma plus_none p s g k : head_fails p s -> Re.run (Re.Plus p) s g k = None.
Proof. destruct s as [|c s]; simpl; [reflexivity|]. intros ->. reflexivity. Qed.

Lemma literal_run (op : str) : forall s g k,
  op <> [] ->
  Re.run (Re.literal op) s g k
  = if startswith s op then k (skipn (length op) s) g else None.
Proof.
  unfold Re.literal.
  induction op as [|c op IH]; intros s g k Hne; [congruence|].
  destruct op as [|d op].
  - destruct s as [|x s]; simpl; [reflexivity|].
    rewrite andb_true_r. reflexivity.
  - change (Re.seq (List.map Re.chr (c :: d :: op)))
      with (Re.Seq (Re.chr c) (Re.seq (List.map Re.chr (d :: op)))).
    destruct s as [|x s]; [reflexivity|].
    cbn [Re.run Re.chr]. cbn [startswith length skipn].
    destruct (c =? x)%N; [|reflexivity].
    rewrite IH by discriminate. reflexivity.
Qed.

Lemma opt_run p (x : char) (s : str) g k :
  Re.run (Re.Opt p) (x :: s) g k
  = if p x then Re.or_else (k s g) (k (x :: s) g) else k (x :: s) g.
Proof. reflexivity. Qed.

Lemma consumed_skipn (s op : str) :
  startswith s op = true -> Re.consumed s (skipn (length op) s) = op.
Proof.
  intros H. apply startswith_inv in H as [rest ->].
  rewrite skipn_app, skipn_all, Nat.sub_diag. simpl. apply consumed_app.
Qed.

End Backtracking.

Section ConditionRule.
Local Open Scope N_scope.

Lemma unquoted_head (s : str) : head_fails unquoted s ->
  s = [] \/ exists q s', s = q :: s' /\ plain_quote q = true.
Proof.
  destruct s as [|q s']; [auto|]. simpl. unfold unquoted.
  intros H. apply negb_false_iff in H. right. eauto.
Qed.

(** Behind the optional opening quote: a run without apostrophe or
    quotation mark, then the closing quote if there is one. *)
Lemma value_run_some (pre s1 : str) g :
  take_by unquoted s1 <> [] ->
  Re.run (Re.Plus unquoted) s1 g
    (fun s2 g2 => Re.run (Re.Opt (Re.one_of closing_quotes)) s2 g2
       (fun s3 g3 => Some (g3 ++ [Re.consumed (pre ++ s1) s3])))
  = Some (g ++ [pre ++ take_by unquoted s1 ++ firstn 1 (lstrip_by unquoted s1)]).
Proof.
  intros Hne.
  pose proof (take_by_lstrip unquoted s1) as Hs.
  pose proof (lstrip_by_head unquoted s1) as Hh.
  pose proof (take_by_all unquoted s1) as Ht.
  set (t := take_by unquoted s1) in *. set (rest := lstrip_by unquoted s1) in *.
  rewrite <- Hs at 1.
  apply plus_greedy; [exact Hne|exact Ht|exact Hh|].
  destruct (unquoted_head rest Hh) as [->|(q & rest' & -> & Hq)].
  - simpl. f_equal. f_equal. f_equal. rewrite <- Hs, !app_nil_r.
    unfold Re.consumed. simpl. rewrite Nat.sub_0_r. apply firstn_all.
  - apply opt_take; [apply plain_quote_closing, Hq|].
    f_equal. f_equal. f_equal. rewrite <- Hs. cbn [firstn].
    replace (pre ++ t ++ q :: rest') with ((pre ++ t ++ [q]) ++ rest')
      by (rewrite <- !app_assoc; reflexivity).
    apply consumed_app.
Qed.

Lemma value_run_none (s1 : str) g (k : @Re.cont (list str)) :
  take_by unquoted s1 = [] -> Re.run (Re.Plus unquoted) s1 g k = None.
Proof. intros H. apply plus_none, take_by_empty, H. Qed.

Lemma plain_is_opening q : plain_quote q = true -> Re.one_of opening_quotes q = true.
Proof.
  intros H. unfold opening_quotes, Re.one_of. cbn [existsb].
  rewrite !orb_true_iff, !N.eqb_eq. class_facts; lia.
Qed.

Lemma value_group_run (s : str) g :
  Re.run VALUE_GROUP s g (fun _ g5 => Some g5) = option_map (fun raw => g ++ [raw]) (value_at s).
Proof.
  change (Re.run (Re.Opt (Re.one_of opening_quotes)) s g
            (fun s1 g1 => Re.run (Re.Plus unquoted) s1 g1
               (fun s2 g2 => Re.run (Re.Opt (Re.one_of closing_quotes)) s2 g2
                  (fun s3 g3 => Some (g3 ++ [Re.consumed s s3]))))
          = option_map (fun raw => g ++ [raw]) (value_at s)).
  destruct s as [|x s']; [reflexivity|].
  rewrite opt_run. cbv beta. cbn [value_at]. unfold starts_value, run_to_quote.
  destruct (take_by unquoted s') as [|y t'] eqn:Ht.
  - (* nothing to take behind [x] *)
    assert (Hs' : match s' with [] => true | y :: _ => plain_quote y end = true).
    { apply take_by_empty in Ht. destruct s' as [|y s'']; [reflexivity|].
      simpl in Ht. unfold unquoted in Ht. apply negb_false_iff, Ht. }
    rewrite Hs', andb_true_r.
    rewrite (value_run_none s') by exact Ht.
    destruct (plain_quote x) eqn:Hx.
    + rewrite (plain_is_opening x Hx). cbn [Re.or_else negb option_map].
      apply value_run_none. cbn [take_by]. unfold unquoted. rewrite Hx. reflexivity.
    + assert (Hux : unquoted x = true) by (unfold unquoted; rewrite Hx; reflexivity).
      assert (Hrun : Re.run (Re.Plus unquoted) (x :: s') g
                (fun s2 g2 => Re.run (Re.Opt (Re.one_of closing_quotes)) s2 g2
                   (fun s3 g3 => Some (g3 ++ [Re.consumed ([] ++ x :: s') s3])))
              = Some (g ++ [x :: firstn 1 (lstrip_by unquoted s')])).
      { rewrite (value_run_some [] (x :: s')).
        - cbn [take_by lstrip_by app]. rewrite Hux, Ht. reflexivity.
        - cbn [take_by]. rewrite Hux. discriminate. }
      cbn [app] in Hrun.
      destruct (Re.one_of opening_quotes x); cbn [Re.or_else negb option_map app];
        exact Hrun.
  - (* a run behind [x] *)
    assert (Hs' : match s' with [] => true | y :: _ => plain_quote y end = false).
    { destruct s' as [|z s'']; [discriminate|]. simpl in Ht.
      unfold unquoted in Ht. destruct (plain_quote z); [discriminate|reflexivity]. }
    rewrite Hs', andb_false_r. cbn [negb option_map].
    destruct (Re.one_of opening_quotes x) eqn:Ho.
    + pose proof (value_run_some [x] s' g) as Hrun.
      rewrite Ht in Hrun. cbn [app] in Hrun. cbn [app].
      rewrite Hrun by discriminate. reflexivity.
    + assert (Hx : plain_quote x = false).
      { destruct (plain_quote x) eqn:Hx; [|reflexivity].
        rewrite (plain_is_opening x Hx) in Ho. discriminate. }
      assert (Hux : unquoted x = true) by (unfold unquoted; rewrite Hx; reflexivity).
      assert (Hne : take_by unquoted (x :: s') <> [])
        by (cbn [take_by]; rewrite Hux; discriminate).
      etransitivity; [exact (value_run_some [] (x :: s') g Hne)|].
      cbn [take_by lstrip_by app]. rewrite Hux, Ht. reflexivity.
Qed.

Lemma space_unquoted w : isspace w = true -> plain_quote w = false.
Proof.
  intros H. destruct (plain_quote w) eqn:Hq; [|reflexivity].
  apply plain_quote_not_space in Hq. congruence.
Qed.

Lemma value_at_none (s : str) : value_at s = None -> take_by unquoted s = [].
Proof.
  destruct s as [|x s']; [reflexivity|]. cbn [value_at take_by]. unfold starts_value.
  destruct (plain_quote x) eqn:Hx.
  - intros _. unfold unquoted. rewrite Hx. reflexivity.
  - discriminate.
Qed.

(** The white space behind the operator, then the value. *)
Lemma value_after_run (r : str) g :
  Re.star isspace r g (fun s4 g4 => Re.run VALUE_GROUP s4 g4 (fun _ g5 => Some g5))
  = option_map (fun raw => g ++ [raw]) (value_after r).
Proof.
  rewrite (star_ext isspace r g _
             (fun s4 g4 => option_map (fun raw => g4 ++ [raw]) (value_at s4)))
    by (intros; apply value_group_run).
  unfold value_after.
  pose proof (take_by_lstrip isspace r) as Hr.
  pose proof (take_by_all isspace r) as Hws.
  pose proof (lstrip_by_head isspace r) as Hh.
  set (ws := take_by isspace r) in *. set (r' := lstrip_by isspace r) in *.
  rewrite <- Hr at 1.
  destruct (value_at r') as [raw|] eqn:Hv.
  - apply star_greedy; [exact Hws|exact Hh|]. rewrite Hv. reflexivity.
  - destruct ws as [|w0 ws0] eqn:Ews.
    + cbn [app]. rewrite star_stop by exact Hh. rewrite Hv. reflexivity.
    + assert (Hne : w0 :: ws0 <> []) by discriminate.
      rewrite (app_removelast_last 0 Hne) in Hws |- *.
      set (w := List.last (w0 :: ws0) 0) in *.
      rewrite forallb_app in Hws. apply andb_prop in Hws as [Hws' Hw].
      simpl in Hw. rewrite andb_true_r in Hw.
      rewrite <- app_assoc. apply star_prefix_some; [exact Hws'|].
      cbn [app Re.star]. rewrite Hw.
      rewrite star_stop by exact Hh. rewrite Hv. cbn [option_map Re.or_else value_at].
      unfold starts_value. rewrite (space_unquoted w Hw). cbn [andb negb option_map].
      unfold run_to_quote. rewrite (value_at_none r' Hv). cbn [app].
      rewrite lstrip_by_stop by (apply take_by_empty, value_at_none, Hv).
      rewrite last_last. reflexivity.
Qed.

(** The six alternatives of the operator group, from the left. *)
Lemma operator_group_run {R} (s : str) g (k : @Re.cont R) :
  Re.run OPERATOR_GROUP s g k
  = Re.or_else (if startswith s (lit "=") then k (skipn 1 s) (g ++ [lit "="]) else None)
   (Re.or_else (if startswith s (lit "!=") then k (skipn 2 s) (g ++ [lit "!="]) else None)
   (Re.or_else (if startswith s (lit "<=") then k (skipn 2 s) (g ++ [lit "<="]) else None)
   (Re.or_else (if startswith s (lit ">=") then k (skipn 2 s) (g ++ [lit ">="]) else None)
   (Re.or_else (if startswith s (lit "<") then k (skipn 1 s) (g ++ [lit "<"]) else None)
               (if startswith s (lit ">") then k (skipn 1 s) (g ++ [lit ">"]) else None))))).
Proof.
  assert (Hone : forall op, op <> [] ->
            Re.run (Re.literal op) s g (fun s' g' => k s' (g' ++ [Re.consumed s s']))
            = if startswith s op then k (skipn (length op) s) (g ++ [op]) else None).
  { intros op Hop. rewrite literal_run by exact Hop.
    destruct (startswith s op) eqn:E; [|reflexivity].
    rewrite (consumed_skipn s op E). reflexivity. }
  change (Re.run OPERATOR_GROUP s g k)
    with (Re.or_else (Re.run (Re.literal (lit "=")) s g (fun s' g' => k s' (g' ++ [Re.consumed s s'])))
         (Re.or_else (Re.run (Re.literal (lit "!=")) s g (fun s' g' => k s' (g' ++ [Re.consumed s s'])))
         (Re.or_else (Re.run (Re.literal (lit "<=")) s g (fun s' g' => k s' (g' ++ [Re.consumed s s'])))
         (Re.or_else (Re.run (Re.literal (lit ">=")) s g (fun s' g' => k s' (g' ++ [Re.consumed s s'])))
         (Re.or_else (Re.run (Re.literal (lit "<")) s g (fun s' g' => k s' (g' ++ [Re.consumed s s'])))
                     (Re.run (Re.literal (lit ">")) s g (fun s' g' => k s' (g' ++ [Re.consumed s s'])))))))).
  rewrite !Hone by discriminate. reflexivity.
Qed.

Lemma operator_at_run (s : str) g :
  Re.run OPERATOR_GROUP s g
    (fun s3 g3 => Re.star isspace s3 g3 (fun s4 g4 => Re.run VALUE_GROUP s4 g4 (fun _ g5 => Some g5)))
  = option_map (fun '(op, raw) => g ++ [op; raw]) (operator_at OPERATORS_IN_ORDER s).
Proof.
  rewrite (run_ext OPERATOR_GROUP s g _
             (fun s3 g3 => option_map (fun raw => g3 ++ [raw]) (value_after s3)))
    by (intros; apply value_after_run).
  rewrite operator_group_run. unfold OPERATORS_IN_ORDER. cbn [operator_at].
  change (length (lit "=")) with 1%nat. change (length (lit "!=")) with 2%nat.
  change (length (lit "<=")) with 2%nat. change (length (lit ">=")) with 2%nat.
  change (length (lit "<")) with 1%nat. change (length (lit ">")) with 1%nat.
  repeat match goal with
  | |- context [if startswith s ?op then _ else _] => destruct (startswith s op)
  | |- context [value_after ?r] => destruct (value_after r)
  end; cbn [Re.or_else option_map]; rewrite <- ?app_assoc; reflexivity.
Qed.

Lemma operator_at_head (c : char) (s : str) :
  (61 =? c) = false -> (33 =? c) = false -> (60 =? c) = false -> (62 =? c) = false ->
  operator_at OPERATORS_IN_ORDER (c :: s) = None.
Proof.
  intros H1 H2 H3 H4. unfold OPERATORS_IN_ORDER. eval_lit.
  cbn [operator_at startswith]. rewrite H1, H2, H3, H4. reflexivity.
Qed.

Lemma operator_at_space (c : char) (s : str) :
  isspace c = true -> operator_at OPERATORS_IN_ORDER (c :: s) = None.
Proof.
  intros H. apply operator_at_head; apply N.eqb_neq; class_facts; lia.
Qed.

Lemma operator_at_word (c : char) (s : str) :
  isword c = true -> operator_at OPERATORS_IN_ORDER (c :: s) = None.
Proof.
  intros H. apply operator_at_head; rewrite N.eqb_sym;
    apply word_is_not; first [exact H | vm_compute; reflexivity].
Qed.

Lemma operator_at_in ops (s op raw : str) :
  operator_at ops s = Some (op, raw) ->
  In op ops /\ startswith s op = true /\ value_after (skipn (length op) s) = Some raw.
Proof.
  induction ops as [|o ops IH]; [discriminate|]. cbn [operator_at].
  destruct (startswith s o) eqn:Hs.
  - destruct (value_after (skipn (length o) s)) as [raw'|] eqn:Hv.
    + intros [= <- <-]. split; [left; reflexivity|]. split; assumption.
    + intros H. destruct (IH H) as (Hin & H'). split; [right; exact Hin|exact H'].
  - intros H. destruct (IH H) as (Hin & H'). split; [right; exact Hin|exact H'].
Qed.

(** The pattern reads a condition as [read_condition] does. *)
Lemma condition_groups_read (s : str) :
  Re.groups CONDITION_PATTERN s
  = option_map (fun '(field, op, raw) => [field; op; raw]) (read_condition s).
Proof.
  change (Re.run (Re.Plus isword) s []
            (fun s1 g1 =>
               Re.star isspace s1 (g1 ++ [Re.consumed s s1])
                 (fun s2 g2 => Re.run OPERATOR_GROUP s2 g2
                    (fun s3 g3 => Re.star isspace s3 g3
                       (fun s4 g4 => Re.run VALUE_GROUP s4 g4 (fun _ g5 => Some g5)))))
          = option_map (fun '(field, op, raw) => [field; op; raw]) (read_condition s)).
  rewrite (run_ext (Re.Plus isword) s [] _
             (fun s1 g1 =>
                Re.star isspace s1 (g1 ++ [Re.consumed s s1])
                  (fun s2 g2 => option_map (fun '(op, raw) => g2 ++ [op; raw])
                                  (operator_at OPERATORS_IN_ORDER s2)))).
  2:{ intros s1 g1. apply star_ext. intros s2 g2. apply operator_at_run. }
  unfold read_condition.
  destruct s as [|c s']; [reflexivity|].
  cbn [Re.run take_by lstrip_by]. destruct (isword c) eqn:Hc; [|reflexivity].
  pose proof (take_by_lstrip isword s') as Hs.
  pose proof (take_by_all isword s') as Hf.
  pose proof (lstrip_by_head isword s') as Hh.
  set (f := take_by isword s') in *. set (s1 := lstrip_by isword s') in *.
  rewrite <- Hs at 1.
  rewrite star_only_end; [|exact Hf|exact Hh|].
  - (* the field is [c :: f] *)
    assert (Hcons : Re.consumed (c :: s') s1 = c :: f).
    { rewrite <- Hs. apply (consumed_app (c :: f) s1). }
    rewrite Hcons. cbn [app].
    pose proof (take_by_lstrip isspace s1) as Hs1.
    pose proof (take_by_all isspace s1) as Hw.
    pose proof (lstrip_by_head isspace s1) as Hh1.
    set (ws := take_by isspace s1) in *. set (s2 := lstrip_by isspace s1) in *.
    rewrite <- Hs1 at 1.
    rewrite star_only_end; [|exact Hw|exact Hh1|].
    + destruct (operator_at OPERATORS_IN_ORDER s2) as [[op raw]|]; reflexivity.
    + intros a1 w a2 Ha.
      assert (Hsp : isspace w = true).
      { rewrite Ha, forallb_app in Hw. apply andb_prop in Hw as [_ Hw].
        simpl in Hw. apply andb_prop in Hw as [Hw _]. exact Hw. }
      rewrite (operator_at_space w _ Hsp). reflexivity.
  - intros a1 x a2 Ha.
    assert (Hx : isword x = true).
    { rewrite Ha, forallb_app in Hf. apply andb_prop in Hf as [_ Hf].
      simpl in Hf. apply andb_prop in Hf as [Hf _]. exact Hf. }
    rewrite star_stop by (simpl; apply isword_not_space, Hx).
    rewrite (operator_at_word x _ Hx). reflexivity.
Qed.

Lemma operators_in_order_supported (op : str) :
  In op OPERATORS_IN_ORDER -> exists f, lookup SUPPORTED_OPERATORS op = Some f.
Proof.
  intros H. simpl in H.
  repeat (destruct H as [<-|H]; [eexists; vm_compute; reflexivity|]).
  destruct H.
Qed.

Lemma parse_condition_read (cond : str) :
  parse_condition cond
  = match read_condition (strip cond) with
    | Some (field, op, raw) => Ok (field, op, parse_value raw)
    | None => Raise (ValueError (lit "Invalid condition format: " ++ cond))
    end.
Proof.
  unfold parse_condition. rewrite condition_groups_read.
  destruct (read_condition (strip cond)) as [[[field op] raw]|] eqn:Hr; [|reflexivity].
  cbn [option_map].
  assert (Hop : In op OPERATORS_IN_ORDER).
  { unfold read_condition in Hr.
    destruct (take_by isword (strip cond)); [discriminate|].
    destruct (operator_at _ _) as [[op' raw']|] eqn:Ho; [|discriminate].
    injection Hr as _ <- _. apply (operator_at_in _ _ _ _ Ho). }
  destruct (operators_in_order_supported op Hop) as [f ->]. reflexivity.
Qed.


Lemma value_after_direct (ws2 : str) (x : char) (v : str) :
  forallb isspace ws2 = true -> isspace x = false -> starts_value x v = true ->
  value_after (ws2 ++ x :: v) = Some (run_to_quote x v).
Proof.
  intros Hws Hx Hv. unfold value_after.
  rewrite (lstrip_by_span isspace ws2 (x :: v)) by assumption.
  cbn [value_at]. rewrite Hv. reflexivity.
Qed.

(** The alternatives settle on [op] when a value follows and no equals
    sign turns [<] or [>] into [<=] or [>=]. *)
Lemma operator_at_chosen (op tail raw : str) :
  In op operator_set -> value_after tail = Some raw ->
  (In op [lit "<"; lit ">"] -> head_fails (N.eqb 61) tail) ->
  operator_at OPERATORS_IN_ORDER (op ++ tail) = Some (op, raw).
Proof.
  intros Hop Hv H61. unfold OPERATORS_IN_ORDER. cbn [operator_at].
  unfold operator_set in Hop. eval_lit. simpl in Hop.
  destruct Hop as [<-|[<-|[<-|[<-|[<-|[<-|[]]]]]]];
    cbn [startswith app length skipn]; eqb_consts; cbn [andb];
    rewrite ?skipn_O, ?Hv; try reflexivity.
  - specialize (H61 (or_introl eq_refl)).
    destruct tail as [|t0 tail]; [reflexivity|]. change ((61 =? t0) = false) in H61. rewrite H61. reflexivity.
  - specialize (H61 (or_intror (or_introl eq_refl))).
    destruct tail as [|t0 tail]; [reflexivity|]. change ((61 =? t0) = false) in H61. rewrite H61. reflexivity.
Qed.

Lemma read_condition_spaced (field ws1 op ws2 : str) (x : char) (v : str) :
  field <> [] -> forallb isword field = true ->
  forallb isspace ws1 = true -> In op operator_set -> forallb isspace ws2 = true ->
  isspace x = false -> starts_value x v = true ->
  (In op [lit "<"; lit ">"] -> x <> 61) ->
  read_condition (field ++ ws1 ++ op ++ ws2 ++ x :: v)
  = Some (field, op, run_to_quote x v).
Proof.
  intros Hne Hf Hw1 Hop Hw2 Hx Hv H61.
  destruct (operator_head op Hop) as (c0 & op' & Eop & Hc0w & Hc0s).
  assert (Htail : head_fails isword (ws1 ++ op ++ ws2 ++ x :: v)).
  { apply head_fails_spaces; [exact space_not_word|exact Hw1|].
    rewrite Eop. exact Hc0w. }
  unfold read_condition.
  rewrite (take_by_span isword field _ Hf Htail).
  rewrite (lstrip_by_span isword field _ Hf Htail).
  rewrite (lstrip_by_span isspace ws1 (op ++ ws2 ++ x :: v)) by
    (try exact Hw1; rewrite Eop; exact Hc0s).
  rewrite (operator_at_chosen op (ws2 ++ x :: v) (run_to_quote x v)).
  - destruct field; [congruence|reflexivity].
  - exact Hop.
  - apply value_after_direct; assumption.
  - intros Hlt. apply head_fails_spaces; [exact space_not_equals|exact Hw2|].
    change ((61 =? x) = false). apply N.eqb_neq. intros E. apply (H61 Hlt).
    symmetry. exact E.
Qed.

Lemma strip_condition (field tail : str) :
  field <> [] -> forallb isword field = true ->
  tail <> [] -> isspace (List.last tail 0) = false ->
  strip (field ++ tail) = field ++ tail.
Proof.
  intros Hne Hf Ht Hlast.
  pose proof (strip_by_spec isspace [] (field ++ tail) []) as H.
  rewrite app_nil_r in H. apply H; try reflexivity.
  - destruct field as [|f0 field]; [congruence|]. simpl in *.
    apply andb_prop in Hf as [Hf0 _]. apply isword_not_space, Hf0.
  - rewrite rev_app_distr, (rev_last tail 0 Ht). exact Hlast.
Qed.

Lemma last_behind (a : str) (x : char) (v : str) :
  List.last (a ++ x :: v) 0 = List.last (x :: v) 0.
Proof.
  induction a as [|c a IH]; [reflexivity|].
  change ((c :: a) ++ x :: v) with (c :: (a ++ x :: v)).
  destruct (a ++ x :: v) eqn:E; [destruct a; discriminate|]. exact IH.
Qed.

Lemma parse_condition_spaced (field ws1 op ws2 : str) (x : char) (v : str) :
  field <> [] -> forallb isword field = true ->
  forallb isspace ws1 = true -> In op operator_set -> forallb isspace ws2 = true ->
  isspace x = false -> isspace (List.last (x :: v) 0) = false ->
  starts_value x v = true ->
  (In op [lit "<"; lit ">"] -> x <> 61) ->
  parse_condition (field ++ ws1 ++ op ++ ws2 ++ x :: v)
  = Ok (field, op, parse_value (run_to_quote x v)).
Proof.
  intros Hne Hf Hw1 Hop Hw2 Hx Hlast Hv H61.
  rewrite parse_condition_read.
  rewrite strip_condition; [|exact Hne|exact Hf| |].
  - rewrite read_condition_spaced by assumption. reflexivity.
  - destruct ws1; [destruct op; [|discriminate]|discriminate].
    destruct ws2; discriminate.
  - rewrite (app_assoc ws1), (app_assoc (ws1 ++ op)), last_behind. exact Hlast.
Qed.

End ConditionRule.




(** C6, as the code has it.  For every bare literal the numeric
    conversion succeeds exactly when the literal reads as a float
    literal, a white space character outside ASCII being read as a blank
    and a decimal digit of any script as the ASCII digit of its value:
    between blanks, an optional sign and then either a decimal number
    with an optional fractional part and an optional exponent, single
    underscores allowed between digits, or one of [inf], [infinity],
    [nan] in any letter case.  Every other bare literal is kept as a
    string, unchanged. *)
Theorem bare_literal_numeric_grammar (v : str) :
  quoted v = false ->
  (float_literal (float_text v) <-> exists f, parse_value v = Float f)
  /\ (~ float_literal (float_text v) -> parse_value v = Str v).
Proof.
  intros Hq.
  pose proof (float_of_str_accepts v) as Hacc.
  unfold parse_value. rewrite quoted_test, Hq.
  split; [split|].
  - intros H. apply Hacc in H as [f Hf]. rewrite Hf. eauto.
  - intros [f H]. apply Hacc.
    destruct (float_of_str v) as [f'|]; [eauto|discriminate].
  - intros H. destruct (float_of_str v) as [f|] eqn:Hf; [|reflexivity].
    exfalso. apply H, Hacc. eauto.
Qed.

(** The literal [1e5] is a float literal, number [1] and exponent [e5],
    and is converted; so is the literal made of the Arabic-Indic digits
    one, two, three, which reads as [123]. *)
Lemma bare_literal_numeric_grammar_witness :
  (quoted (lit "1e5") = false
   /\ float_literal (float_text (lit "1e5")) /\ exists f, parse_value (lit "1e5") = Float f)
  /\ (quoted [1633; 1634; 1635]%N = false
      /\ float_text [1633; 1634; 1635]%N = lit "123"
      /\ exists f, parse_value [1633; 1634; 1635]%N = Float f).
Proof.
  assert (H : float_literal (lit "1e5")).
  { exists [], (lit "1e5"). split; [vm_compute; reflexivity|].
    split; [constructor|]. right.
    exists (lit "1"), (lit "e5"). split; [reflexivity|].
    split.
    - apply number_int, digitpart_one. reflexivity.
    - apply (exponent_some 101%N [] (lit "5"));
        [left; reflexivity|constructor|apply digitpart_one; reflexivity]. }
  assert (H' : float_literal (lit "123")).
  { exists [], (lit "123"). split; [vm_compute; reflexivity|].
    split; [constructor|]. right.
    exists (lit "123"), []. split; [reflexivity|].
    split; [|constructor].
    apply number_int. apply digitpart_next; [reflexivity|].
    apply digitpart_next; [reflexivity|]. apply digitpart_one. reflexivity. }
  split.
  - split; [reflexivity|]. split; [exact H|].
    apply (bare_literal_numeric_grammar (lit "1e5")); [reflexivity|exact H].
  - split; [reflexivity|]. split; [vm_compute; reflexivity|].
    apply (bare_literal_numeric_grammar [1633; 1634; 1635]%N); [reflexivity|exact H'].
Defined.

(** C6, as the specification words it, fails.  [1e5] is not a decimal
    number with an optional sign and an optional fractional part, and
    [nan] is alphabetic text; both are converted.  And a literal that is
    not converted is kept with the blanks it has. *)
Lemma bare_literal_counterexample :
  (decimal_literal (lit "1e5") = false /\ quoted (lit "1e5") = false
   /\ parse_value (lit "1e5") = Float (S754_finite false 6871947673600000 (-36))
   /\ parse_value (lit "1e5") <> Str (lit "1e5"))
  /\ (decimal_literal (lit "nan") = false /\ quoted (lit "nan") = false
   /\ parse_value (lit "nan") = Float S754_nan)
  /\ (quoted (lit " abc ") = false
   /\ parse_value (lit " abc ") = Str (lit " abc ")
   /\ parse_value (lit " abc ") <> Str (strip (lit " abc "))).
Proof.
  repeat match goal with |- _ /\ _ => split end;
    try (vm_compute; reflexivity);
    vm_compute; intros H; discriminate H.
Qed.

End Parser.

(* ===================================================================== *)
(** * The store and the two pipelines *)
(* ===================================================================== *)

Section Store.

(** C5.  The two implementations disagree.  On the sample records the
    lower-case keyword is rejected by [query_vessels] and accepted by the
    class-based pipeline, and a lower-case [and] is a separator for the
    class-based pipeline only: [query_vessels] takes the rest of the
    query as the value of the first condition and finds nothing. *)
Theorem pipelines_differ :
  let q1 := lit "where Z13_STATUS_CODE = 4" in
  let q2 := lit "WHERE Z13_STATUS_CODE = 4 and BUILDER_GROUP = 'Guoyu Logistics'" in
  let self := Database.mk sample_vessels [] in
  (OldMain.query_vessels sample_vessels q1
     = Raise (ValueError (lit "Query must start with 'WHERE'"))
   /\ fst (Database.query self q1) = Ok [vessel_1])
  /\ (OldMain.query_vessels sample_vessels q2 = Ok []
   /\ fst (Database.query self q2) = Ok [vessel_1])
  /\ OldMain.query_vessels sample_vessels q1 <> fst (Database.query self q1)
  /\ OldMain.query_vessels sample_vessels q2 <> fst (Database.query self q2).
Proof.
  assert (H1 : OldMain.query_vessels sample_vessels (lit "where Z13_STATUS_CODE = 4")
               = Raise (ValueError (lit "Query must start with 'WHERE'")))
    by (vm_compute; reflexivity).
  assert (H2 : fst (Database.query (Database.mk sample_vessels [])
                      (lit "where Z13_STATUS_CODE = 4")) = Ok [vessel_1])
    by (vm_compute; reflexivity).
  assert (H3 : OldMain.query_vessels sample_vessels
                 (lit "WHERE Z13_STATUS_CODE = 4 and BUILDER_GROUP = 'Guoyu Logistics'")
               = Ok []) by (vm_compute; reflexivity).
  assert (H4 : fst (Database.query (Database.mk sample_vessels [])
                 (lit "WHERE Z13_STATUS_CODE = 4 and BUILDER_GROUP = 'Guoyu Logistics'"))
               = Ok [vessel_1]) by (vm_compute; reflexivity).
  cbv zeta. rewrite H1, H2, H3, H4.
  repeat split; discriminate.
Qed.

End Store.

(* ===================================================================== *)
(** * Further properties: the matcher *)
(* ===================================================================== *)

Section Soundness.
Context {R : Type}.
Implicit Types (k : @Re.cont R) (g : list str).

Lemma or_else_some (a b : option R) x :
  Re.or_else a b = Some x -> a = Some x \/ b = Some x.
Proof. destruct a; simpl; auto. Qed.

(** The matcher is sound for the relation [matches]: when a run succeeds,
    the text is cut into what the expression matched and what the
    continuation was given. *)
Lemma star_sound p s g k x :
  Re.star p s g k = Some x ->
  exists a rest, s = a ++ rest /\ forallb p a = true /\ k rest g = Some x.
Proof.
  induction s as [|c s IH]; simpl; intros H.
  - exists [], []. auto.
  - destruct (p c) eqn:Hc.
    + apply or_else_some in H as [H|H].
      * destruct (IH H) as (a & rest & -> & Ha & Hk).
        exists (c :: a), rest. simpl. rewrite Hc. auto.
      * exists [], (c :: s). auto.
    + exists [], (c :: s). auto.
Qed.

Lemma run_sound r : forall s g k x,
  Re.run r s g k = Some x ->
  exists a rest g1, s = a ++ rest /\ matches r a g1 /\ k rest (g ++ g1) = Some x.
Proof.
  induction r as [p|p|p|p|r1 IH1 r2 IH2|r1 IH1 r2 IH2|r IH]; intros s g k x H; simpl in H.
  - destruct s as [|c s]; [discriminate|]. destruct (p c) eqn:Hc; [|discriminate].
    exists [c], s, []. rewrite (app_nil_r g). repeat split; [constructor|]; assumption.
  - destruct s as [|c s].
    + exists [], [], []. rewrite (app_nil_r g). repeat split; [constructor|assumption].
    + destruct (p c) eqn:Hc.
      * apply or_else_some in H as [H|H].
        -- exists [c], s, []. rewrite (app_nil_r g). repeat split; [constructor|]; assumption.
        -- exists [], (c :: s), []. rewrite (app_nil_r g). repeat split; [constructor|assumption].
      * exists [], (c :: s), []. rewrite (app_nil_r g). repeat split; [constructor|assumption].
  - apply star_sound in H as (a & rest & -> & Ha & Hk).
    exists a, rest, []. rewrite (app_nil_r g). repeat split; [constructor|]; assumption.
  - destruct s as [|c s]; [discriminate|]. destruct (p c) eqn:Hc; [|discriminate].
    apply star_sound in H as (a & rest & -> & Ha & Hk).
    exists (c :: a), rest, []. rewrite (app_nil_r g). repeat split; [|assumption].
    constructor. simpl. rewrite Hc. exact Ha.
  - apply IH1 in H as (a & rest & g1 & -> & Ha & H).
    apply IH2 in H as (b & rest' & g2 & -> & Hb & H).
    exists (a ++ b), rest', (g1 ++ g2). rewrite <- !app_assoc.
    repeat split; [constructor; assumption|]. rewrite <- app_assoc in H. exact H.
  - apply or_else_some in H as [H|H].
    + apply IH1 in H as (a & rest & g1 & -> & Ha & H).
      exists a, rest, g1. repeat split; [apply matches_alt_left|]; assumption.
    + apply IH2 in H as (a & rest & g1 & -> & Ha & H).
      exists a, rest, g1. repeat split; [apply matches_alt_right|]; assumption.
  - apply IH in H as (a & rest & g1 & -> & Ha & H).
    rewrite consumed_app, <- app_assoc in H.
    exists a, rest, (g1 ++ [a]). repeat split; [constructor|]; assumption.
Qed.

End Soundness.

Lemma groups_sound r s gs :
  Re.groups r s = Some gs -> exists a rest, s = a ++ rest /\ matches r a gs.
Proof.
  unfold Re.groups. intros H. apply run_sound in H as (a & rest & g1 & -> & Ha & H).
  injection H as <-. eauto.
Qed.

(** Inversions of [matches], one for each form of expression. *)
Lemma matches_seq_inv r1 r2 a g :
  matches (Re.Seq r1 r2) a g ->
  exists a1 a2 g1 g2,
    a = a1 ++ a2 /\ g = g1 ++ g2 /\ matches r1 a1 g1 /\ matches r2 a2 g2.
Proof. inversion 1; subst. do 4 eexists. eauto. Qed.

Lemma matches_alt_inv r1 r2 a g :
  matches (Re.Alt r1 r2) a g -> matches r1 a g \/ matches r2 a g.
Proof. inversion 1; subst; auto. Qed.

Lemma matches_group_inv r a g :
  matches (Re.Group r) a g -> exists g1, g = g1 ++ [a] /\ matches r a g1.
Proof. inversion 1; subst. eauto. Qed.

Lemma matches_chr_inv p a g :
  matches (Re.Chr p) a g -> g = [] /\ exists c, a = [c] /\ p c = true.
Proof. inversion 1; subst. eauto. Qed.

Lemma matches_opt_inv p a g :
  matches (Re.Opt p) a g -> g = [] /\ (a = [] \/ exists c, a = [c] /\ p c = true).
Proof. inversion 1; subst; eauto. Qed.

Lemma matches_star_inv p a g :
  matches (Re.Star p) a g -> g = [] /\ forallb p a = true.
Proof. inversion 1; subst. auto. Qed.

Lemma matches_plus_inv p a g :
  matches (Re.Plus p) a g -> g = [] /\ a <> [] /\ forallb p a = true.
Proof. inversion 1; subst. repeat split; [discriminate|assumption]. Qed.


Section PatternShape.
Import QueryParser.

(** What the three groups of the condition pattern can match. *)
Lemma operator_alternatives_sound op g :
  matches (Re.alt (List.map Re.literal
     [lit "="; lit "!="; lit "<="; lit ">="; lit "<"; lit ">"])) op g ->
  g = [] /\ In op operator_set.
Proof.
  unfold operator_set. eval_lit.
  cbv [Re.alt Re.literal Re.chr List.map Re.seq]. intros H.
  repeat match goal with
  | H : matches (Re.Seq _ _) _ _ |- _ =>
      apply matches_seq_inv in H; destruct H as (? & ? & ? & ? & -> & -> & ? & ?)
  | H : matches (Re.Alt _ _) _ _ |- _ => apply matches_alt_inv in H; destruct H
  | H : matches (Re.Group _) _ _ |- _ =>
      apply matches_group_inv in H; destruct H as (? & -> & ?)
  | H : matches (Re.Chr _) _ _ |- _ =>
      apply matches_chr_inv in H; destruct H as (-> & ? & -> & ?)
  | H : matches (Re.Star _) _ _ |- _ => apply matches_star_inv in H; destruct H as (-> & ?)
  | H : matches (Re.Plus _) _ _ |- _ =>
      apply matches_plus_inv in H; destruct H as (-> & ? & ?)
  | H : matches (Re.Opt _) _ _ |- _ => apply matches_opt_inv in H; destruct H as (-> & ?)
  | H : (_ =? _)%N = true |- _ => apply N.eqb_eq in H; subst
  end;
  simpl; tauto.
Qed.

Lemma condition_pattern_shape a gs :
  matches CONDITION_PATTERN a gs ->
  exists field ws1 op ws2 v,
    a = field ++ ws1 ++ op ++ ws2 ++ v /\ gs = [field; op; v]
    /\ field <> [] /\ forallb isword field = true
    /\ forallb isspace ws1 = true /\ In op operator_set
    /\ forallb isspace ws2 = true /\ value_text v.
Proof.
  intros H.
  change (matches (Re.Seq (Re.Group (Re.Plus isword)) (Re.Seq (Re.Star isspace)
            (Re.Seq (Re.Group (Re.alt (List.map Re.literal
                 [lit "="; lit "!="; lit "<="; lit ">="; lit "<"; lit ">"])))
            (Re.Seq (Re.Star isspace)
            (Re.Group (Re.Seq (Re.Opt (Re.one_of opening_quotes))
               (Re.Seq (Re.Plus (Re.none_of [QUOTATION_MARK; APOSTROPHE]))
                       (Re.Opt (Re.one_of closing_quotes))))))))) a gs) in H.
  apply matches_seq_inv in H as (field & a1 & gf & g1 & -> & -> & Hf & H).
  apply matches_seq_inv in H as (ws1 & a2 & gw1 & g2 & -> & -> & Hw1 & H).
  apply matches_seq_inv in H as (op & a3 & go & g3 & -> & -> & Hop & H).
  apply matches_seq_inv in H as (ws2 & v & gw2 & gv & -> & -> & Hw2 & Hv).
  apply matches_group_inv in Hf as (gf' & -> & Hf).
  apply matches_plus_inv in Hf as (-> & Hne & Hfield).
  apply matches_star_inv in Hw1 as (-> & Hw1).
  apply matches_star_inv in Hw2 as (-> & Hw2).
  apply matches_group_inv in Hop as (go' & -> & Hop).
  apply operator_alternatives_sound in Hop as (-> & Hop).
  apply matches_group_inv in Hv as (gv' & -> & Hv).
  apply matches_seq_inv in Hv as (o & a4 & g4 & g5 & -> & -> & Ho & Hv).
  apply matches_seq_inv in Hv as (t & c & g6 & g7 & -> & -> & Ht & Hc).
  apply matches_opt_inv in Ho as (-> & Ho).
  apply matches_plus_inv in Ht as (-> & Htne & Ht).
  apply matches_opt_inv in Hc as (-> & Hc).
  exists field, ws1, op, ws2, (o ++ t ++ c).
  repeat split; try assumption.
  exists o, t, c. repeat split; assumption.
Qed.

Lemma condition_groups_sound s gs :
  Re.groups CONDITION_PATTERN s = Some gs ->
  exists field ws1 op ws2 v rest,
    s = field ++ ws1 ++ op ++ ws2 ++ v ++ rest /\ gs = [field; op; v]
    /\ field <> [] /\ forallb isword field = true
    /\ forallb isspace ws1 = true /\ In op operator_set
    /\ forallb isspace ws2 = true /\ value_text v.
Proof.
  intros H. apply groups_sound in H as (a & rest & -> & H).
  apply condition_pattern_shape in H
    as (field & ws1 & op & ws2 & v & -> & -> & H).
  exists field, ws1, op, ws2, v, rest. rewrite <- !app_assoc. auto.
Qed.

End PatternShape.

(* ===================================================================== *)
(** * Further properties: the parser *)
(* ===================================================================== *)

Section ParserFacts.
Import QueryParser.

(** A condition returned by [parse_condition] was read off the stripped
    text, group by group. *)
Lemma parse_condition_sound cond field op v :
  parse_condition cond = Ok (field, op, v) ->
  exists ws1 ws2 raw rest,
    strip cond = field ++ ws1 ++ op ++ ws2 ++ raw ++ rest
    /\ field <> [] /\ forallb isword field = true
    /\ forallb isspace ws1 = true /\ In op operator_set
    /\ forallb isspace ws2 = true /\ value_text raw /\ v = parse_value raw.
Proof.
  unfold parse_condition.
  destruct (Re.groups CONDITION_PATTERN (strip cond)) as [gs|] eqn:Hg; [|discriminate].
  apply condition_groups_sound in Hg
    as (f & ws1 & o & ws2 & raw & rest & Hs & -> & Hne & Hf & Hw1 & Ho & Hw2 & Hv).
  destruct (lookup_supported o Ho) as (fn & -> & _).
  intros [= <- <- <-]. exists ws1, ws2, raw, rest. auto 10.
Qed.

(** X1.  What [parse_condition] returns, it has read off the front of
    the stripped text: a field of one or more word characters, white
    space or none, one of the six operators, white space or none, and a
    value text, whose parsed value is the third component.  Whatever
    follows the value text is ignored. *)
Theorem parse_condition_shape cond field op v :
  parse_condition cond = Ok (field, op, v) ->
  exists ws1 ws2 raw rest,
    strip cond = field ++ ws1 ++ op ++ ws2 ++ raw ++ rest
    /\ field <> [] /\ forallb isword field = true
    /\ forallb isspace ws1 = true /\ In op operator_set
    /\ forallb isspace ws2 = true /\ value_text raw /\ v = parse_value raw.
Proof. exact (parse_condition_sound cond field op v). Qed.

Lemma parse_condition_shape_witness :
  exists ws1 ws2 raw rest,
    strip (lit " Z13_STATUS_CODE = 4 ")
    = lit "Z13_STATUS_CODE" ++ ws1 ++ lit "=" ++ ws2 ++ raw ++ rest
    /\ lit "Z13_STATUS_CODE" <> [] /\ forallb isword (lit "Z13_STATUS_CODE") = true
    /\ forallb isspace ws1 = true /\ In (lit "=") operator_set
    /\ forallb isspace ws2 = true /\ value_text raw
    /\ parse_value (lit "4") = parse_value raw.
Proof.
  apply (parse_condition_shape (lit " Z13_STATUS_CODE = 4 ")).
  vm_compute. reflexivity.
Defined.

(** The test against the dictionary of operators cannot fail. *)
Lemma parse_condition_outcome cond :
  (exists field op v, parse_condition cond = Ok (field, op, v) /\ In op operator_set)
  \/ parse_condition cond = Raise (ValueError (lit "Invalid condition format: " ++ cond)).
Proof.
  destruct (parse_condition cond) as [[[field op] v]|e] eqn:H.
  - left. exists field, op, v. split; [reflexivity|].
    apply parse_condition_sound in H as (? & ? & ? & ? & H). tauto.
  - right. revert H. unfold parse_condition.
    destruct (Re.groups CONDITION_PATTERN (strip cond)) as [gs|] eqn:Hg.
    + apply condition_groups_sound in Hg
        as (f & ws1 & o & ws2 & raw & rest & Hs & -> & Hne & Hf & Hw1 & Ho & Hw2 & Hv).
      destruct (lookup_supported o Ho) as (fn & -> & _). discriminate.
    + intros [= <-]. reflexivity.
Qed.

(** X2.  [parse_condition] has one way to fail: the message is
    [Invalid condition format: ] followed by the text as it was given,
    white space included.  The test of the operator against the
    dictionary never fails, since the pattern only lets the six
    operators through: [Unsupported operator] is never raised. *)
Theorem parse_condition_single_error cond :
  (exists field op v, parse_condition cond = Ok (field, op, v) /\ In op operator_set)
  \/ parse_condition cond = Raise (ValueError (lit "Invalid condition format: " ++ cond)).
Proof. exact (parse_condition_outcome cond). Qed.

(** The functions of old_main.py against those of the parser. *)
Lemma old_parse_condition_same cond :
  OldMain.parse_condition cond = parse_condition cond.
Proof.
  unfold OldMain.parse_condition, parse_condition, OldMain.pattern.
  destruct (Re.groups CONDITION_PATTERN (strip cond)) as [gs|] eqn:Hg; [|reflexivity].
  apply condition_groups_sound in Hg
    as (f & ws1 & o & ws2 & raw & rest & Hs & -> & Hne & Hf & Hw1 & Ho & Hw2 & Hv).
  destruct (lookup_supported o Ho) as (fn & -> & _). reflexivity.
Qed.

(** X27.  The [parse_condition] of old_main.py, which unquotes and
    converts the value in its own body, returns and raises what
    [QueryParser.parse_condition] does, on every text. *)
Theorem old_parse_condition_agrees cond :
  OldMain.parse_condition cond = parse_condition cond.
Proof. exact (old_parse_condition_same cond). Qed.

Lemma old_operators_same operator :
  lookup OldMain.operators operator = lookup SUPPORTED_OPERATORS operator.
Proof.
  unfold OldMain.operators, SUPPORTED_OPERATORS. cbn [lookup].
  repeat match goal with
  | |- context [str_eqb ?a operator] =>
      let H := fresh "H" in destruct (str_eqb a operator) eqn:H;
      [apply str_eqb_eq in H|]
  end; try reflexivity; subst; try discriminate.
Qed.

Lemma old_evaluate_condition_same record field operator v :
  OldMain.evaluate_condition record field operator v
  = evaluate_condition record field operator v.
Proof.
  unfold OldMain.evaluate_condition, evaluate_condition.
  rewrite old_operators_same. reflexivity.
Qed.

(** X28.  The [evaluate_condition] of old_main.py returns and raises
    what [QueryParser.evaluate_condition] does, on every record, field,
    operator and value: the two dictionaries of operators hold the same
    six entries. *)
Theorem old_evaluate_condition_agrees record field operator v :
  OldMain.evaluate_condition record field operator v
  = evaluate_condition record field operator v.
Proof. exact (old_evaluate_condition_same record field operator v). Qed.

Section Comprehensions.
Context {A B : Type}.

Lemma comprehension_ok (f : A -> result B) xs ys :
  comprehension f xs = Ok ys <-> Forall2 (fun x y => f x = Ok y) xs ys.
Proof.
  revert ys. induction xs as [|x xs IH]; intros ys; simpl.
  - split; [intros [= <-]; constructor|inversion 1; reflexivity].
  - destruct (f x) as [y|e] eqn:Hx; simpl.
    + destruct (comprehension f xs) as [ys'|e] eqn:Hxs; simpl.
      * split.
        -- intros [= <-]. constructor; [exact Hx|]. apply IH. reflexivity.
        -- inversion 1 as [|? y0 ? ys0 Hy Hys]; subst.
           apply IH in Hys. congruence.
      * split; [discriminate|].
        inversion 1 as [|? y0 ? ys0 Hy Hys]; subst. apply IH in Hys. discriminate.
    + split; [discriminate|]. inversion 1; congruence.
Qed.

(** The first element that fails decides the exception. *)
Lemma comprehension_raise (f : A -> result B) xs1 x xs2 e :
  Forall (fun x => exists y, f x = Ok y) xs1 -> f x = Raise e ->
  comprehension f (xs1 ++ x :: xs2) = Raise e.
Proof.
  intros H Hx. induction H as [|x1 xs1 [y Hy] _ IH]; simpl.
  - rewrite Hx. reflexivity.
  - rewrite Hy. simpl. rewrite IH. reflexivity.
Qed.

Lemma comprehension_if_ok (f : A -> result bool) xs ys :
  comprehension_if f xs = Ok ys
  <-> Forall (fun x => exists b, f x = Ok b) xs
      /\ ys = List.filter (fun x => is_true (f x)) xs.
Proof.
  revert ys. induction xs as [|x xs IH]; intros ys; simpl.
  - split; [intros [= <-]; auto|intros [_ ->]; reflexivity].
  - destruct (f x) as [b|e] eqn:Hx; simpl.
    + destruct (comprehension_if f xs) as [ys'|e] eqn:Hxs; simpl.
      * destruct (proj1 (IH ys') eq_refl) as [Hall ->].
        split.
        -- intros [= <-]. split; [constructor; eauto|]. destruct b; reflexivity.
        -- intros [_ ->]. destruct b; reflexivity.
      * split; [discriminate|]. intros [Hall _]. inversion Hall as [|? ? _ Hxs']; subst.
        discriminate (proj2 (IH _) (conj Hxs' eq_refl)).
    + split; [discriminate|]. intros [Hall _]. inversion Hall as [|? ? [b Hb] _]; congruence.
Qed.

End Comprehensions.

Section RaiseInversion.
Context {A B : Type}.

Lemma comprehension_raise_inv (f : A -> result B) xs e :
  comprehension f xs = Raise e ->
  exists xs1 x xs2, xs = xs1 ++ x :: xs2
    /\ Forall (fun x => exists y, f x = Ok y) xs1 /\ f x = Raise e.
Proof.
  induction xs as [|x xs IH]; simpl; [discriminate|].
  destruct (f x) as [y|e'] eqn:Hx; simpl.
  - destruct (comprehension f xs) as [ys|e'] eqn:Hxs; simpl; [discriminate|].
    intros [= ->]. destruct (IH eq_refl) as (xs1 & x' & xs2 & -> & Hall & Hx').
    exists (x :: xs1), x', xs2. repeat split; [constructor; eauto|assumption].
  - intros [= ->]. exists [], x, xs. repeat split; [constructor|assumption].
Qed.

Lemma all_raise_inv (f : A -> result bool) xs e :
  all f xs = Raise e -> exists x, In x xs /\ f x = Raise e.
Proof.
  induction xs as [|x xs IH]; simpl; [discriminate|].
  destruct (f x) as [[|]|e'] eqn:Hx; simpl.
  - intros H. destruct (IH H) as (x' & Hin & Hx'). eauto.
  - discriminate.
  - intros [= ->]. eauto.
Qed.

Lemma comprehension_if_raise_inv (f : A -> result bool) xs e :
  comprehension_if f xs = Raise e -> exists x, In x xs /\ f x = Raise e.
Proof.
  induction xs as [|x xs IH]; simpl; [discriminate|].
  destruct (f x) as [b|e'] eqn:Hx; simpl.
  - destruct (comprehension_if f xs) as [ys|e'] eqn:Hxs; simpl; [discriminate|].
    intros [= ->]. destruct (IH eq_refl) as (x' & Hin & Hx'). eauto.
  - intros [= ->]. eauto.
Qed.

End RaiseInversion.

(** [re.split] never returns the empty list. *)
Lemma split_from_nonempty r s skip piece : Re.split_from r s skip piece <> [].
Proof.
  revert skip piece. induction s as [|c s IH]; intros skip piece; simpl; [discriminate|].
  destruct skip; [|apply IH].
  destruct (Re.match_length r (c :: s)) as [[|n]|]; [apply IH|discriminate|apply IH].
Qed.

Lemma split_conditions_nonempty s : split_conditions s <> [].
Proof.
  unfold split_conditions, Re.split. intros H. apply map_eq_nil in H.
  exact (split_from_nonempty _ _ _ _ H).
Qed.

(** The two ways out of [parse_query]. *)
Lemma parse_query_conditions query cs :
  parse_query query = Ok cs ->
  starts_with_where query = true
  /\ Forall2 (fun p c => parse_condition p = Ok c)
             (split_conditions (strip (slice_from 5 query))) cs
  /\ cs <> [] /\ Forall well_formed cs.
Proof.
  unfold parse_query. rewrite where_guard_iff.
  destruct (starts_with_where query); cbn [negb]; [|discriminate].
  destruct (strip (slice_from 5 query)) as [|c0 s0] eqn:Hs; [discriminate|].
  intros H. apply comprehension_ok in H. split; [reflexivity|]. split; [exact H|].
  split.
  - intros ->. inversion H as [Hnil|]. symmetry in Hnil.
    exact (split_conditions_nonempty _ Hnil).
  - clear Hs. induction H as [|p [[f o] v] ps cs Hp _ IH]; constructor; [|exact IH].
    apply parse_condition_sound in Hp as (? & ? & ? & ? & H). simpl. tauto.
Qed.

(** X6.  When [parse_query] returns, the query started with the
    keyword, and the conditions returned are those of the pieces of
    [split_conditions], one for one and in their order.  The list is
    never empty, and every condition has a non-empty field of word
    characters and one of the six operators. *)
Theorem parse_query_result query cs :
  parse_query query = Ok cs ->
  starts_with_where query = true
  /\ Forall2 (fun p c => parse_condition p = Ok c)
             (split_conditions (strip (slice_from 5 query))) cs
  /\ cs <> [] /\ Forall well_formed cs.
Proof. exact (parse_query_conditions query cs). Qed.

Lemma parse_query_result_witness :
  starts_with_where (lit "WHERE Z13_STATUS_CODE = 4 AND BUILDER_GROUP = 'Guoyu Logistics'") = true
  /\ Forall2 (fun p c => parse_condition p = Ok c)
       (split_conditions
          (strip (slice_from 5 (lit "WHERE Z13_STATUS_CODE = 4 AND BUILDER_GROUP = 'Guoyu Logistics'"))))
       [(lit "Z13_STATUS_CODE", lit "=", parse_value (lit "4"));
        (lit "BUILDER_GROUP", lit "=", Str (lit "Guoyu Logistics"))]
  /\ [(lit "Z13_STATUS_CODE", lit "=", parse_value (lit "4"));
      (lit "BUILDER_GROUP", lit "=", Str (lit "Guoyu Logistics"))] <> []
  /\ Forall well_formed
       [(lit "Z13_STATUS_CODE", lit "=", parse_value (lit "4"));
        (lit "BUILDER_GROUP", lit "=", Str (lit "Guoyu Logistics"))].
Proof.
  apply (parse_query_result
           (lit "WHERE Z13_STATUS_CODE = 4 AND BUILDER_GROUP = 'Guoyu Logistics'")).
  vm_compute. reflexivity.
Defined.

Lemma parse_query_errors query e :
  parse_query query = Raise e ->
  (starts_with_where query = false
   /\ e = ValueError (lit "Query must start with 'WHERE'"))
  \/ (starts_with_where query = true /\ strip (slice_from 5 query) = []
      /\ e = ValueError (lit "No conditions after WHERE"))
  \/ (starts_with_where query = true
      /\ exists ps1 p ps2,
           split_conditions (strip (slice_from 5 query)) = ps1 ++ p :: ps2
           /\ Forall (fun p => exists c, parse_condition p = Ok c) ps1
           /\ e = ValueError (lit "Invalid condition format: " ++ p)).
Proof.
  unfold parse_query. rewrite where_guard_iff.
  destruct (starts_with_where query); cbn [negb]; [|intros [= <-]; auto].
  destruct (strip (slice_from 5 query)) as [|c0 s0] eqn:Hs; [intros [= <-]; auto|].
  intros H. right. right. split; [reflexivity|].
  apply comprehension_raise_inv in H as (ps1 & p & ps2 & Hsplit & Hall & Hp).
  exists ps1, p, ps2. repeat split; [assumption..|].
  destruct (parse_condition_outcome p) as [(f & o & v & Hok & _)|Herr]; congruence.
Qed.

(** X7.  [parse_query] only raises [ValueError], with one of three
    messages: the keyword is missing; nothing but white space follows
    the keyword; or a piece of the conditions text does not parse, and
    then the message names the first such piece. *)
Theorem parse_query_messages query e :
  parse_query query = Raise e ->
  (starts_with_where query = false
   /\ e = ValueError (lit "Query must start with 'WHERE'"))
  \/ (starts_with_where query = true /\ strip (slice_from 5 query) = []
      /\ e = ValueError (lit "No conditions after WHERE"))
  \/ (starts_with_where query = true
      /\ exists ps1 p ps2,
           split_conditions (strip (slice_from 5 query)) = ps1 ++ p :: ps2
           /\ Forall (fun p => exists c, parse_condition p = Ok c) ps1
           /\ e = ValueError (lit "Invalid condition format: " ++ p)).
Proof. exact (parse_query_errors query e). Qed.

Lemma parse_query_messages_witness :
  (starts_with_where (lit "WHERE a = 1 AND b") = false
   /\ ValueError (lit "Invalid condition format: b")
      = ValueError (lit "Query must start with 'WHERE'"))
  \/ (starts_with_where (lit "WHERE a = 1 AND b") = true
      /\ strip (slice_from 5 (lit "WHERE a = 1 AND b")) = []
      /\ ValueError (lit "Invalid condition format: b")
         = ValueError (lit "No conditions after WHERE"))
  \/ (starts_with_where (lit "WHERE a = 1 AND b") = true
      /\ exists ps1 p ps2,
           split_conditions (strip (slice_from 5 (lit "WHERE a = 1 AND b"))) = ps1 ++ p :: ps2
           /\ Forall (fun p => exists c, parse_condition p = Ok c) ps1
           /\ ValueError (lit "Invalid condition format: b")
              = ValueError (lit "Invalid condition format: " ++ p)).
Proof.
  apply (parse_query_messages (lit "WHERE a = 1 AND b")).
  vm_compute. reflexivity.
Defined.

(** X8.  [parse_query] stops at the first piece that does not parse:
    the message names that piece, whatever the pieces after it are. *)
Theorem parse_query_fail_fast query ps1 p ps2 :
  starts_with_where query = true ->
  strip (slice_from 5 query) <> [] ->
  split_conditions (strip (slice_from 5 query)) = ps1 ++ p :: ps2 ->
  Forall (fun p => exists c, parse_condition p = Ok c) ps1 ->
  (forall c, parse_condition p <> Ok c) ->
  parse_query query = Raise (ValueError (lit "Invalid condition format: " ++ p)).
Proof.
  intros Hw Hne Hsplit Hall Hp. unfold parse_query.
  rewrite where_guard_iff, Hw. cbn [negb].
  destruct (strip (slice_from 5 query)) as [|c0 s0]; [congruence|].
  rewrite Hsplit. apply comprehension_raise; [exact Hall|].
  destruct (parse_condition_outcome p) as [(f & o & v & Hok & _)|Herr];
    [destruct (Hp _ Hok)|exact Herr].
Qed.

Lemma parse_query_fail_fast_witness :
  parse_query (lit "WHERE a = 1 AND b AND c")
  = Raise (ValueError (lit "Invalid condition format: " ++ lit "b")).
Proof.
  apply (parse_query_fail_fast (lit "WHERE a = 1 AND b AND c") [lit "a = 1"] (lit "b") [lit "c"]).
  - reflexivity.
  - vm_compute. discriminate.
  - vm_compute. reflexivity.
  - constructor; [|constructor]. eexists. vm_compute. reflexivity.
  - intros c. vm_compute. discriminate.
Defined.

Lemma starts_with_where_keyword w rest :
  upper w = lit "WHERE" -> starts_with_where (w ++ rest) = true /\ length w = 5%nat.
Proof.
  intros Hw.
  assert (Hlen : length w = 5%nat).
  { apply (f_equal (@length _)) in Hw. unfold upper in Hw.
    rewrite length_map in Hw. exact Hw. }
  split; [|exact Hlen].
  destruct w as [|a w]; [discriminate|].
  injection Hw as Ha Hw'.
  unfold starts_with_where, lstrip.
  rewrite lstrip_by_stop.
  - replace 5%nat with (length (a :: w) + 0)%nat by (rewrite Hlen; reflexivity).
    rewrite firstn_app_2. simpl firstn. rewrite app_nil_r.
    apply str_eqb_eq. unfold upper. simpl. unfold upper in Hw'. rewrite Ha, Hw'. reflexivity.
  - simpl. exact (upper_letter_not_space a _ Ha eq_refl).
Qed.

(** X9.  The keyword is read without regard to letter case: a query
    that starts with any spelling of it parses as the query with the
    keyword in capitals. *)
Theorem parse_query_keyword_case w rest :
  upper w = lit "WHERE" -> parse_query (w ++ rest) = parse_query (lit "WHERE" ++ rest).
Proof.
  intros Hw.
  destruct (starts_with_where_keyword w rest Hw) as [H1 Hlen].
  destruct (starts_with_where_keyword (lit "WHERE") rest eq_refl) as [H2 _].
  unfold parse_query. rewrite !where_guard_iff, H1, H2. cbn [negb].
  replace (slice_from 5 (w ++ rest)) with rest; [reflexivity|].
  unfold slice_from. rewrite <- Hlen. rewrite skipn_app, Nat.sub_diag, skipn_all. reflexivity.
Qed.

Lemma parse_query_keyword_case_witness :
  parse_query (lit "wHeRe" ++ lit " Z13_STATUS_CODE = 4")
  = parse_query (lit "WHERE" ++ lit " Z13_STATUS_CODE = 4").
Proof. apply parse_query_keyword_case. reflexivity. Defined.

End ParserFacts.

(* ===================================================================== *)
(** * Further properties: the evaluator and the store *)
(* ===================================================================== *)

Section StoreFacts.
Import QueryParser.

(** The six comparisons return a boolean or raise [TypeError]. *)
Lemma comparison_outcome (op : value -> value -> result bool) (x y : value) :
  In op [Py.eq; Py.ne; Py.lt; Py.gt; Py.le; Py.ge] ->
  (exists b, op x y = Ok b) \/ op x y = Raise TypeError.
Proof.
  intros Hop. simpl in Hop.
  repeat (destruct Hop as [<-|Hop];
    [unfold Py.eq, Py.ne, Py.lt, Py.gt, Py.le, Py.ge;
     destruct (compare x y); eauto|]).
  destruct Hop.
Qed.

Lemma evaluate_condition_outcome record field operator v :
  In operator operator_set ->
  (exists b, evaluate_condition record field operator v = Ok b)
  \/ evaluate_condition record field operator v = Raise TypeError.
Proof.
  intros Hop. unfold evaluate_condition.
  destruct (record !! field) as [x|]; [|eauto].
  destruct (coerce x v) as [x'|]; [|eauto].
  destruct (lookup_supported _ Hop) as (op & -> & Hin).
  apply comparison_outcome, Hin.
Qed.

(** X10.  With one of the six operators [evaluate_condition] returns a
    boolean or raises [TypeError], on every record, field and value:
    no [KeyError] and no [ValueError] comes out of it. *)
Theorem evaluate_condition_total record field operator v :
  In operator operator_set ->
  (exists b, evaluate_condition record field operator v = Ok b)
  \/ evaluate_condition record field operator v = Raise TypeError.
Proof. exact (evaluate_condition_outcome record field operator v). Qed.

Lemma evaluate_condition_total_witness :
  (exists b, evaluate_condition vessel_1 (lit "Z13_STATUS_CODE") (lit "<") (Str (lit "abc")) = Ok b)
  \/ evaluate_condition vessel_1 (lit "Z13_STATUS_CODE") (lit "<") (Str (lit "abc"))
     = Raise TypeError.
Proof. apply evaluate_condition_total. simpl. tauto. Defined.

Lemma lookup_unsupported operator :
  ~ In operator operator_set -> lookup SUPPORTED_OPERATORS operator = None.
Proof.
  intros H. unfold SUPPORTED_OPERATORS. cbn [lookup].
  repeat match goal with
  | |- context [str_eqb ?a operator] =>
      let E := fresh "E" in destruct (str_eqb a operator) eqn:E;
      [apply str_eqb_eq in E; exfalso; apply H; rewrite <- E; simpl; tauto|]
  end. reflexivity.
Qed.

(** X11.  An operator outside the dictionary raises [KeyError], and
    only once the field has been found in the record and its value
    brought to the kind of the literal. *)
Theorem evaluate_condition_unsupported record field operator v x x' :
  ~ In operator operator_set ->
  record !! field = Some x -> coerce x v = Some x' ->
  evaluate_condition record field operator v = Raise (KeyError operator).
Proof.
  intros Hop Hx Hco. unfold evaluate_condition.
  rewrite Hx, Hco, lookup_unsupported by exact Hop. reflexivity.
Qed.

Lemma evaluate_condition_unsupported_witness :
  evaluate_condition vessel_1 (lit "Z13_STATUS_CODE") (lit "~") (Int 4)
  = Raise (KeyError (lit "~")).
Proof.
  apply (evaluate_condition_unsupported vessel_1 (lit "Z13_STATUS_CODE") (lit "~") (Int 4)
           (Int 4) (Int 4)).
  - vm_compute. intuition discriminate.
  - vm_compute. reflexivity.
  - reflexivity.
Defined.

Lemma evaluate_record_outcome record cs :
  Forall well_formed cs ->
  (exists b, evaluate_record record cs = Ok b)
  \/ evaluate_record record cs = Raise TypeError.
Proof.
  intros Hwf. destruct (evaluate_record record cs) as [b|e] eqn:H; [eauto|].
  right. unfold evaluate_record in H. apply all_raise_inv in H as ([[f o] v] & Hin & H).
  rewrite List.Forall_forall in Hwf. specialize (Hwf _ Hin). simpl in Hwf.
  destruct Hwf as (_ & _ & Ho).
  destruct (evaluate_condition_outcome record f o v Ho) as [[b Hb]|Hb]; congruence.
Qed.

(** X15.  On conditions whose operators are among the six,
    [evaluate_record] returns a boolean or raises [TypeError]. *)
Theorem evaluate_record_total record cs :
  Forall well_formed cs ->
  (exists b, evaluate_record record cs = Ok b)
  \/ evaluate_record record cs = Raise TypeError.
Proof. exact (evaluate_record_outcome record cs). Qed.

Lemma evaluate_record_total_witness :
  (exists b, evaluate_record vessel_1
               [(lit "BUILDER_GROUP", lit "=", Str (lit "Guoyu Logistics"));
                (lit "Z13_STATUS_CODE", lit ">", Str (lit "abc"))] = Ok b)
  \/ evaluate_record vessel_1
       [(lit "BUILDER_GROUP", lit "=", Str (lit "Guoyu Logistics"));
        (lit "Z13_STATUS_CODE", lit ">", Str (lit "abc"))] = Raise TypeError.
Proof.
  apply evaluate_record_total.
  constructor; [|constructor; [|constructor]];
    (split; [discriminate|split; [reflexivity|simpl; tauto]]).
Defined.

(** X16.  [evaluate_record] on two lists of conditions, one after the
    other: the second list is only evaluated when the first holds, so a
    condition that would raise is not reached behind one that is
    false. *)
Theorem evaluate_record_app record cs1 cs2 :
  evaluate_record record (cs1 ++ cs2)
  = (b <- evaluate_record record cs1 ;;
     if b then evaluate_record record cs2 else Ok false).
Proof.
  induction cs1 as [|c cs1 IH]; [reflexivity|].
  cbn [app]. rewrite !evaluate_record_cons.
  destruct (condition_value record c) as [[|]|e]; simpl; [exact IH|reflexivity..].
Qed.

(** What the parser raises is a [ValueError]. *)
Lemma parse_query_raises query e :
  parse_query query = Raise e -> exists msg, e = ValueError msg.
Proof.
  intros H. apply parse_query_errors in H.
  destruct H as [(_ & ->)|[(_ & _ & ->)|(_ & ps1 & p & ps2 & _ & _ & ->)]]; eauto.
Qed.

(** C10.  [Database.query] leaves [self.data] as it found it, whether it
    returns or raises: only the logger is written to.  On every
    malformed query, that is on every query the parser rejects, it
    returns no records: it raises [ValueError] with [Invalid query: ]
    before the message of the parser, and has logged that message once.
    [INVALID QUERY] is such a query. *)
Theorem query_frame :
  (forall (self : Database.t) (query_str : str),
     Database.data (snd (Database.query self query_str)) = Database.data self)
  /\ (forall (self : Database.t) (query_str : str),
       malformed query_str ->
       exists msg,
         parse_query query_str = Raise (ValueError msg)
         /\ Database.query self query_str
            = (Raise (ValueError (lit "Invalid query: " ++ msg)),
               Database.mk (Database.data self)
                 (Database.logger self
                  ++ [Database.ERROR (lit "Query failed: " ++ msg)])))
  /\ (malformed (lit "INVALID QUERY")
      /\ forall self : Database.t,
           fst (Database.query self (lit "INVALID QUERY"))
           = Raise (ValueError (lit "Invalid query: Query must start with 'WHERE'"))).
Proof.
  split; [|split; [|split]].
  - intros self query_str. unfold Database.query.
    destruct (Database.select _ _) as [records|[msg| |key]]; reflexivity.
  - intros self query_str [e He].
    destruct (parse_query_raises query_str e He) as [msg ->].
    exists msg. split; [exact He|].
    unfold Database.query, Database.select. rewrite He. reflexivity.
  - eexists. vm_compute. reflexivity.
  - intros self. reflexivity.
Qed.

(** A query with nothing behind the keyword, and one whose second
    condition has no operator, on the sample records. *)
Lemma query_frame_witness :
  (exists msg,
     parse_query (lit "WHERE  ") = Raise (ValueError msg)
     /\ Database.query (Database.mk sample_vessels []) (lit "WHERE  ")
        = (Raise (ValueError (lit "Invalid query: " ++ msg)),
           Database.mk sample_vessels [Database.ERROR (lit "Query failed: " ++ msg)]))
  /\ (exists msg,
       parse_query (lit "WHERE Z13_STATUS_CODE = 4 AND oops") = Raise (ValueError msg)
       /\ Database.query (Database.mk sample_vessels [])
            (lit "WHERE Z13_STATUS_CODE = 4 AND oops")
          = (Raise (ValueError (lit "Invalid query: " ++ msg)),
             Database.mk sample_vessels [Database.ERROR (lit "Query failed: " ++ msg)])).
Proof.
  destruct query_frame as (_ & Hraise & _).
  split.
  - apply (Hraise (Database.mk sample_vessels []) (lit "WHERE  ")).
    eexists. vm_compute. reflexivity.
  - apply (Hraise (Database.mk sample_vessels [])
             (lit "WHERE Z13_STATUS_CODE = 4 AND oops")).
    eexists. vm_compute. reflexivity.
Defined.

(** The body of [query] as a filter. *)
Lemma select_ok data query rs :
  Database.select data query = Ok rs
  <-> exists cs, parse_query query = Ok cs
        /\ Forall (fun record => exists b, evaluate_record record cs = Ok b) data
        /\ rs = List.filter (record_matches cs) data.
Proof.
  unfold Database.select. split.
  - destruct (parse_query query) as [cs|e]; simpl; [|discriminate].
    intros H. apply comprehension_if_ok in H. exists cs. tauto.
  - intros (cs & -> & Hall & ->). simpl. apply comprehension_if_ok. auto.
Qed.

(** X17.  The body of [Database.query] returns exactly when the query
    parses and no record makes a condition raise; what it returns is
    the data filtered by the conditions, the records kept in their
    order. *)
Theorem query_filters data query rs :
  Database.select data query = Ok rs
  <-> exists cs, parse_query query = Ok cs
        /\ Forall (fun record => exists b, evaluate_record record cs = Ok b) data
        /\ rs = List.filter (record_matches cs) data.
Proof. exact (select_ok data query rs). Qed.

Lemma filter_all_true {A} (f : A -> bool) xs :
  Forall (fun x => f x = true) xs -> List.filter f xs = xs.
Proof. induction 1 as [|x xs Hx _ IH]; simpl; [|rewrite Hx, IH]; reflexivity. Qed.

Lemma is_true_ok (r : result bool) : is_true r = true -> r = Ok true.
Proof. destruct r as [[|]|]; simpl; congruence. Qed.

(** X18.  Querying the result of a query again with the same query
    gives the same result. *)
Theorem select_idempotent data query rs :
  Database.select data query = Ok rs -> Database.select rs query = Ok rs.
Proof.
  intros H. apply select_ok in H as (cs & Hq & _ & ->).
  apply select_ok. exists cs. split; [exact Hq|].
  assert (Hall : Forall (fun r => record_matches cs r = true)
                        (List.filter (record_matches cs) data)).
  { apply List.Forall_forall. intros r Hr. apply filter_In in Hr. tauto. }
  split.
  - eapply List.Forall_impl; [|exact Hall]. intros r Hr. apply is_true_ok in Hr. eauto.
  - symmetry. apply filter_all_true, Hall.
Qed.

Lemma select_idempotent_witness :
  Database.select [vessel_1] (lit "WHERE Z13_STATUS_CODE = 4") = Ok [vessel_1].
Proof.
  apply (select_idempotent sample_vessels). vm_compute. reflexivity.
Defined.

(** X19.  A query over two lists of records, one after the other, is
    the two results one after the other; it raises what the first list
    raises, or else what the second does. *)
Theorem select_app data1 data2 query :
  Database.select (data1 ++ data2) query
  = (rs1 <- Database.select data1 query ;;
     rs2 <- Database.select data2 query ;; Ok (rs1 ++ rs2)).
Proof.
  unfold Database.select.
  destruct (parse_query query) as [cs|e]; [|reflexivity]. simpl.
  induction data1 as [|r data1 IH]; simpl.
  - destruct (comprehension_if _ data2); reflexivity.
  - destruct (evaluate_record r cs) as [b|e]; [|reflexivity]. simpl.
    rewrite IH.
    destruct (comprehension_if _ data1) as [rs1|e]; [|reflexivity]. simpl.
    destruct (comprehension_if _ data2) as [rs2|e]; [|reflexivity]. simpl.
    destruct b; reflexivity.
Qed.

Lemma select_outcome data query :
  (exists rs, Database.select data query = Ok rs)
  \/ (exists msg, Database.select data query = Raise (ValueError msg))
  \/ Database.select data query = Raise TypeError.
Proof.
  destruct (Database.select data query) as [rs|e] eqn:H; [eauto|].
  right. unfold Database.select in H.
  destruct (parse_query query) as [cs|e'] eqn:Hq; simpl in H.
  - right. apply parse_query_conditions in Hq as (_ & _ & _ & Hwf).
    apply comprehension_if_raise_inv in H as (r & _ & H).
    destruct (evaluate_record_outcome r cs Hwf) as [[b Hb]|Hb]; congruence.
  - left. injection H as <-.
    apply parse_query_errors in Hq as [[_ ->]|[(_ & _ & ->)|(_ & ps1 & p & ps2 & _ & _ & ->)]];
      eauto.
Qed.

(** X20.  [Database.query] ends in one of three ways: it returns
    records and leaves the store as it was; it raises [ValueError] with
    [Invalid query: ] before the parser's message, and has logged
    [Query failed: ] with that message as one error record; or it
    raises [TypeError], which it does not catch, with nothing logged.
    The data is the same in all three. *)
Theorem query_outcome (self : Database.t) query :
  (exists rs, Database.query self query = (Ok rs, self))
  \/ (exists msg,
        Database.query self query
        = (Raise (ValueError (lit "Invalid query: " ++ msg)),
           Database.mk (Database.data self)
             (Database.logger self ++ [Database.ERROR (lit "Query failed: " ++ msg)])))
  \/ Database.query self query = (Raise TypeError, self).
Proof.
  unfold Database.query.
  destruct (select_outcome (Database.data self) query) as [[rs ->]|[[msg ->]| ->]]; eauto.
Qed.

End StoreFacts.

(* ===================================================================== *)
(** * Further properties: the JavaScript wrapper *)
(* ===================================================================== *)

Section Index.
Variable c : char.

(** [index] and [rindex] of a single character. *)
Lemma find_from_absent s i : absent c s = true -> find_from [c] s i = None.
Proof.
  revert i. induction s as [|x s IH]; intros i; simpl; [reflexivity|].
  intros H. apply andb_prop in H as [Hx Hs]. apply negb_true_iff in Hx.
  rewrite Hx. simpl. apply IH, Hs.
Qed.

Lemma find_from_first a b i :
  absent c a = true -> find_from [c] (a ++ c :: b) i = Some (i + length a)%nat.
Proof.
  revert i. induction a as [|x a IH]; intros i; simpl.
  - intros _. rewrite N.eqb_refl. simpl. f_equal. lia.
  - intros H. apply andb_prop in H as [Hx Ha]. apply negb_true_iff in Hx.
    rewrite Hx. simpl. rewrite IH by exact Ha. f_equal. lia.
Qed.

Lemma rfind_from_absent s i : absent c s = true -> rfind_from [c] s i = None.
Proof.
  revert i. induction s as [|x s IH]; intros i; simpl; [reflexivity|].
  intros H. apply andb_prop in H as [Hx Hs]. apply negb_true_iff in Hx.
  rewrite IH by exact Hs. rewrite Hx. reflexivity.
Qed.

Lemma rfind_from_last a b i :
  absent c b = true -> rfind_from [c] (a ++ c :: b) i = Some (i + length a)%nat.
Proof.
  intros Hb. revert i. induction a as [|x a IH]; intros i; simpl.
  - rewrite rfind_from_absent by exact Hb. rewrite N.eqb_refl. simpl. f_equal. lia.
  - rewrite IH. f_equal. lia.
Qed.

Lemma find_from_some s i : absent c s = false -> exists j, find_from [c] s i = Some j.
Proof.
  revert i. induction s as [|x s IH]; intros i; simpl; [discriminate|].
  destruct (N.eqb c x); simpl; [eauto|]. intros H. apply IH, H.
Qed.

Lemma rfind_from_some s i : absent c s = false -> exists j, rfind_from [c] s i = Some j.
Proof.
  revert i. induction s as [|x s IH]; intros i; simpl; [discriminate|].
  destruct (N.eqb c x) eqn:Hx; simpl.
  - intros _. destruct (rfind_from [c] s (S i)); eauto.
  - intros H. destruct (IH (S i) H) as [j ->]. eauto.
Qed.

End Index.

Lemma slice_middle (a b c : str) :
  slice (length a) (length a + length b) (a ++ b ++ c) = b.
Proof.
  unfold slice.
  replace (length a + length b - length a)%nat with (length b + 0)%nat by lia.
  replace (skipn (length a) (a ++ b ++ c)) with (b ++ c).
  - rewrite firstn_app_2. simpl. apply app_nil_r.
  - rewrite skipn_app, Nat.sub_diag, skipn_all. reflexivity.
Qed.

Lemma index_char_ok c a b : absent c a = true -> index (a ++ c :: b) [c] = Ok (length a).
Proof. intros H. unfold index. rewrite find_from_first by exact H. reflexivity. Qed.

Lemma rindex_char_ok c a b : absent c b = true -> rindex (a ++ c :: b) [c] = Ok (length a).
Proof. intros H. unfold rindex. rewrite rfind_from_last by exact H. reflexivity. Qed.

Lemma index_char_raise c s :
  absent c s = true -> index s [c] = Raise (ValueError (lit "substring not found")).
Proof. intros H. unfold index. rewrite find_from_absent by exact H. reflexivity. Qed.

Lemma rindex_char_raise c s :
  absent c s = true -> rindex s [c] = Raise (ValueError (lit "substring not found")).
Proof. intros H. unfold rindex. rewrite rfind_from_absent by exact H. reflexivity. Qed.

(** The cleaner of the store. *)
Lemma clean_js_content_cut (pre body trailer : str) :
  absent LEFT_BRACKET pre = true -> absent SEMICOLON trailer = true ->
  Database._clean_js_content
    (lit "var " ++ pre ++ LEFT_BRACKET :: body ++ SEMICOLON :: trailer)
  = Ok (strip (LEFT_BRACKET :: body)).
Proof.
  intros Hpre Htrailer. unfold Database._clean_js_content.
  replace (startswith (lit "var " ++ pre ++ LEFT_BRACKET :: body ++ SEMICOLON :: trailer)
             (lit "var ")) with true by (symmetry; apply startswith_app).
  change (lit "[") with [LEFT_BRACKET]. change (lit ";") with [SEMICOLON].
  rewrite (app_assoc (lit "var ") pre).
  rewrite index_char_ok
    by (unfold absent; rewrite forallb_app; apply andb_true_intro; split;
        [reflexivity|exact Hpre]).
  cbn [bind].
  replace ((lit "var " ++ pre) ++ LEFT_BRACKET :: body ++ SEMICOLON :: trailer)
    with (((lit "var " ++ pre) ++ LEFT_BRACKET :: body) ++ SEMICOLON :: trailer)
    by (rewrite <- !app_assoc; reflexivity).
  rewrite rindex_char_ok by exact Htrailer. cbn [bind].
  replace (length ((lit "var " ++ pre) ++ LEFT_BRACKET :: body))
    with (length (lit "var " ++ pre) + length (LEFT_BRACKET :: body))%nat
    by (symmetry; apply length_app).
  replace (((lit "var " ++ pre) ++ LEFT_BRACKET :: body) ++ SEMICOLON :: trailer)
    with ((lit "var " ++ pre) ++ (LEFT_BRACKET :: body) ++ SEMICOLON :: trailer)
    by (rewrite <- !app_assoc; reflexivity).
  cbn [bind]. do 2 f_equal.
  etransitivity;
    [|apply (slice_middle (lit "var " ++ pre) (LEFT_BRACKET :: body) (SEMICOLON :: trailer))].
  f_equal. apply length_app.
Qed.

(** X21.  On a text that starts with [var ], [_clean_js_content]
    keeps what lies from the first opening bracket up to, and without,
    the last semicolon, and strips it. *)
Theorem clean_js_content_wrapper (pre body trailer : str) :
  absent LEFT_BRACKET pre = true -> absent SEMICOLON trailer = true ->
  Database._clean_js_content
    (lit "var " ++ pre ++ LEFT_BRACKET :: body ++ SEMICOLON :: trailer)
  = Ok (strip (LEFT_BRACKET :: body)).
Proof. exact (clean_js_content_cut pre body trailer). Qed.

Lemma clean_js_content_wrapper_witness :
  Database._clean_js_content
    (lit "var " ++ lit "vessels = " ++ LEFT_BRACKET :: lit "{}] " ++ SEMICOLON :: [10%N])
  = Ok (strip (LEFT_BRACKET :: lit "{}] ")).
Proof. apply clean_js_content_wrapper; reflexivity. Defined.

Lemma absent_false_or c s : absent c s = true \/ absent c s = false.
Proof. destruct (absent c s); auto. Qed.

(** X22.  [_clean_js_content] raises exactly on a text that starts
    with [var ] and has no opening bracket or no semicolon. *)
Theorem clean_js_content_raises (content : str) :
  (exists e, Database._clean_js_content content = Raise e)
  <-> startswith content (lit "var ") = true
      /\ (absent LEFT_BRACKET content = true \/ absent SEMICOLON content = true).
Proof.
  unfold Database._clean_js_content.
  change (lit "[") with [LEFT_BRACKET]. change (lit ";") with [SEMICOLON].
  destruct (startswith content (lit "var ")); [|split; [intros [e H]; discriminate|intros [H _]; discriminate]].
  unfold index, rindex.
  destruct (absent LEFT_BRACKET content) eqn:Hb.
  - rewrite find_from_absent by exact Hb. simpl. split; eauto.
  - destruct (find_from_some LEFT_BRACKET content 0 Hb) as [i ->]. cbn [bind].
    destruct (absent SEMICOLON content) eqn:Hs.
    + rewrite rfind_from_absent by exact Hs. simpl. split; eauto.
    + destruct (rfind_from_some SEMICOLON content 0 Hs) as [j ->]. cbn [bind].
      split; [intros [e H]; discriminate|intros [_ [H|H]]; discriminate].
Qed.

Lemma clean_js_content_raises_value_error (content : str) e :
  Database._clean_js_content content = Raise e ->
  e = ValueError (lit "substring not found").
Proof.
  unfold Database._clean_js_content.
  destruct (startswith content (lit "var ")); [|discriminate].
  unfold index, rindex.
  destruct (find_from _ content 0); cbn [bind]; [|intros [= <-]; reflexivity].
  destruct (rfind_from _ content 0); cbn [bind]; [discriminate|intros [= <-]; reflexivity].
Qed.

(** X23.  What [_clean_js_content] returns has no white space at
    either end: stripping it again changes nothing. *)
Theorem clean_js_content_stripped (content r : str) :
  Database._clean_js_content content = Ok r -> strip r = r.
Proof.
  unfold Database._clean_js_content.
  destruct (if startswith content (lit "var ") then _ else _) as [c|e]; [|discriminate].
  cbn [bind]. intros [= <-]. apply strip_by_idempotent.
Qed.

Lemma clean_js_content_stripped_witness : strip (lit "[1, 2]") = lit "[1, 2]".
Proof. apply (clean_js_content_stripped (lit "  [1, 2] ")). vm_compute. reflexivity. Defined.

(** The cleaner of old_main.py. *)
Lemma endswith_last (s : str) (c : char) : endswith (s ++ [c]) [c] = true.
Proof. unfold endswith. rewrite rev_app_distr. simpl. rewrite N.eqb_refl. reflexivity. Qed.

Lemma endswith_space (s ws : str) (c : char) :
  ws <> [] -> forallb isspace ws = true -> isspace c = false ->
  endswith (s ++ ws) [c] = false.
Proof.
  intros Hne Hws Hc. unfold endswith.
  rewrite (app_removelast_last 0%N Hne) in *.
  rewrite app_assoc, rev_app_distr. simpl.
  rewrite forallb_app in Hws. apply andb_prop in Hws as [_ Hz]. simpl in Hz.
  rewrite andb_true_r in Hz.
  destruct (N.eqb c (List.last ws 0%N)) eqn:E; [|reflexivity].
  apply N.eqb_eq in E. congruence.
Qed.

Lemma old_clean_js_content_cut (body : str) :
  OldMain.clean_js_content (lit "var vessels = " ++ body ++ lit ";") = strip body.
Proof.
  unfold OldMain.clean_js_content.
  change (lit "var vessels = " ++ body ++ lit ";")
    with (lit "var vessels =" ++ lit " " ++ body ++ lit ";").
  rewrite startswith_app.
  change (slice_from 14 (lit "var vessels =" ++ lit " " ++ body ++ lit ";"))
    with (body ++ lit ";").
  change (lit ";") with [SEMICOLON].
  rewrite endswith_last, removelast_last. reflexivity.
Qed.

(** X24.  The [clean_js_content] of old_main.py takes the assignment
    to [vessels] and one final semicolon off, and strips what is
    left. *)
Theorem old_clean_js_content_wrapper (body : str) :
  OldMain.clean_js_content (lit "var vessels = " ++ body ++ lit ";") = strip body.
Proof. exact (old_clean_js_content_cut body). Qed.

(** X25.  On a text made of the assignment [var vessels = ], an
    opening bracket, a body, and a semicolon as its last character, the
    two cleaners return the same text. *)
Theorem clean_js_content_agree (body : str) :
  Database._clean_js_content (lit "var vessels = [" ++ body ++ lit ";")
  = Ok (OldMain.clean_js_content (lit "var vessels = [" ++ body ++ lit ";")).
Proof.
  change (lit "var vessels = [" ++ body ++ lit ";")
    with (lit "var vessels = " ++ (LEFT_BRACKET :: body) ++ lit ";") at 2.
  rewrite old_clean_js_content_cut.
  apply (clean_js_content_cut (lit "vessels = ") body []); reflexivity.
Qed.

Lemma space_absent (c : char) (ws : str) :
  isspace c = false -> forallb isspace ws = true -> absent c ws = true.
Proof.
  intros Hc. unfold absent. induction ws as [|x ws IH]; simpl; [reflexivity|].
  intros H. apply andb_prop in H as [Hx Hws]. rewrite (IH Hws), andb_true_r.
  apply negb_true_iff, N.eqb_neq. congruence.
Qed.

(** X26.  With white space behind the final semicolon the two
    cleaners differ: the one of old_main.py keeps the semicolon, the one
    of the store removes it. *)
Theorem clean_js_content_trailing_space (body ws : str) :
  ws <> [] -> forallb isspace ws = true ->
  OldMain.clean_js_content (lit "var vessels = [" ++ body ++ lit ";" ++ ws)
  = lit "[" ++ body ++ lit ";"
  /\ Database._clean_js_content (lit "var vessels = [" ++ body ++ lit ";" ++ ws)
     = Ok (strip (lit "[" ++ body)).
Proof.
  intros Hne Hws. split.
  - unfold OldMain.clean_js_content.
    change (lit "var vessels = [" ++ body ++ lit ";" ++ ws)
      with (lit "var vessels =" ++ lit " " ++ lit "[" ++ body ++ lit ";" ++ ws).
    rewrite startswith_app.
    change (slice_from 14 (lit "var vessels =" ++ lit " " ++ lit "[" ++ body ++ lit ";" ++ ws))
      with (lit "[" ++ body ++ lit ";" ++ ws).
    replace (lit "[" ++ body ++ lit ";" ++ ws) with ((lit "[" ++ body ++ lit ";") ++ ws)
      by (rewrite <- !app_assoc; reflexivity).
    assert (He : endswith ((lit "[" ++ body ++ lit ";") ++ ws) (lit ";") = false)
      by (apply (endswith_space _ ws SEMICOLON); assumption || reflexivity).
    rewrite He.
    assert (Hlast : head_fails isspace (rev (lit "[" ++ body ++ lit ";")))
      by (rewrite app_assoc, rev_app_distr; reflexivity).
    exact (strip_by_spec isspace [] (lit "[" ++ body ++ lit ";") ws
             eq_refl Hws eq_refl Hlast).
  - apply (clean_js_content_cut (lit "vessels = ") body ws); [reflexivity|].
    apply space_absent; [reflexivity|exact Hws].
Qed.

Lemma clean_js_content_trailing_space_witness :
  OldMain.clean_js_content (lit "var vessels = [" ++ lit "{}]" ++ lit ";" ++ [10%N])
  = lit "[" ++ lit "{}]" ++ lit ";"
  /\ Database._clean_js_content (lit "var vessels = [" ++ lit "{}]" ++ lit ";" ++ [10%N])
     = Ok (strip (lit "[" ++ lit "{}]")).
Proof. apply clean_js_content_trailing_space; [discriminate|reflexivity]. Defined.

(* ===================================================================== *)
(** * Further properties: operators and spacing *)
(* ===================================================================== *)

Section Operators.
Import QueryParser.

(** X12.  [=] and [!=] never raise, and they are the negation of one
    another as soon as the field is there and its value can be brought
    to the kind of the literal; otherwise both are false. *)
Theorem equality_operators record field v :
  exists b,
    evaluate_condition record field (lit "=") v = Ok (comparable record field v && b)
    /\ evaluate_condition record field (lit "!=") v
       = Ok (comparable record field v && negb b).
Proof.
  unfold evaluate_condition, comparable.
  destruct (record !! field) as [x|]; [|exists true; auto].
  destruct (coerce x v) as [x'|]; [|exists true; auto].
  change (lookup SUPPORTED_OPERATORS (lit "=")) with (Some Py.eq).
  change (lookup SUPPORTED_OPERATORS (lit "!=")) with (Some Py.ne).
  unfold Py.eq, Py.ne.
  exists (match compare x' v with Equal => true | _ => false end).
  destruct (compare x' v); auto.
Qed.

(** X13.  [<=] is [<] or [=], and [>=] is [>] or [=], exceptions
    included: where the strict ordering raises, so does the other. *)
Theorem ordering_operators record field v :
  evaluate_condition record field (lit "<=") v
  = (lt <- evaluate_condition record field (lit "<") v ;;
     eq <- evaluate_condition record field (lit "=") v ;; Ok (lt || eq))
  /\ evaluate_condition record field (lit ">=") v
  = (gt <- evaluate_condition record field (lit ">") v ;;
     eq <- evaluate_condition record field (lit "=") v ;; Ok (gt || eq)).
Proof.
  unfold evaluate_condition.
  destruct (record !! field) as [x|]; [|auto].
  destruct (coerce x v) as [x'|]; [|auto].
  change (lookup SUPPORTED_OPERATORS (lit "=")) with (Some Py.eq).
  change (lookup SUPPORTED_OPERATORS (lit "<=")) with (Some Py.le).
  change (lookup SUPPORTED_OPERATORS (lit ">=")) with (Some Py.ge).
  change (lookup SUPPORTED_OPERATORS (lit "<")) with (Some Py.lt).
  change (lookup SUPPORTED_OPERATORS (lit ">")) with (Some Py.gt).
  unfold Py.eq, Py.le, Py.ge, Py.lt, Py.gt.
  destruct (compare x' v); auto.
Qed.

(** X14.  Against a numeric literal, a record whose field holds the
    text of a number evaluates as the record that holds the number, for
    every operator. *)
Theorem textual_number record record' field operator s f v :
  record !! field = Some (Str s) -> record' !! field = Some (Float f) ->
  float_of_str s = Some f -> is_number v = true ->
  evaluate_condition record field operator v
  = evaluate_condition record' field operator v.
Proof.
  intros H H' Hf Hv. unfold evaluate_condition. rewrite H, H'.
  simpl. rewrite Hv, Hf. destruct v; [reflexivity|reflexivity|discriminate].
Qed.

Lemma textual_number_witness :
  evaluate_condition {[ lit "code" := Str (lit " 4 ") ]} (lit "code") (lit ">=") (Int 4)
  = evaluate_condition {[ lit "code" := Float (S754_finite false 4503599627370496 (-50)) ]}
      (lit "code") (lit ">=") (Int 4).
Proof.
  apply (textual_number _ _ _ _ (lit " 4 ") (S754_finite false 4503599627370496 (-50)));
    vm_compute; reflexivity.
Defined.

(** X3.  White space around a condition text does not change what
    [parse_condition] returns. *)
Theorem parse_condition_padding (l cond r : str) (c : condition) :
  forallb isspace l = true -> forallb isspace r = true ->
  (parse_condition (l ++ cond ++ r) = Ok c <-> parse_condition cond = Ok c).
Proof.
  intros Hl Hr. unfold parse_condition, strip.
  rewrite strip_by_pad by assumption.
  destruct (Re.groups CONDITION_PATTERN (strip_by isspace cond)) as [[|f [|o [|v [|]]]]|];
    try (split; discriminate).
  destruct (lookup SUPPORTED_OPERATORS o); [reflexivity|split; discriminate].
Qed.

Lemma parse_condition_padding_witness :
  parse_condition (lit "  " ++ lit "BUILDER_GROUP = 'Guoyu Logistics'" ++ lit " ")
  = Ok (lit "BUILDER_GROUP", lit "=", Str (lit "Guoyu Logistics"))
  <-> parse_condition (lit "BUILDER_GROUP = 'Guoyu Logistics'")
      = Ok (lit "BUILDER_GROUP", lit "=", Str (lit "Guoyu Logistics")).
Proof. apply parse_condition_padding; reflexivity. Defined.

(** X4.  The white space between field and operator, and between
    operator and value, does not change what [parse_condition] returns,
    for a condition text without white space at its end whose value
    begins with a character [x] that a value can start with, and that is
    no equals sign behind [<] or [>]: with or without the white space,
    the condition has the same field, the same operator and the value
    that runs from [x] to the first apostrophe or quotation mark behind
    it.  The two restrictions are needed.  White space between [<] and
    an equals sign keeps the two from being read as [<=]; and the value
    of [name = ''] is the blank and the second apostrophe, while
    [name=''] is no condition. *)
Theorem parse_condition_spacing :
  (forall (field ws1 op ws2 : str) (x : char) (v : str),
     field <> [] -> forallb isword field = true ->
     forallb isspace ws1 = true -> In op operator_set -> forallb isspace ws2 = true ->
     isspace x = false -> isspace (List.last (x :: v) 0%N) = false ->
     starts_value x v = true ->
     (In op [lit "<"; lit ">"] -> x <> 61%N) ->
     parse_condition (field ++ ws1 ++ op ++ ws2 ++ x :: v)
     = parse_condition (field ++ op ++ x :: v)
     /\ parse_condition (field ++ op ++ x :: v)
        = Ok (field, op, parse_value (run_to_quote x v)))
  /\ (parse_condition (lit "a < =1") = Ok (lit "a", lit "<", Str (lit "=1"))
      /\ parse_condition (lit "a<=1") = Ok (lit "a", lit "<=", Float one))
  /\ (parse_condition (lit "name = ''") = Ok (lit "name", lit "=", Str (lit " '"))
      /\ parse_condition (lit "name=''")
         = Raise (ValueError (lit "Invalid condition format: name=''"))).
Proof.
  split; [|split; split; vm_compute; reflexivity].
  intros field ws1 op ws2 x v Hne Hf Hw1 Hop Hw2 Hx Hlast Hv H61.
  pose proof (parse_condition_spaced field [] op [] x v Hne Hf eq_refl Hop eq_refl
                Hx Hlast Hv H61) as Htight.
  cbn [app] in Htight. split; [|exact Htight].
  rewrite Htight. apply parse_condition_spaced; assumption.
Qed.

Lemma parse_condition_spacing_witness :
  parse_condition (lit "name" ++ lit "  " ++ lit "<" ++ lit " " ++ 39%N :: lit "=Bob'")
  = parse_condition (lit "name" ++ lit "<" ++ 39%N :: lit "=Bob'")
  /\ parse_condition (lit "name" ++ lit "<" ++ 39%N :: lit "=Bob'")
     = Ok (lit "name", lit "<", parse_value (run_to_quote 39%N (lit "=Bob'"))).
Proof.
  apply (proj1 parse_condition_spacing);
    [discriminate | reflexivity | reflexivity | simpl; tauto | reflexivity
    | reflexivity | reflexivity | reflexivity | discriminate].
Defined.

End Operators.

(* ===================================================================== *)
(** * Further properties: splitting the conditions *)
(* ===================================================================== *)

Section Splitting.
Import QueryParser.

(** A text without the letters a, n, d in a row is not split, by
    [str.split] on the word in capitals or by the separator pattern. *)
Lemma find_from_shift sub s i j :
  find_from sub s i = None -> find_from sub s j = None.
Proof.
  revert i j. induction s as [|c s IH]; intros i j; simpl.
  - destruct (startswith [] sub); [discriminate|reflexivity].
  - destruct (startswith (c :: s) sub); [discriminate|]. apply IH.
Qed.

Lemma find_from_none_cons sub c s i :
  find_from sub (c :: s) i = None ->
  startswith (c :: s) sub = false /\ find_from sub s i = None.
Proof.
  simpl. destruct (startswith (c :: s) sub); [discriminate|].
  intros H. split; [reflexivity|]. exact (find_from_shift _ _ _ _ H).
Qed.

Lemma find_from_occurrence sub pre post i :
  find_from sub (pre ++ sub ++ post) i <> None.
Proof.
  revert i. induction pre as [|c pre IH]; intros i.
  - cbn [app]. destruct (sub ++ post) as [|c s] eqn:E; simpl.
    + destruct sub; [discriminate|discriminate].
    + rewrite <- E, startswith_app. discriminate.
  - simpl. destruct (startswith _ sub); [discriminate|apply IH].
Qed.

Lemma startswith_lower (s : str) :
  startswith s (lit "AND") = true -> startswith (lower s) (lit "and") = true.
Proof.
  intros H. apply startswith_inv in H as [rest ->]. reflexivity.
Qed.

Lemma split_from_none sep s i piece :
  find_from sep s i = None -> Py.split_from sep s 0 piece = [piece ++ s].
Proof.
  revert i piece. induction s as [|c s IH]; intros i piece H.
  - simpl. rewrite app_nil_r. reflexivity.
  - apply find_from_none_cons in H as [Hc Hs]. cbn [Py.split_from]. rewrite Hc.
    rewrite (IH i) by exact Hs. rewrite <- app_assoc. reflexivity.
Qed.

Lemma find_from_lower s i :
  find_from (lit "and") (lower s) i = None -> find_from (lit "AND") s i = None.
Proof.
  revert i. induction s as [|c s IH]; intros i; [reflexivity|].
  intros H. change (lower (c :: s)) with (lower_char c :: lower s) in H.
  apply find_from_none_cons in H as [Hc Hs].
  cbn [find_from].
  destruct (startswith (c :: s) (lit "AND")) eqn:E.
  - apply startswith_lower in E. 
    pose proof (eq_trans (eq_sym E) Hc) as F. discriminate F.
  - apply IH. exact (find_from_shift _ _ _ _ Hs).
Qed.

Lemma split_no_and s :
  occurs (lit "and") (lower s) = false -> Py.split s (lit "AND") = [s].
Proof.
  unfold occurs, Py.split. destruct (find_from _ (lower s) 0) eqn:H; [discriminate|].
  intros _. apply (split_from_none (lit "AND") s 0 []). apply find_from_lower, H.
Qed.

(** What the separator pattern matches. *)
Lemma and_pattern_shape a gs :
  matches AND_PATTERN a gs -> separator a.
Proof.
  intros H.
  change (matches (Re.Seq (Re.Plus isspace)
            (Re.Seq (Re.Seq (Re.chr_i 65%N) (Re.Seq (Re.chr_i 78%N) (Re.chr_i 68%N)))
                    (Re.Plus isspace))) a gs) in H.
  apply matches_seq_inv in H as (ws1 & a1 & g1 & g2 & -> & -> & H1 & H).
  apply matches_seq_inv in H as (w & ws2 & g3 & g4 & -> & -> & Hw & H2).
  apply matches_plus_inv in H1 as (-> & Hne1 & Hws1).
  apply matches_plus_inv in H2 as (-> & Hne2 & Hws2).
  apply matches_seq_inv in Hw as (x & w' & g5 & g6 & -> & -> & Hx & Hw).
  apply matches_seq_inv in Hw as (y & z & g7 & g8 & -> & -> & Hy & Hz).
  apply matches_chr_inv in Hx as (-> & cx & -> & Hx).
  apply matches_chr_inv in Hy as (-> & cy & -> & Hy).
  apply matches_chr_inv in Hz as (-> & cz & -> & Hz).
  apply N.eqb_eq in Hx, Hy, Hz.
  exists ws1, [cx; cy; cz], ws2. repeat split; try assumption.
  unfold lower. simpl. rewrite Hx, Hy, Hz. reflexivity.
Qed.

Lemma match_length_separator s n :
  Re.match_length AND_PATTERN s = Some n ->
  exists sep rest, s = sep ++ rest /\ separator sep /\ n = length sep.
Proof.
  unfold Re.match_length. intros H.
  apply run_sound in H as (a & rest & g1 & -> & Ha & H).
  injection H as <-. exists a, rest. split; [reflexivity|].
  split; [exact (and_pattern_shape _ _ Ha)|].
  rewrite length_app. lia.
Qed.

Lemma lower_app (a b : str) : lower (a ++ b) = lower a ++ lower b.
Proof. unfold lower. apply map_app. Qed.

Lemma match_length_no_and s i :
  find_from (lit "and") (lower s) i = None -> Re.match_length AND_PATTERN s = None.
Proof.
  intros H. destruct (Re.match_length AND_PATTERN s) as [n|] eqn:E; [|reflexivity].
  apply match_length_separator in E
    as (sep & rest & -> & (ws1 & w & ws2 & -> & _ & _ & Hw & _) & _).
  exfalso. revert H. rewrite <- !app_assoc, !lower_app, Hw.
  apply find_from_occurrence.
Qed.

Lemma re_split_from_none s i piece :
  find_from (lit "and") (lower s) i = None ->
  Re.split_from AND_PATTERN s 0 piece = [piece ++ s].
Proof.
  revert i piece. induction s as [|c s IH]; intros i piece H.
  - simpl. rewrite app_nil_r. reflexivity.
  - cbn [Re.split_from]. rewrite (match_length_no_and _ i H).
    change (lower (c :: s)) with (lower_char c :: lower s) in H.
    apply find_from_none_cons in H as [_ Hs].
    rewrite (IH i) by exact Hs. rewrite <- app_assoc. reflexivity.
Qed.

Lemma split_conditions_no_and s :
  occurs (lit "and") (lower s) = false -> split_conditions s = [strip s].
Proof.
  unfold occurs, split_conditions, Re.split.
  destruct (find_from _ (lower s) 0) eqn:H; [discriminate|].
  intros _. rewrite (re_split_from_none s 0 []) by exact H. reflexivity.
Qed.

(** Splitting what was joined: inside a plain condition the separator
    pattern finds no match, and at a separator it matches the whole
    separator. *)
Lemma inner_ok_tail c q : inner_ok (c :: q) = true -> inner_ok q = true.
Proof.
  destruct q as [|d q]; [reflexivity|]. cbn [inner_ok].
  intros H. apply andb_prop in H as [_ H]. exact H.
Qed.

Lemma space_run_inside ws1 : forall q tail x rest,
  q <> [] -> inner_ok q = true ->
  ws1 <> [] -> forallb isspace ws1 = true -> is_a x = true ->
  q ++ tail = ws1 ++ x :: rest -> False.
Proof.
  induction ws1 as [|w ws1 IH]; intros q tail x rest Hq Hok Hne Hws Hx Heq; [congruence|].
  destruct q as [|c q]; [congruence|].
  injection Heq as -> Heq. simpl in Hws. apply andb_prop in Hws as [Hw Hws].
  destruct q as [|d q].
  - simpl in Hok. rewrite Hw in Hok. discriminate.
  - cbn [inner_ok] in Hok. apply andb_prop in Hok as [Hcd Hok].
    destruct ws1 as [|w2 ws1].
    + injection Heq as -> _. rewrite Hw, Hx in Hcd. discriminate.
    + apply (IH (d :: q) tail x rest); try assumption; discriminate.
Qed.

Lemma separator_head sep :
  separator sep ->
  exists ws1 x rest, sep = ws1 ++ x :: rest /\ ws1 <> [] /\ forallb isspace ws1 = true
                     /\ is_a x = true.
Proof.
  intros (ws1 & w & ws2 & -> & Hne & Hws & Hw & _).
  destruct w as [|x w]; [discriminate|]. injection Hw as Hx _.
  exists ws1, x, (w ++ ws2). repeat split; try assumption.
  unfold is_a. rewrite Hx. reflexivity.
Qed.

Lemma no_match_inside q tail :
  q <> [] -> inner_ok q = true -> Re.match_length AND_PATTERN (q ++ tail) = None.
Proof.
  intros Hq Hok. destruct (Re.match_length AND_PATTERN (q ++ tail)) as [n|] eqn:E;
    [|reflexivity].
  exfalso. apply match_length_separator in E as (sep & rest & Heq & Hsep & _).
  apply separator_head in Hsep as (ws1 & x & rest' & -> & Hne & Hws & Hx).
  rewrite <- app_assoc in Heq. cbn [app] in Heq.
  exact (space_run_inside ws1 q tail x _ Hq Hok Hne Hws Hx Heq).
Qed.

Lemma split_walk q : forall tail piece,
  inner_ok q = true ->
  Re.split_from AND_PATTERN (q ++ tail) 0 piece
  = Re.split_from AND_PATTERN tail 0 (piece ++ q).
Proof.
  induction q as [|c q IH]; intros tail piece Hok.
  - rewrite app_nil_r. reflexivity.
  - change ((c :: q) ++ tail) with (c :: (q ++ tail)). cbn [Re.split_from].
    change (c :: (q ++ tail)) with ((c :: q) ++ tail).
    rewrite no_match_inside by (discriminate || exact Hok).
    rewrite IH by exact (inner_ok_tail c q Hok).
    rewrite <- app_assoc. reflexivity.
Qed.

Lemma split_from_skip r a : forall b piece,
  Re.split_from r (a ++ b) (length a) piece = Re.split_from r b 0 piece.
Proof. induction a as [|c a IH]; intros b piece; [reflexivity|]. apply IH. Qed.

Lemma is_a_not_space x : is_a x = true -> isspace x = false.
Proof.
  unfold is_a, lower_char. intros H. apply N.eqb_eq in H.
  destruct (between 65%N 90%N x) eqn:E; not_space; class_facts; lia.
Qed.

Lemma separator_match sep p tail :
  separator sep -> head_fails isspace (p ++ tail) ->
  Re.match_length AND_PATTERN (sep ++ p ++ tail) = Some (length sep).
Proof.
  intros (ws1 & w & ws2 & -> & Hne1 & Hws1 & Hw & Hne2 & Hws2) Hp.
  destruct w as [|x [|y [|z [|]]]]; try discriminate Hw.
  injection Hw as Hx Hy Hz.
  unfold Re.match_length.
  set (s := (ws1 ++ [x; y; z] ++ ws2) ++ p ++ tail).
  change (Re.run (Re.Plus isspace) s []
            (fun s1 g1 => Re.run (Re.chr_i 65%N) s1 g1
               (fun s2 g2 => Re.run (Re.chr_i 78%N) s2 g2
                  (fun s3 g3 => Re.run (Re.chr_i 68%N) s3 g3
                     (fun s4 g4 => Re.run (Re.Plus isspace) s4 g4
                        (fun rest _ => Some (length s - length rest))))))
          = Some (length (ws1 ++ [x; y; z] ++ ws2))).
  assert (Hs : s = ws1 ++ x :: y :: z :: ws2 ++ p ++ tail)
    by (subst s; rewrite <- !app_assoc; reflexivity).
  rewrite Hs at 1.
  apply plus_greedy; [exact Hne1|exact Hws1| |].
  { simpl. apply is_a_not_space. unfold is_a. rewrite Hx. reflexivity. }
  cbn [Re.run Re.chr_i]. rewrite Hx, Hy, Hz. cbn.
  apply plus_greedy; [exact Hne2|exact Hws2|exact Hp|].
  f_equal. subst s. rewrite !length_app. cbn [length]. rewrite ?length_app. lia.
Qed.

Lemma separator_length sep : separator sep -> exists c sep', sep = c :: sep'.
Proof.
  intros (ws1 & w & ws2 & -> & Hne & _). destruct ws1 as [|c ws1]; [congruence|]. eauto.
Qed.

Lemma plain_condition_inv p :
  plain_condition p = true -> p <> [] /\ head_fails isspace p /\ inner_ok p = true.
Proof.
  destruct p as [|c p]; [discriminate|]. unfold plain_condition.
  intros H. apply andb_prop in H as [Hc Hok]. apply negb_true_iff in Hc.
  repeat split; [discriminate|exact Hc|exact Hok].
Qed.

Lemma split_join (more : list (str * str)) : forall p piece,
  inner_ok p = true ->
  Forall (fun sp => separator (fst sp) /\ plain_condition (snd sp) = true) more ->
  Re.split_from AND_PATTERN (p ++ join more) 0 piece
  = (piece ++ p) :: List.map snd more.
Proof.
  induction more as [|[sep p1] more IH]; intros p piece Hok Hall.
  - rewrite split_walk by exact Hok. reflexivity.
  - inversion Hall as [|? ? [Hsep Hp1] Hmore]; subst. simpl in Hsep, Hp1.
    apply plain_condition_inv in Hp1 as (Hne1 & Hh1 & Hok1).
    rewrite split_walk by exact Hok. cbn [join List.map snd].
    destruct (separator_length sep Hsep) as (c & sep' & ->).
    cbn [app Re.split_from].
    change (c :: sep' ++ p1 ++ join more) with ((c :: sep') ++ p1 ++ join more).
    rewrite separator_match by (assumption || (apply head_fails_app; assumption)).
    cbn [length]. rewrite split_from_skip.
    f_equal. apply (IH p1 []); assumption.
Qed.

Lemma inner_ok_last q : q <> [] -> inner_ok q = true -> head_fails isspace (rev q).
Proof.
  induction q as [|c q IH]; [congruence|]. intros _ Hok.
  destruct q as [|d q].
  - simpl in *. apply negb_true_iff, Hok.
  - cbn [inner_ok] in Hok. apply andb_prop in Hok as [_ Hok].
    change (rev (c :: d :: q)) with (rev (d :: q) ++ [c]).
    apply head_fails_app; [|apply IH; [discriminate|exact Hok]].
    simpl. destruct (rev q); discriminate.
Qed.

Lemma plain_condition_strip p : plain_condition p = true -> strip p = p.
Proof.
  intros H. apply plain_condition_inv in H as (Hne & Hh & Hok).
  rewrite <- (app_nil_r p) at 1.
  apply (strip_by_spec isspace [] p []); [reflexivity|reflexivity|exact Hh|].
  apply inner_ok_last; assumption.
Qed.

(** X5.  [split_conditions] gives back the conditions that were joined:
    for condition texts that are not empty, have no white space at
    either end and none before a letter a, joined by separators made of
    white space, the word and in any letter case, and white space, the
    result is the list of the conditions in their order. *)
Theorem split_conditions_join (p : str) (more : list (str * str)) :
  plain_condition p = true ->
  Forall (fun sp => separator (fst sp) /\ plain_condition (snd sp) = true) more ->
  split_conditions (p ++ join more) = p :: List.map snd more.
Proof.
  intros Hp Hall. unfold split_conditions, Re.split.
  rewrite split_join by (try apply plain_condition_inv; assumption).
  cbn [app List.map]. rewrite plain_condition_strip by exact Hp. f_equal.
  induction Hall as [|[sep q] more [_ Hq] _ IH]; [reflexivity|].
  cbn [List.map snd]. simpl in Hq. rewrite plain_condition_strip by exact Hq.
  f_equal. exact IH.
Qed.

Lemma split_conditions_join_witness :
  split_conditions
    (lit "Z13_STATUS_CODE = 4"
     ++ join [(lit "  AND ", lit "BUILDER_GROUP = 'Guoyu Logistics'");
              (lit " and ", lit "Z01_CURRENT_NAME != 'x'")])
  = [lit "Z13_STATUS_CODE = 4"; lit "BUILDER_GROUP = 'Guoyu Logistics'";
     lit "Z01_CURRENT_NAME != 'x'"].
Proof.
  apply (split_conditions_join (lit "Z13_STATUS_CODE = 4")
           [(lit "  AND ", lit "BUILDER_GROUP = 'Guoyu Logistics'");
            (lit " and ", lit "Z01_CURRENT_NAME != 'x'")]).
  - reflexivity.
  - constructor; [|constructor; [|constructor]].
    + split; [|reflexivity].
      exists (lit "  "), (lit "AND"), (lit " ").
      split; [reflexivity|]. split; [discriminate|]. split; [reflexivity|].
      split; [reflexivity|]. split; [discriminate|reflexivity].
    + split; [|reflexivity].
      exists (lit " "), (lit "and"), (lit " ").
      split; [reflexivity|]. split; [discriminate|]. split; [reflexivity|].
      split; [reflexivity|]. split; [discriminate|reflexivity].
Defined.

End Splitting.

(* ===================================================================== *)
(** * Further properties: the two pipelines *)
(* ===================================================================== *)

Section Pipelines.
Import QueryParser.

Lemma comprehension_if_ext {A} (f g : A -> result bool) xs :
  (forall x, f x = g x) -> comprehension_if f xs = comprehension_if g xs.
Proof.
  intros H. induction xs as [|x xs IH]; simpl; [reflexivity|]. rewrite H, IH. reflexivity.
Qed.

Lemma comprehension_if_const_raise {A} (f : A -> result bool) e x xs :
  (forall x, f x = Raise e) -> comprehension_if f (x :: xs) = Raise e.
Proof. intros H. simpl. rewrite H. reflexivity. Qed.

(** X29.  On a query in capitals with conditions that do not hold the
    letters a, n, d in a row, in any letter case, [query_vessels] of
    old_main.py and the body of [Database.query] return and raise the
    same, for any non-empty list of vessels. *)
Theorem pipelines_agree (vessels : list (gmap str value)) (rest : str) :
  vessels <> [] -> strip rest <> [] ->
  occurs (lit "and") (lower (strip rest)) = false ->
  OldMain.query_vessels vessels (lit "WHERE" ++ rest)
  = Database.select vessels (lit "WHERE" ++ rest).
Proof.
  intros Hv Hne Hand.
  pose proof (split_no_and _ Hand) as Hold.
  assert (Hnew : split_conditions (strip rest) = [strip rest]).
  { rewrite (split_conditions_no_and _ Hand). f_equal.
    apply (strip_by_idempotent isspace). }
  unfold OldMain.query_vessels, Database.select, parse_query.
  rewrite where_guard_iff.
  destruct (starts_with_where_keyword (lit "WHERE") rest eq_refl) as [-> _].
  rewrite startswith_app. cbn [negb].
  change (slice_from 5 (lit "WHERE" ++ rest)) with rest.
  rewrite Hold.
  destruct (strip rest) as [|c0 s0] eqn:Hs; [congruence|]. rewrite <- Hs in *.
  rewrite Hnew. cbn [comprehension OldMain.matches_all].
  rewrite <- old_parse_condition_same.
  destruct (OldMain.parse_condition (strip rest)) as [[[f o] v]|e]; cbn [bind].
  - apply comprehension_if_ext. intros vessel.
    rewrite old_evaluate_condition_same. unfold evaluate_record. cbn [all].
    destruct (evaluate_condition vessel f o v) as [[|]|]; reflexivity.
  - destruct vessels as [|x xs]; [congruence|]. reflexivity.
Qed.

Lemma pipelines_agree_witness :
  OldMain.query_vessels sample_vessels (lit "WHERE" ++ lit " Z13_STATUS_CODE = 4")
  = Database.select sample_vessels (lit "WHERE" ++ lit " Z13_STATUS_CODE = 4").
Proof.
  apply pipelines_agree; [discriminate | vm_compute; discriminate | vm_compute; reflexivity].
Defined.

(** X30.  With no vessels at all, [query_vessels] of old_main.py returns
    the empty list for any query that starts with the keyword in
    capitals, without reading the conditions; the body of
    [Database.query] still parses the query, and raises what the parser
    raises. *)
Theorem query_no_records (query : str) :
  startswith query (lit "WHERE") = true ->
  OldMain.query_vessels [] query = Ok []
  /\ Database.select [] query = (_ <- parse_query query ;; Ok []).
Proof.
  intros Hw. split.
  - unfold OldMain.query_vessels. rewrite Hw. reflexivity.
  - unfold Database.select. destruct (parse_query query); reflexivity.
Qed.

Lemma query_no_records_witness :
  OldMain.query_vessels [] (lit "WHERE is the ship") = Ok []
  /\ Database.select [] (lit "WHERE is the ship")
     = (_ <- parse_query (lit "WHERE is the ship") ;; Ok []).
Proof. apply query_no_records. reflexivity. Defined.

End Pipelines.
